(** * Error detection utilities: a shallow embedding and its properties

    The development follows [src/utils/error-detection.ts]
    ([detectBashError], [extractErrorFeatures]) and the PostToolUse
    observation handler ([src/cli/handlers/observation.ts]).

    JavaScript strings are sequences of UTF-16 code units; they are modelled
    as lists of code units ([N]).  The regular expressions of the pattern
    tables are kept as syntax trees and run by a backtracking matcher that
    follows the continuation semantics of the ECMAScript standard. *)

From Stdlib Require Import Ascii String.
From Stdlib Require Import NArith ZArith Arith Bool List Lia.
Import ListNotations.

Set Implicit Arguments.
Local Open Scope N_scope.

(** ** Text *)

Module Text.

Definition char16 := N.
Definition text := list char16.

(** An ASCII literal of the source, as code units. *)
Definition lit (s : string) : text :=
  map N_of_ascii (list_ascii_of_string s).

Definition eqb (a b : text) : bool :=
  if list_eq_dec N.eq_dec a b then true else false.

Definition is_digit (c : char16) : bool := (48 <=? c) && (c <=? 57).
Definition is_upper (c : char16) : bool := (65 <=? c) && (c <=? 90).
Definition is_lower (c : char16) : bool := (97 <=? c) && (c <=? 122).

(** [\w]: the basic word characters, [A-Za-z0-9_]. *)
Definition is_word (c : char16) : bool :=
  is_upper c || is_lower c || is_digit c || (c =? 95).

(** [\s]: WhiteSpace and LineTerminator code points of the standard. *)
Definition is_space (c : char16) : bool :=
  ((9 <=? c) && (c <=? 13)) || (c =? 32) || (c =? 160) || (c =? 5760)
  || ((8192 <=? c) && (c <=? 8202)) || (c =? 8232) || (c =? 8233)
  || (c =? 8239) || (c =? 8287) || (c =? 12288) || (c =? 65279).

(** LineTerminator: what [.] refuses. *)
Definition is_line_terminator (c : char16) : bool :=
  (c =? 10) || (c =? 13) || (c =? 8232) || (c =? 8233).

(** Canonicalize of the standard for a pattern without the [u] flag, on the
    ASCII range.  The standard never folds a code unit of 128 or more onto
    an ASCII one, and every character of the pattern tables is ASCII, so a
    code unit outside ASCII is left alone here. *)
Definition canonicalize (ignoreCase : bool) (c : char16) : char16 :=
  if ignoreCase && is_lower c then c - 32 else c.

End Text.
Import Text.

(** ** Regular expressions *)

Module RegExp.

Inductive ClassAtom : Type :=
| CChar (c : char16)          (* a single character *)
| CRange (lo hi : char16)     (* [lo-hi] *)
| CDigit                      (* \d *)
| CSpace                      (* \s *)
| CWord.                      (* \w *)

Inductive Regex : Type :=
| REmpty
| RChar (c : char16)
| RDot
| RClass (atoms : list ClassAtom)
| RSeq (a b : Regex)
| RAlt (a b : Regex)
| RStar (a : Regex)
| RPlus (a : Regex)
| ROpt (a : Regex)
| RGroup (n : nat) (a : Regex)    (* the n-th capturing group *)
| RWordBoundary.                  (* \b *)

(** A literal run of pattern characters. *)
Fixpoint RStr (s : text) : Regex :=
  match s with
  | [] => REmpty
  | [c] => RChar c
  | c :: s' => RSeq (RChar c) (RStr s')
  end.

Record RegExp : Type := mkRegExp {
  source : Regex;
  ignoreCase : bool;
  global : bool
}.

(** The matcher's state: the code unit before the current position (for
    [\b]), the text still ahead, and the captures made so far. *)
Record State : Type := mkState {
  prev : option char16;
  rest : text;
  caps : list (nat * text)
}.

Definition Cont := State -> option State.

Definition atom_member (a : ClassAtom) (c : char16) : bool :=
  match a with
  | CChar x => c =? x
  | CRange lo hi => (lo <=? c) && (c <=? hi)
  | CDigit => is_digit c
  | CSpace => is_space c
  | CWord => is_word c
  end.

Definition to_lower (c : char16) : char16 := if is_upper c then c + 32 else c.

(** CharacterSetMatcher: some member of the set has the canonical form of
    the input code unit.  On ASCII that member is the code unit itself or
    its other case. *)
Definition class_member (ic : bool) (atoms : list ClassAtom) (c : char16) : bool :=
  existsb (fun a => atom_member a c
                    || (ic && (atom_member a (canonicalize true c)
                               || atom_member a (to_lower c)))) atoms.

Definition char_match (ic : bool) (p c : char16) : bool :=
  canonicalize ic p =? canonicalize ic c.

(** Consume one code unit when it satisfies [ok]. *)
Definition step (ok : char16 -> bool) (s : State) (k : Cont) : option State :=
  match rest s with
  | c :: t => if ok c then k (mkState (Some c) t (caps s)) else None
  | [] => None
  end.

(** RepeatMatcher with min 0 and no upper bound, greedy: an iteration that
    consumes nothing is refused, so the text ahead bounds the iterations. *)
Definition repeat (ma : State -> Cont -> option State)
  : nat -> State -> Cont -> option State :=
  fix loop (n : nat) (s : State) (k : Cont) : option State :=
    match n with
    | O => k s
    | S n' =>
        match ma s (fun s' =>
                      if (length (rest s') <? length (rest s))%nat
                      then loop n' s' k else None) with
        | Some r => Some r
        | None => k s
        end
    end.

Definition is_word_at (o : option char16) : bool :=
  match o with Some c => is_word c | None => false end.

Definition consumed (s s' : State) : text :=
  firstn (length (rest s) - length (rest s')) (rest s).

Fixpoint m (ic : bool) (r : Regex) (s : State) (k : Cont) {struct r} : option State :=
  match r with
  | REmpty => k s
  | RChar p => step (char_match ic p) s k
  | RDot => step (fun c => negb (is_line_terminator c)) s k
  | RClass atoms => step (class_member ic atoms) s k
  | RSeq a b => m ic a s (fun s1 => m ic b s1 k)
  | RAlt a b =>
      match m ic a s k with
      | Some r => Some r
      | None => m ic b s k
      end
  | RStar a => repeat (m ic a) (length (rest s)) s k
  | RPlus a => m ic a s (fun s1 => repeat (m ic a) (length (rest s1)) s1 k)
  | ROpt a =>
      match m ic a s (fun s' =>
                        if (length (rest s') <? length (rest s))%nat
                        then k s' else None) with
      | Some r => Some r
      | None => k s
      end
  | RGroup n a =>
      m ic a s (fun s' => k (mkState (prev s') (rest s')
                                     ((n, consumed s s') :: caps s')))
  | RWordBoundary =>
      if xorb (is_word_at (prev s)) (is_word_at (hd_error (rest s)))
      then k s else None
  end.

(** A successful match: [index], the matched text ([match[0]]) and the
    captures ([match[n]]). *)
Record Match : Type := mkMatch {
  index : nat;
  matched : text;
  groups : list (nat * text)
}.

Fixpoint lookup (n : nat) (l : list (nat * text)) : option text :=
  match l with
  | [] => None
  | (i, t) :: l' => if Nat.eqb i n then Some t else lookup n l'
  end.

Definition capture (n : nat) (mt : Match) : option text := lookup n (groups mt).

(** One attempt at the current position. *)
Definition match_here (re : RegExp) (p : option char16) (t : text) : option State :=
  m (ignoreCase re) (source re) (mkState p t []) (fun s => Some s).

(** RegExpBuiltinExec from a given position: the leftmost position at which
    the pattern matches. *)
Fixpoint search (re : RegExp) (p : option char16) (t : text) (i : nat) : option Match :=
  match match_here re p t with
  | Some s' => Some (mkMatch i (consumed (mkState p t []) s') (caps s'))
  | None =>
      match t with
      | [] => None
      | c :: t' => search re (Some c) t' (S i)
      end
  end.

(** [str.match(re)] for a pattern without the [g] flag, and [re.test(str)]
    (patterns without [g] or [y] start at index 0 every time). *)
Definition exec (re : RegExp) (t : text) : option Match := search re None t 0.

Definition test (re : RegExp) (t : text) : bool :=
  match exec re t with Some _ => true | None => false end.

(** [str.match(re)] for a pattern with the [g] flag: every match, left to
    right, each search resuming where the previous match ended (one code
    unit further after an empty match); [None] stands for [null]. *)
Fixpoint match_all_from (fuel : nat) (re : RegExp) (p : option char16) (t : text)
  : list text :=
  match fuel with
  | O => []
  | S fuel' =>
      match match_here re p t with
      | Some s' =>
          let w := consumed (mkState p t []) s' in
          match w, t with
          | [], [] => [w]
          | [], c :: t' => w :: match_all_from fuel' re (Some c) t'
          | _ :: _, _ => w :: match_all_from fuel' re (prev s') (rest s')
          end
      | None =>
          match t with
          | [] => []
          | c :: t' => match_all_from fuel' re (Some c) t'
          end
      end
  end.

Definition match_global (re : RegExp) (t : text) : option (list text) :=
  match match_all_from (S (length t)) re None t with
  | [] => None
  | l => Some l
  end.

End RegExp.
Import RegExp.

(** ** Numbers and [parseInt] *)

Module Number.

(** The values [parseInt] can return: an integer-valued double, an infinity
    or NaN.  The two zeros are one [Fin 0]: [===] and [!==] do not tell them
    apart. *)
Inductive Number : Type :=
| NaN
| PosInf
| NegInf
| Fin (z : Z).

(** The double nearest to a natural number (ties to even); [None] when it
    rounds beyond the largest finite double. *)
Definition round_to_double (n : N) : option N :=
  let bits := N.size n in
  if bits <=? 53 then Some n
  else
    let sh := bits - 53 in
    let q := N.shiftr n sh in
    let r := n - N.shiftl q sh in
    let half := N.shiftl 1 (sh - 1) in
    let q' := if (half <? r) || ((r =? half) && N.odd q) then q + 1 else q in
    let v := N.shiftl q' sh in
    if N.shiftl 1 1024 <=? v then None else Some v.

Definition of_N (negative : bool) (n : N) : Number :=
  match round_to_double n with
  | Some v => Fin (if negative then - Z.of_N v else Z.of_N v)
  | None => if negative then NegInf else PosInf
  end.

(** [x !== 0] on numbers. *)
Definition strict_ne_zero (x : Number) : bool :=
  match x with
  | Fin z => negb (Z.eqb z 0)
  | _ => true
  end.

Definition digit_value (radix : N) (c : char16) : option N :=
  let v := if is_digit c then Some (c - 48)
           else if is_lower c then Some (c - 87)
           else if is_upper c then Some (c - 55)
           else None in
  match v with
  | Some d => if d <? radix then Some d else None
  | None => None
  end.

(** The longest prefix of digits of the radix, as a number; [None] when the
    text does not start with a digit. *)
Fixpoint digits_value (radix : N) (acc : option N) (t : text) : option N :=
  match t with
  | [] => acc
  | c :: t' =>
      match digit_value radix c with
      | Some d =>
          digits_value radix
            (Some (match acc with Some a => a * radix + d | None => d end)) t'
      | None => acc
      end
  end.

Fixpoint trim_start (t : text) : text :=
  match t with
  | c :: t' => if is_space c then trim_start t' else t
  | [] => []
  end.

(** [parseInt(string)] with no radix argument: leading white space, a sign,
    a [0x] prefix, then the longest run of digits.  The standard lets an
    implementation drop decimal digits after the twentieth; the exactly
    rounded value taken here is among the results it allows. *)
Definition parseInt (t : text) : Number :=
  let s := trim_start t in
  let '(negative, s) :=
    match s with
    | c :: s' =>
        if c =? 45 then (true, s')
        else if c =? 43 then (false, s')
        else (false, s)
    | [] => (false, s)
    end in
  let '(radix, s) :=
    match s with
    | c :: d :: s' =>
        if (c =? 48) && ((d =? 120) || (d =? 88)) then (16, s') else (10, s)
    | _ => (10, s)
    end in
  match digits_value radix None s with
  | Some n => of_N negative n
  | None => NaN
  end.

(** The decimal value of a run of digits. *)
Definition decimal (t : text) : N :=
  fold_left (fun a c => a * 10 + (c - 48)) t 0.

End Number.
Import Number.

(** ** JavaScript values and [JSON.stringify] *)

Module JSON.

(** What the development needs of the doubles a value may hold: their
    [ToString], whether they are finite, and whether they are falsy (a zero
    or NaN). *)
Class NumberOps (num : Type) : Type := {
  num_to_text : num -> text;
  num_is_finite : num -> bool;
  num_is_falsy : num -> bool
}.

(** Integers of magnitude below 10^21 print in plain decimal. *)
Fixpoint decimal_digits (fuel : nat) (n : N) (acc : text) : text :=
  match fuel with
  | O => acc
  | S fuel' =>
      let acc' := (48 + n mod 10) :: acc in
      if n <? 10 then acc' else decimal_digits fuel' (n / 10) acc'
  end.

Definition Z_to_text (z : Z) : text :=
  let n := Z.abs_N z in
  let ds := decimal_digits (S (N.to_nat (N.size n))) n [] in
  if (z <? 0)%Z then 45 :: ds else ds.

(** The numbers of the examples: doubles that are integers of magnitude
    below 10^21 (a larger one prints with an exponent in JavaScript, which
    [Z_to_text] does not do).  The theorems hold for any [NumberOps]. *)
#[export] Instance integer_ops : NumberOps Z := {|
  num_to_text := Z_to_text;
  num_is_finite := fun _ => true;
  num_is_falsy := fun z => Z.eqb z 0
|}.

Set Warnings "-register-all".

(** A JavaScript value as plain data, with the leaves [JSON.stringify]
    treats specially.  An object is the list of its own enumerable
    string-keyed properties in enumeration order.  Cyclic structures and
    objects with a [toJSON] method are outside this type. *)
Inductive JSValue (num : Type) : Type :=
| JUndefined
| JNull
| JBool (b : bool)
| JNumber (x : num)
| JString (s : text)
| JBigInt (z : Z)
| JSymbol
| JFunction
| JArray (items : list (JSValue num))
| JObject (fields : list (text * JSValue num)).

Arguments JUndefined {num}.
Arguments JNull {num}.
Arguments JBool {num} b.
Arguments JString {num} s.
Arguments JBigInt {num} z.
Arguments JSymbol {num}.
Arguments JFunction {num}.

(** Induction over a value and the values nested in it. *)
Section JSValue_nested_ind.

Variable num : Type.
Variable P : JSValue num -> Prop.

Hypothesis P_undefined : P JUndefined.
Hypothesis P_null : P JNull.
Hypothesis P_bool : forall b, P (JBool b).
Hypothesis P_number : forall x, P (JNumber x).
Hypothesis P_string : forall s, P (JString s).
Hypothesis P_bigint : forall z, P (JBigInt z).
Hypothesis P_symbol : P JSymbol.
Hypothesis P_function : P JFunction.
Hypothesis P_array : forall items, Forall P items -> P (JArray items).
Hypothesis P_object :
  forall fields, Forall (fun kv => P (snd kv)) fields -> P (JObject fields).

Fixpoint JSValue_nested_ind (v : JSValue num) : P v :=
  match v with
  | JUndefined => P_undefined
  | JNull => P_null
  | JBool b => P_bool b
  | JNumber x => P_number x
  | JString s => P_string s
  | JBigInt z => P_bigint z
  | JSymbol => P_symbol
  | JFunction => P_function
  | JArray items =>
      P_array
        ((fix all (l : list (JSValue num)) : Forall P l :=
            match l with
            | [] => Forall_nil P
            | x :: l' => Forall_cons x (JSValue_nested_ind x) (all l')
            end) items)
  | JObject fields =>
      P_object
        ((fix all (l : list (text * JSValue num)) : Forall (fun kv => P (snd kv)) l :=
            match l with
            | [] => Forall_nil _
            | kv :: l' =>
                Forall_cons kv (JSValue_nested_ind (snd kv)) (all l')
            end) fields)
  end.

End JSValue_nested_ind.

Inductive exn : Type :=
| TypeError
| Error (message : text).

Inductive outcome (A : Type) : Type :=
| Ok (a : A)
| Throw (e : exn).

Arguments Throw {A} e.

Definition bind {A B : Type} (x : outcome A) (f : A -> outcome B) : outcome B :=
  match x with
  | Ok a => f a
  | Throw e => Throw e
  end.

Notation "x <- c1 ;; c2" := (bind c1 (fun x => c2))
  (at level 61, c1 at next level, right associativity).

Definition hex_digit (d : N) : char16 := if d <? 10 then 48 + d else 87 + d.

(** [\uXXXX] with lower-case hexadecimal digits. *)
Definition unicode_escape (c : char16) : text :=
  [92; 117; hex_digit ((c / 4096) mod 16); hex_digit ((c / 256) mod 16);
   hex_digit ((c / 16) mod 16); hex_digit (c mod 16)].

Definition is_high_surrogate (c : char16) : bool := (55296 <=? c) && (c <=? 56319).
Definition is_low_surrogate (c : char16) : bool := (56320 <=? c) && (c <=? 57343).

(** The escape of one code unit that is not part of a surrogate pair. *)
Definition escape_unit (c : char16) : text :=
  if c =? 8 then [92; 98]
  else if c =? 9 then [92; 116]
  else if c =? 10 then [92; 110]
  else if c =? 12 then [92; 102]
  else if c =? 13 then [92; 114]
  else if c =? 34 then [92; 34]
  else if c =? 92 then [92; 92]
  else if (c <? 32) || is_high_surrogate c || is_low_surrogate c then unicode_escape c
  else [c].

(** The body of QuoteJSONString: code point by code point, a surrogate pair
    copied as it is, a lone surrogate escaped. *)
Fixpoint quote_body (t : text) : text :=
  match t with
  | [] => []
  | c :: t' =>
      match t' with
      | d :: t'' =>
          if is_high_surrogate c && is_low_surrogate d
          then c :: d :: quote_body t''
          else escape_unit c ++ quote_body t'
      | [] => escape_unit c
      end
  end.

Definition QuoteJSONString (t : text) : text := 34 :: quote_body t ++ [34].

Fixpoint join (sep : text) (parts : list text) : text :=
  match parts with
  | [] => []
  | [p] => p
  | p :: rest => p ++ sep ++ join sep rest
  end.

Section Stringify.

Context {num : Type} `{NumberOps num}.

(** SerializeJSONProperty: [Ok None] is the [undefined] that a value with no
    JSON form (undefined, a symbol, a function) gives; a BigInt throws.  In
    an array such an element prints as [null], in an object the property is
    left out. *)
Fixpoint serialize (v : JSValue num) : outcome (option text) :=
  match v with
  | JUndefined | JSymbol | JFunction => Ok None
  | JNull => Ok (Some (lit "null"))
  | JBool b => Ok (Some (if b then lit "true" else lit "false"))
  | JNumber x => Ok (Some (if num_is_finite x then num_to_text x else lit "null"))
  | JString s => Ok (Some (QuoteJSONString s))
  | JBigInt _ => Throw TypeError
  | JArray items =>
      parts <- (fix elements (l : list (JSValue num)) : outcome (list text) :=
                  match l with
                  | [] => Ok []
                  | x :: l' =>
                      o <- serialize x ;;
                      ps <- elements l' ;;
                      Ok (match o with Some t => t | None => lit "null" end :: ps)
                  end) items ;;
      Ok (Some (91 :: join [44] parts ++ [93]))
  | JObject fields =>
      parts <- (fix members (l : list (text * JSValue num)) : outcome (list text) :=
                  match l with
                  | [] => Ok []
                  | (key, x) :: l' =>
                      o <- serialize x ;;
                      ps <- members l' ;;
                      Ok (match o with
                          | Some t => (QuoteJSONString key ++ 58 :: t) :: ps
                          | None => ps
                          end)
                  end) fields ;;
      Ok (Some (123 :: join [44] parts ++ [125]))
  end.

(** [JSON.stringify(value)] with no replacer and no indentation. *)
Definition stringify (v : JSValue num) : outcome (option text) := serialize v.

(** [value ?? ''] *)
Definition nullish_default (v : JSValue num) : JSValue num :=
  match v with
  | JUndefined | JNull => JString []
  | _ => v
  end.

(** ToBoolean, and [value || ''] *)
Definition truthy (v : JSValue num) : bool :=
  match v with
  | JUndefined | JNull => false
  | JBool b => b
  | JNumber x => negb (num_is_falsy x)
  | JString s => match s with [] => false | _ => true end
  | JBigInt z => negb (Z.eqb z 0)
  | _ => true
  end.

Definition or_empty (v : JSValue num) : JSValue num :=
  if truthy v then v else JString [].

End Stringify.

End JSON.
Import JSON.

(** ** [error-detection.ts] *)

Module ErrorDetection.

Record ErrorDetectionResult : Type := mkResult {
  isError : bool;
  errorMessage : option text;
  exitCode : option Number
}.

Record ErrorFeatures : Type := mkFeatures {
  errorType : text;
  keywords : list text;
  filePath : option text
}.

(** Sequencing of the parts of a pattern. *)
Fixpoint RCat (parts : list Regex) : Regex :=
  match parts with
  | [] => REmpty
  | [r] => r
  | r :: parts' => RSeq r (RCat parts')
  end.

(** An alternation of literals, [(?:a|b|c)]. *)
Fixpoint RAny (alts : list Regex) : Regex :=
  match alts with
  | [] => REmpty
  | [r] => r
  | r :: alts' => RAlt r (RAny alts')
  end.

Definition RLit (s : string) : Regex := RStr (lit s).
Definition ch (s : string) : char16 := hd 0 (lit s).

Definition digits1 : Regex := RGroup 1 (RPlus (RClass [CDigit])).

Definition insensitive (r : Regex) : RegExp := mkRegExp r true false.

(** [/exit code[:\s]+(\d+)/i], [/exited with code (\d+)/i],
    [/returned (\d+)/i] *)
Definition EXIT_CODE_PATTERNS : list RegExp :=
  [ insensitive (RCat [RLit "exit code"; RPlus (RClass [CChar (ch ":"); CSpace]); digits1]);
    insensitive (RCat [RLit "exited with code "; digits1]);
    insensitive (RCat [RLit "returned "; digits1]) ].

(** [/error:/i], [/ERR!/i],
    [/(?:build|test|command|process|task|job|compilation)\s+failed/i],
    [/exception/i] *)
Definition ERROR_KEYWORD_PATTERNS : list RegExp :=
  [ insensitive (RLit "error:");
    insensitive (RLit "ERR!");
    insensitive (RCat [RAny [RLit "build"; RLit "test"; RLit "command"; RLit "process";
                             RLit "task"; RLit "job"; RLit "compilation"];
                       RPlus (RClass [CSpace]); RLit "failed"]);
    insensitive (RLit "exception") ].

Definition ERROR_TYPE_PATTERNS : list (RegExp * text) :=
  [ (insensitive (RLit "TypeError"), lit "TypeError");
    (insensitive (RLit "SyntaxError"), lit "SyntaxError");
    (insensitive (RLit "ReferenceError"), lit "ReferenceError");
    (insensitive (RLit "ModuleNotFoundError"), lit "ModuleNotFoundError");
    (insensitive (RLit "npm ERR!"), lit "npm");
    (insensitive (RCat [RLit "pip"; RStar RDot; RLit "error"]), lit "pip");
    (insensitive (RCat [RLit "cargo"; RStar RDot; RLit "error"]), lit "cargo");
    (insensitive (RCat [RLit "tsc"; RStar RDot; RLit "error"]), lit "typescript") ].

(** [/\b([A-Z][A-Z0-9_]+)\b/g] *)
Definition CODE_PATTERN : RegExp :=
  mkRegExp
    (RCat [RWordBoundary;
           RGroup 1 (RCat [RClass [CRange (ch "A") (ch "Z")];
                           RPlus (RClass [CRange (ch "A") (ch "Z");
                                          CRange (ch "0") (ch "9");
                                          CChar (ch "_")])]);
           RWordBoundary])
    false true.

(** [/(?:\/[\w.-]+)+(?:\.\w+)?/] *)
Definition PATH_PATTERN : RegExp :=
  mkRegExp
    (RCat [RPlus (RCat [RChar (ch "/");
                        RPlus (RClass [CWord; CChar (ch "."); CChar (ch "-")])]);
           ROpt (RCat [RChar (ch "."); RPlus (RClass [CWord])])])
    false false.

(** [match[1]] handed to [parseInt]: a group that took no part in the match
    is [undefined], which [parseInt] reads as the text "undefined". *)
Definition group1 (mt : Match) : text :=
  match capture 1 mt with
  | Some t => t
  | None => lit "undefined"
  end.

(** The first loop of [detectBashError]: the patterns in order, returning at
    the first one whose match has a captured number other than zero. *)
Fixpoint exit_code_scan (patterns : list RegExp) (response : text)
  : option ErrorDetectionResult :=
  match patterns with
  | [] => None
  | pattern :: patterns' =>
      match exec pattern response with
      | Some mt =>
          if strict_ne_zero (parseInt (group1 mt))
          then Some (mkResult true (Some response) (Some (parseInt (group1 mt))))
          else exit_code_scan patterns' response
      | None => exit_code_scan patterns' response
      end
  end.

(** The second loop: the first keyword pattern found in the text.  The
    pattern that fired is what the debug log line names. *)
Fixpoint keyword_scan (patterns : list RegExp) (response : text) : option RegExp :=
  match patterns with
  | [] => None
  | pattern :: patterns' =>
      if test pattern response then Some pattern
      else keyword_scan patterns' response
  end.

(** The two loops and the final return, on the response text. *)
Definition classify_text (response : text) : ErrorDetectionResult :=
  match exit_code_scan EXIT_CODE_PATTERNS response with
  | Some r => r
  | None =>
      match keyword_scan ERROR_KEYWORD_PATTERNS response with
      | Some _ => mkResult true (Some response) None
      | None => mkResult false None None
      end
  end.

Section Detect.

Context {num : Type} `{NumberOps num}.

(** [typeof r === 'string' ? r : JSON.stringify(r ?? '')].  When
    [JSON.stringify] returns [undefined] the first [response.match] throws a
    TypeError. *)
Definition response_text (tool_response : JSValue num) : outcome text :=
  match tool_response with
  | JString s => Ok s
  | _ =>
      o <- stringify (nullish_default tool_response) ;;
      match o with
      | Some t => Ok t
      | None => Throw TypeError
      end
  end.

Definition detectBashError (tool_name : text) (tool_response : JSValue num)
  : outcome ErrorDetectionResult :=
  if negb (Text.eqb tool_name (lit "Bash")) then Ok (mkResult false None None)
  else
    response <- response_text tool_response ;;
    Ok (classify_text response).

End Detect.

(** The loop over [ERROR_TYPE_PATTERNS]: it breaks at the first pattern
    found in the message. *)
Fixpoint error_type_scan (patterns : list (RegExp * text)) (errorType : text)
  (message : text) : text :=
  match patterns with
  | [] => errorType
  | (pattern, type) :: patterns' =>
      if test pattern message then type
      else error_type_scan patterns' errorType message
  end.

Definition extractErrorFeatures (message : text) : ErrorFeatures :=
  let errorType := error_type_scan ERROR_TYPE_PATTERNS (lit "unknown") message in
  let keywords :=
    match match_global CODE_PATTERN message with
    | Some codeMatch =>
        filter (fun k => (3 <? length k)%nat) codeMatch
    | None => []
    end in
  let filePath :=
    match exec PATH_PATTERN message with
    | Some pathMatch => Some (matched pathMatch)
    | None => None
    end in
  mkFeatures errorType keywords filePath.

End ErrorDetection.
Import ErrorDetection.

(** ** The PostToolUse observation handler, [observation.ts] *)

Module Observation.

(** What the handler does to the outside world, in order. *)
Inductive Event : Type :=
| EnsureWorker                                   (* ensureWorkerRunning() *)
| LogDataIn (message : text)                     (* logger.dataIn *)
| LogDebug (message : text)                      (* logger.debug *)
| PostObservation (port : N) (body : text)       (* POST /api/sessions/observations *)
| PostError (port : N) (body : text)             (* POST /api/sessions/errors *)
| GetSimilar (port : N) (error_message : text)   (* GET /api/errors/similar *)
| ConsoleLog (line : text).

(** A computation of the handler: the events so far and how it ended. *)
Definition Run (A : Type) : Type := (list Event * outcome A)%type.

Definition ret {A : Type} (a : A) : Run A := ([], Ok a).
Definition throw {A : Type} (e : exn) : Run A := ([], Throw e).
Definition emit (ev : Event) : Run unit := ([ev], Ok tt).
Definition lift {A : Type} (o : outcome A) : Run A := ([], o).

Definition seq {A B : Type} (x : Run A) (f : A -> Run B) : Run B :=
  match x with
  | (tr, Ok a) => let '(tr', r) := f a in (tr ++ tr', r)
  | (tr, Throw e) => (tr, Throw e)
  end.

(** [try { body } catch (err) { handler }] *)
Definition try_catch {A : Type} (body : Run A) (handler : exn -> Run A) : Run A :=
  match body with
  | (tr, Ok a) => (tr, Ok a)
  | (tr, Throw e) => let '(tr', r) := handler e in (tr ++ tr', r)
  end.

Declare Scope run_scope.
Delimit Scope run_scope with run.
Notation "x <~ c1 ;; c2" := (seq c1 (fun x => c2))
  (at level 61, c1 at next level, right associativity) : run_scope.
Notation "c1 ;;; c2" := (seq c1 (fun _ => c2))
  (at level 61, right associativity) : run_scope.

Record HookResult : Type := mkHookResult {
  continue : bool;
  suppressOutput : bool
}.

(** The answer of a [fetch]: [response.ok] and [response.status]. *)
Record Response : Type := mkResponse {
  ok : bool;
  status : text
}.

Section Handler.

Context {num : Type} `{NumberOps num}.

Record NormalizedHookInput : Type := mkInput {
  sessionId : option text;
  cwd : option text;
  toolName : option text;
  toolInput : JSValue num;
  toolResponse : JSValue num
}.

(** The collaborators of the handler that live outside these files: the
    worker supervisor and port ([shared/worker-utils]), the logger's
    [formatTool], and the worker's answers over HTTP.  Each of them returns
    or throws.  For the similar-error query, the answer holds the result of
    [json()]: the [errors] field when there is one, each entry with its
    [metadata?.title]. *)
Record World : Type := mkWorld {
  ensureWorkerRunning : outcome unit;
  getWorkerPort : N;
  formatTool : text -> JSValue num -> text;
  fetch_observation : text -> outcome Response;
  fetch_error : text -> outcome Response;
  fetch_similar : text -> outcome (Response * outcome (option (list (option text))))
}.

(** [!s] on an optional string *)
Definition missing (s : option text) : bool :=
  match s with
  | Some (_ :: _) => false
  | _ => true
  end.

(** An optional string inside a template literal or an object literal. *)
Definition show (s : option text) : text :=
  match s with Some t => t | None => lit "undefined" end.

Definition js_string (s : option text) : JSValue num :=
  match s with Some t => JString t | None => JUndefined end.

Definition stringify_body (v : JSValue num) : outcome text :=
  o <- stringify v ;;
  match o with Some t => Ok t | None => Throw TypeError end.

(** [encodeURIComponent] throws a URIError on a lone surrogate. *)
Fixpoint well_formed (t : text) : bool :=
  match t with
  | [] => true
  | c :: t' =>
      if is_high_surrogate c then
        match t' with
        | d :: t'' => is_low_surrogate d && well_formed t''
        | [] => false
        end
      else negb (is_low_surrogate c) && well_formed t'
  end.

Definition similar_context (errors : list (option text)) : text :=
  join [10] (map (fun title =>
                    lit "- **"
                    ++ match title with
                       | Some (c :: t) => c :: t
                       | _ => lit "Error"
                       end
                    ++ lit "**") errors).

Definition similar_header : text :=
  [10; 35; 35; 32; 30456; 20851; 21382; 21490; 38169; 35823; 10].

Local Open Scope run_scope.

(** The block run when the response was classified as an error.  The
    source does not await the error post: its rejection handler runs at
    some later time.  Here it runs where the request is made, so the place
    of its log line among the later events is the model's choice. *)
Definition learn_from_error (w : World) (input : NormalizedHookInput)
  (port : N) (errorResult : ErrorDetectionResult) : Run unit :=
  let message := match errorMessage errorResult with
                 | Some (c :: t) => c :: t
                 | _ => []
                 end in
  let features := extractErrorFeatures message in
  body <~ lift (stringify_body (JObject
            [ (lit "contentSessionId", js_string (sessionId input));
              (lit "error_message", js_string (errorMessage errorResult));
              (lit "error_type", JString (errorType features));
              (lit "keywords", JArray (map (fun k => JString k) (keywords features)));
              (lit "file_path", js_string (filePath features));
              (lit "command", toolInput input);
              (lit "cwd", js_string (cwd input)) ])) ;;
  emit (PostError port body) ;;;
  match fetch_error w body with
  | Ok _ => ret tt
  | Throw _ => emit (LogDebug (lit "Error storage failed"))
  end ;;;
  try_catch
    (if well_formed message then
       emit (GetSimilar port message) ;;;
       answer <~ lift (fetch_similar w message) ;;
       let '(similarResponse, json) := answer in
       if ok similarResponse then
         parsed <~ lift json ;;
         match parsed with
         | Some (e :: errors) =>
             emit (ConsoleLog (similar_header ++ similar_context (e :: errors) ++ [10]))
         | _ => ret tt
         end
       else ret tt
     else throw (Error (lit "URI malformed")))
    (fun _ => emit (LogDebug (lit "Similar error query failed"))).

(** The debug line [detectBashError] writes when a keyword pattern decides. *)
Definition keyword_log (name : text) (response : JSValue num) : Run unit :=
  if Text.eqb name (lit "Bash") then
    match response_text response with
    | Ok t =>
        match exit_code_scan EXIT_CODE_PATTERNS t, keyword_scan ERROR_KEYWORD_PATTERNS t with
        | None, Some _ => emit (LogDebug (lit "error keyword detected"))
        | _, _ => ret tt
        end
    | Throw _ => ret tt
    end
  else ret tt.

Definition execute (w : World) (input : NormalizedHookInput) : Run HookResult :=
  emit EnsureWorker ;;;
  lift (ensureWorkerRunning w) ;;;
  if missing (toolName input)
  then throw (Error (lit "observationHandler requires toolName"))
  else
    let name := show (toolName input) in
    let port := getWorkerPort w in
    let toolStr := formatTool w name (toolInput input) in
    emit (LogDataIn (lit "PostToolUse: " ++ toolStr)) ;;;
    if missing (cwd input)
    then throw (Error (lit "Missing cwd in PostToolUse hook input for session "
                       ++ show (sessionId input) ++ lit ", tool " ++ name))
    else
      body <~ lift (stringify_body (JObject
                [ (lit "contentSessionId", js_string (sessionId input));
                  (lit "tool_name", JString name);
                  (lit "tool_input", toolInput input);
                  (lit "tool_response", toolResponse input);
                  (lit "cwd", js_string (cwd input)) ])) ;;
      emit (PostObservation port body) ;;;
      response <~ lift (fetch_observation w body) ;;
      if negb (ok response)
      then throw (Error (lit "Observation storage failed: " ++ status response))
      else
        emit (LogDebug (lit "Observation sent successfully")) ;;;
        keyword_log name (or_empty (toolResponse input)) ;;;
        errorResult <~ lift (detectBashError name (or_empty (toolResponse input))) ;;
        (if isError errorResult
         then learn_from_error w input port errorResult
         else ret tt) ;;;
        ret (mkHookResult true true).

End Handler.

End Observation.
Import Observation.

(** ** Notions the statements are written with *)

Module Spec.

(** The words of a text: its maximal runs of word characters, in order.
    [cur] is the word being read, last character first. *)
Definition flush (cur : text) : list text :=
  match cur with
  | [] => []
  | _ => [rev cur]
  end.

Fixpoint words_from (cur : text) (t : text) : list text :=
  match t with
  | [] => flush cur
  | c :: t' =>
      if is_word c then words_from (c :: cur) t'
      else flush cur ++ words_from [] t'
  end.

Definition words (t : text) : list text := words_from [] t.

Definition is_code_char (c : char16) : bool :=
  is_upper c || is_digit c || (c =? 95).

(** One upper-case letter followed by one or more upper-case letters,
    digits or underscores. *)
Definition is_code (w : text) : bool :=
  match w with
  | c :: ((_ :: _) as w') => is_upper c && forallb is_code_char w'
  | _ => false
  end.

(** Where a word stops: at the end of the text or before a character that
    is not a word character. *)
Definition word_end (z : text) : Prop :=
  match z with
  | [] => True
  | c :: _ => is_word c = false
  end.

(** The last character of [w], or [a] when [w] is empty. *)
Definition last_of (w : text) (a : char16) : char16 := fold_left (fun _ c => c) w a.

(** What remains of the code pattern after the characters of its group:
    the capture is recorded and the closing [\b] is checked. *)
Definition code_cont (p : option char16) (t : text) : Cont :=
  fun s' =>
    if xorb (is_word_at (prev s')) (is_word_at (hd_error (rest s')))
    then Some (mkState (prev s') (rest s')
                 ((1%nat, consumed (mkState p t []) s') :: caps s'))
    else None.

(** [t] holds [p] somewhere, letter case aside. *)
Definition contains_ci (p t : text) : Prop :=
  exists a x b, t = a ++ x ++ b
                /\ map (canonicalize true) x = map (canonicalize true) p.

(** Some of the characters [JSON.stringify] copies as they are: the code
    units 35 to 91 and the lower-case letters. *)
Definition is_plain (c : char16) : bool := (35 <=? c) && (c <=? 91) || is_lower c.

(** The Exit-Signal Scanner as section 4.1 words it: the capture of the
    first pattern that matches. *)
Fixpoint exit_signal_scanner (patterns : list RegExp) (response : text) : option Number :=
  match patterns with
  | [] => None
  | pattern :: patterns' =>
      match exec pattern response with
      | Some mt => Some (parseInt (group1 mt))
      | None => exit_signal_scanner patterns' response
      end
  end.

(** Patterns whose last part is the group [(\d+)]. *)
Inductive ends_with_digits : Regex -> Prop :=
| ends_here : ends_with_digits digits1
| ends_later (a b : Regex) : ends_with_digits b -> ends_with_digits (RSeq a b).

(** A pattern of the exit-code table that yields no non-zero number. *)
Definition silent (pattern : RegExp) (response : text) : Prop :=
  forall mt, exec pattern response = Some mt ->
             strict_ne_zero (parseInt (group1 mt)) = false.

(** No BigInt anywhere in a value. *)
Fixpoint no_bigint {num : Type} (v : JSValue num) : bool :=
  match v with
  | JBigInt _ => false
  | JArray items => forallb no_bigint items
  | JObject fields =>
      (fix all (l : list (text * JSValue num)) : bool :=
         match l with
         | [] => true
         | (_, x) :: l' => no_bigint x && all l'
         end) fields
  | _ => true
  end.

(** Values for which [detectBashError] obtains a response text: no BigInt
    inside, and not a symbol or a function themselves ([undefined] and
    [null] are replaced by the empty string before serialization). *)
Definition json_data {num : Type} (v : JSValue num) : bool :=
  match v with
  | JSymbol | JFunction => false
  | _ => no_bigint v
  end.

(** Whether a value has a JSON form of its own: [undefined], a symbol and a
    function have none. *)
Definition has_json_form {num : Type} (v : JSValue num) : bool :=
  match v with
  | JUndefined | JSymbol | JFunction => false
  | _ => true
  end.

(** The JSON text of a value, read off the JSON grammar and not off the
    serialization algorithm: a literal, a number, a quoted string, the
    elements of an array between brackets, the properties of an object
    between braces, separated by commas.  An array element without a JSON
    form is written [null], such a property of an object is left out.  The
    text is meant for values without a BigInt; the empty text stands where
    there is none. *)
Fixpoint json_text {num : Type} `{NumberOps num} (v : JSValue num) : text :=
  match v with
  | JNull => lit "null"
  | JBool b => if b then lit "true" else lit "false"
  | JNumber x => if num_is_finite x then num_to_text x else lit "null"
  | JString s => QuoteJSONString s
  | JArray items =>
      [91] ++ join [44] (map (fun x => if has_json_form x then json_text x
                                       else lit "null") items) ++ [93]
  | JObject fields =>
      [123] ++ join [44]
                 (flat_map (fun kx : text * JSValue num =>
                              let (key, x) := kx in
                              if has_json_form x
                              then [QuoteJSONString key ++ [58] ++ json_text x]
                              else []) fields) ++ [125]
  | _ => []
  end.

(** The invariant of a classification result. *)
Definition well_formed_result (r : ErrorDetectionResult) : Prop :=
  (isError r = false -> errorMessage r = None /\ exitCode r = None)
  /\ (errorMessage r <> None <-> isError r = true)
  /\ (forall n, exitCode r = Some n -> n <> Fin 0 /\ isError r = true).

End Spec.
Import Spec.

(** ** What a pattern matches, said without the matcher *)

Module Semantics.

(** [matches ic r s s']: the pattern [r] can take the matcher from state
    [s] to state [s'].  The relation has every way to match, not only the
    one the backtracking order prefers; an iteration of a repetition, and
    the body of an option, must consume something, as in RepeatMatcher. *)
Inductive matches (ic : bool) : Regex -> State -> State -> Prop :=
| M_empty s :
    matches ic REmpty s s
| M_char p s c t :
    rest s = c :: t -> char_match ic p c = true ->
    matches ic (RChar p) s (mkState (Some c) t (caps s))
| M_dot s c t :
    rest s = c :: t -> is_line_terminator c = false ->
    matches ic RDot s (mkState (Some c) t (caps s))
| M_class atoms s c t :
    rest s = c :: t -> class_member ic atoms c = true ->
    matches ic (RClass atoms) s (mkState (Some c) t (caps s))
| M_seq a b s s1 s2 :
    matches ic a s s1 -> matches ic b s1 s2 -> matches ic (RSeq a b) s s2
| M_alt_left a b s s' :
    matches ic a s s' -> matches ic (RAlt a b) s s'
| M_alt_right a b s s' :
    matches ic b s s' -> matches ic (RAlt a b) s s'
| M_star_stop a s :
    matches ic (RStar a) s s
| M_star_more a s s1 s2 :
    matches ic a s s1 -> (length (rest s1) < length (rest s))%nat ->
    matches ic (RStar a) s1 s2 -> matches ic (RStar a) s s2
| M_plus a s s1 s2 :
    matches ic a s s1 -> matches ic (RStar a) s1 s2 -> matches ic (RPlus a) s s2
| M_opt_skip a s :
    matches ic (ROpt a) s s
| M_opt_take a s s' :
    matches ic a s s' -> (length (rest s') < length (rest s))%nat ->
    matches ic (ROpt a) s s'
| M_group n a s s' :
    matches ic a s s' ->
    matches ic (RGroup n a) s
      (mkState (prev s') (rest s') ((n, consumed s s') :: caps s'))
| M_boundary s :
    xorb (is_word_at (prev s)) (is_word_at (hd_error (rest s))) = true ->
    matches ic RWordBoundary s s.

(** The code unit before the position reached after [a], starting after
    [p]. *)
Definition before (p : option char16) (a : text) : option char16 :=
  fold_left (fun _ c => Some c) a p.

(** The pattern is found somewhere in the text. *)
Definition found (re : RegExp) (t : text) : Prop :=
  exists a b s', t = a ++ b
                 /\ matches (ignoreCase re) (source re) (mkState (before None a) b []) s'.

(** Two texts that are the same but for the case of ASCII letters. *)
Definition same_ci (x p : text) : Prop :=
  map (canonicalize true) x = map (canonicalize true) p.

(** The task nouns of the third keyword pattern. *)
Definition task_nouns : list text :=
  [lit "build"; lit "test"; lit "command"; lit "process"; lit "task"; lit "job";
   lit "compilation"].

(** A task noun, white space, then "failed", somewhere in the text. *)
Definition failed_phrase (t : text) : Prop :=
  exists a noun x ws y b,
    t = a ++ x ++ ws ++ y ++ b
    /\ In noun task_nouns /\ same_ci x noun
    /\ ws <> [] /\ forallb is_space ws = true
    /\ same_ci y (lit "failed").

(** The digits [d] stand in the text right after one of the three exit-code
    phrases: "exit code" and at least one colon or white space, "exited
    with code " or "returned ". *)
Definition exit_phrase (t d : text) : Prop :=
  exists a x sep b,
    t = a ++ x ++ sep ++ d ++ b
    /\ ((same_ci x (lit "exit code") /\ sep <> []
         /\ forallb (fun c => (c =? 58) || is_space c) sep = true)
        \/ (same_ci x (lit "exited with code ") /\ sep = [])
        \/ (same_ci x (lit "returned ") /\ sep = [])).

(** A tool name and, later on the same line, "error". *)
Definition tool_error (name t : text) : Prop :=
  exists a x mid y b,
    t = a ++ x ++ mid ++ y ++ b
    /\ same_ci x name
    /\ forallb (fun c => negb (is_line_terminator c)) mid = true
    /\ same_ci y (lit "error").

(** The catalog of error types, each tag with what its pattern looks for. *)
Definition type_catalog : list (text * (text -> Prop)) :=
  [ (lit "TypeError", contains_ci (lit "TypeError"));
    (lit "SyntaxError", contains_ci (lit "SyntaxError"));
    (lit "ReferenceError", contains_ci (lit "ReferenceError"));
    (lit "ModuleNotFoundError", contains_ci (lit "ModuleNotFoundError"));
    (lit "npm", contains_ci (lit "npm ERR!"));
    (lit "pip", tool_error (lit "pip"));
    (lit "cargo", tool_error (lit "cargo"));
    (lit "typescript", tool_error (lit "tsc")) ].

(** A pattern with its tag, and the entry of the catalog that says what the
    pattern looks for in the text [t]. *)
Inductive entry_for (t : text) : RegExp * text -> text * (text -> Prop) -> Prop :=
| entry_intro re tag (P : text -> Prop) :
    (test re t = true <-> P t) -> entry_for t (re, tag) (tag, P).

End Semantics.
Import Semantics.

(** ** The path a message holds, read from left to right *)

Module PathSpec.

(** The characters of a path segment, [[\w.-]]. *)
Definition is_path_char (c : char16) : bool := is_word c || (c =? 46) || (c =? 45).

(** The rest of a path from inside it: segment characters, and a slash as
    long as a segment character follows it. *)
Fixpoint path_tail (t : text) : text :=
  match t with
  | [] => []
  | c :: t' =>
      if is_path_char c then c :: path_tail t'
      else if c =? 47 then
        match t' with
        | d :: _ => if is_path_char d then c :: path_tail t' else []
        | [] => []
        end
      else []
  end.

(** The path that starts at the first slash followed by a segment
    character. *)
Fixpoint first_path (t : text) : option text :=
  match t with
  | [] => None
  | c :: t' =>
      if (c =? 47) && match t' with d :: _ => is_path_char d | [] => false end
      then Some (c :: path_tail t')
      else first_path t'
  end.

(** The parts of the path pattern: a segment character, the group
    [(?:\/[\w.-]+)] and the option [(?:\.\w+)?]. *)
Definition path_class : Regex := RClass [CWord; CChar (ch "."); CChar (ch "-")].
Definition path_group : Regex := RSeq (RChar (ch "/")) (RPlus path_class).
Definition path_ext : Regex := ROpt (RSeq (RChar (ch ".")) (RPlus (RClass [CWord]))).

(** The path pattern without its last part, [/(?:\/[\w.-]+)+/]. *)
Definition PATH_PATTERN_BARE : RegExp := mkRegExp (RPlus path_group) false false.

End PathSpec.
Import PathSpec.

(** ** Folding the letter case of what the matcher works on *)

Module CaseFold.

Definition upper (c : char16) : char16 := canonicalize true c.

Definition upper_text (t : text) : text := map upper t.

Definition upper_caps (cs : list (nat * text)) : list (nat * text) :=
  map (fun nx => (fst nx, upper_text (snd nx))) cs.

Definition upper_state (s : State) : State :=
  mkState (option_map upper (prev s)) (upper_text (rest s)) (upper_caps (caps s)).

Definition upper_match (mt : Match) : Match :=
  mkMatch (index mt) (upper_text (matched mt)) (upper_caps (groups mt)).

(** The continuation [k'] of a run on folded text does to a folded state
    what the continuation [k] of the run on the text does to the state. *)
Definition follows (k k' : Cont) : Prop :=
  forall s, k' (upper_state s) = option_map upper_state (k s).

End CaseFold.
Import CaseFold.

(** * Properties *)

Unset Implicit Arguments.

(** Comparisons of code units decided by linear arithmetic. *)
Ltac cmp_N :=
  repeat first
    [ rewrite (proj2 (N.leb_le _ _)) by lia
    | rewrite (proj2 (N.leb_gt _ _)) by lia
    | rewrite (proj2 (N.ltb_lt _ _)) by lia
    | rewrite (proj2 (N.ltb_ge _ _)) by lia
    | rewrite (proj2 (N.eqb_eq _ _)) by lia
    | rewrite (proj2 (N.eqb_neq _ _)) by lia ];
  simpl; try reflexivity; try lia.

Lemma text_eqb_eq (a b : text) : Text.eqb a b = true <-> a = b.
Proof.
  unfold Text.eqb. destruct (list_eq_dec N.eq_dec a b); split; congruence.
Qed.

Lemma strict_ne_zero_spec (n : Number) : strict_ne_zero n = true <-> n <> Fin 0.
Proof.
  destruct n as [ | | | z]; simpl; try (split; [discriminate | reflexivity]).
  rewrite negb_true_iff, Z.eqb_neq. split; congruence.
Qed.

(** ** The two loops of [detectBashError] *)

Section Scans.

Variable response : text.

Lemma exit_code_scan_sound (patterns : list RegExp) (r : ErrorDetectionResult) :
  exit_code_scan patterns response = Some r ->
  exists p mt, In p patterns /\ exec p response = Some mt
               /\ strict_ne_zero (parseInt (group1 mt)) = true
               /\ r = mkResult true (Some response) (Some (parseInt (group1 mt))).
Proof.
  induction patterns as [ | p ps IH]; simpl; [discriminate | ].
  destruct (exec p response) as [mt | ] eqn:E.
  - destruct (strict_ne_zero (parseInt (group1 mt))) eqn:Z.
    + intros [= <-]. exists p, mt. auto.
    + intros Hs. destruct (IH Hs) as (q & mq & ? & ?). exists q, mq. auto.
  - intros Hs. destruct (IH Hs) as (q & mq & ? & ?). exists q, mq. auto.
Qed.

Lemma exit_code_scan_split (patterns : list RegExp) (r : ErrorDetectionResult) :
  exit_code_scan patterns response = Some r ->
  exists pre p post mt,
    patterns = pre ++ p :: post
    /\ (forall q, In q pre -> silent q response)
    /\ exec p response = Some mt
    /\ strict_ne_zero (parseInt (group1 mt)) = true
    /\ r = mkResult true (Some response) (Some (parseInt (group1 mt))).
Proof.
  induction patterns as [ | p ps IH]; simpl; [discriminate | ].
  destruct (exec p response) as [mt | ] eqn:E.
  - destruct (strict_ne_zero (parseInt (group1 mt))) eqn:Z.
    + intros [= <-]. exists [], p, ps, mt. repeat split; auto. intros q [].
    + intros Hs. destruct (IH Hs) as (pre & q & post & mq & -> & Hpre & Hrest).
      exists (p :: pre), q, post, mq. split; [reflexivity | ]. split; [ | exact Hrest].
      intros q' [<- | Hin]; [ | auto].
      intros mt' E'. rewrite E in E'. injection E' as <-. exact Z.
  - intros Hs. destruct (IH Hs) as (pre & q & post & mq & -> & Hpre & Hrest).
    exists (p :: pre), q, post, mq. split; [reflexivity | ]. split; [ | exact Hrest].
    intros q' [<- | Hin]; [ | auto].
    intros mt' E'. rewrite E in E'. discriminate.
Qed.

Lemma exit_code_scan_silent (patterns : list RegExp) :
  (forall q, In q patterns -> silent q response) ->
  exit_code_scan patterns response = None.
Proof.
  induction patterns as [ | p ps IH]; simpl; intros Hq; [reflexivity | ].
  destruct (exec p response) as [mt | ] eqn:E.
  - rewrite (Hq p (or_introl eq_refl) mt E). apply IH. intros; apply Hq; auto.
  - apply IH. intros; apply Hq; auto.
Qed.

Lemma exit_code_scan_first (pre post : list RegExp) (p : RegExp) (mt : Match) :
  (forall q, In q pre -> silent q response) ->
  exec p response = Some mt ->
  strict_ne_zero (parseInt (group1 mt)) = true ->
  exit_code_scan (pre ++ p :: post) response
  = Some (mkResult true (Some response) (Some (parseInt (group1 mt)))).
Proof.
  intros Hpre He Hz.
  induction pre as [ | q pre IH]; simpl.
  - rewrite He, Hz. reflexivity.
  - destruct (exec q response) as [mq | ] eqn:E.
    + rewrite (Hpre q (or_introl eq_refl) mq E). apply IH. intros; apply Hpre; simpl; auto.
    + apply IH. intros; apply Hpre; simpl; auto.
Qed.

Lemma exit_code_scan_some (patterns : list RegExp) (p : RegExp) (mt : Match) :
  In p patterns -> exec p response = Some mt ->
  strict_ne_zero (parseInt (group1 mt)) = true ->
  exists r, exit_code_scan patterns response = Some r.
Proof.
  induction patterns as [ | q ps IH]; simpl; [tauto | ].
  intros [-> | Hin] He Hz.
  - rewrite He, Hz. eauto.
  - destruct (exec q response) as [mq | ]; [ | auto].
    destruct (strict_ne_zero (parseInt (group1 mq))); eauto.
Qed.

Lemma keyword_scan_some (patterns : list RegExp) (k : RegExp) :
  In k patterns -> test k response = true ->
  exists k', keyword_scan patterns response = Some k'.
Proof.
  induction patterns as [ | q ps IH]; simpl; [tauto | ].
  intros [-> | Hin] Ht.
  - rewrite Ht. eauto.
  - destruct (test q response); eauto.
Qed.

Lemma keyword_scan_sound (patterns : list RegExp) (k : RegExp) :
  keyword_scan patterns response = Some k ->
  In k patterns /\ test k response = true.
Proof.
  induction patterns as [ | q ps IH]; simpl; [discriminate | ].
  destruct (test q response) eqn:T.
  - intros [= <-]. auto.
  - intros E. destruct (IH E). auto.
Qed.

Lemma keyword_scan_none (patterns : list RegExp) :
  (forall k, In k patterns -> test k response = false) ->
  keyword_scan patterns response = None.
Proof.
  induction patterns as [ | q ps IH]; simpl; intros Hk; [reflexivity | ].
  rewrite (Hk q (or_introl eq_refl)). apply IH. intros; apply Hk; auto.
Qed.

(** The three shapes a classification can take. *)
Lemma classify_text_cases :
  (exists n, n <> Fin 0
             /\ classify_text response = mkResult true (Some response) (Some n))
  \/ classify_text response = mkResult true (Some response) None
  \/ classify_text response = mkResult false None None.
Proof.
  unfold classify_text.
  destruct (exit_code_scan EXIT_CODE_PATTERNS response) as [r | ] eqn:E.
  - left. destruct (exit_code_scan_sound _ _ E) as (p & mt & _ & _ & Hz & ->).
    exists (parseInt (group1 mt)). split; [ | reflexivity].
    now apply strict_ne_zero_spec.
  - right. destruct (keyword_scan ERROR_KEYWORD_PATTERNS response); auto.
Qed.

End Scans.

Lemma detect_bash_string {num : Type} `{NumberOps num} (s : text) :
  detectBashError (lit "Bash") (JString s) = Ok (classify_text s).
Proof. reflexivity. Qed.

Lemma well_formed_classify (t : text) : well_formed_result (classify_text t).
Proof.
  unfold well_formed_result.
  destruct (classify_text_cases t) as [(n & Hn & ->) | [-> | ->]]; simpl.
  - repeat split; try discriminate; intros; congruence.
  - repeat split; try discriminate; intros; congruence.
  - repeat split; try discriminate; intros; congruence.
Qed.

(** ** Character classes *)

Lemma is_digit_spec (c : char16) : is_digit c = true <-> 48 <= c <= 57.
Proof.
  unfold is_digit. rewrite andb_true_iff, !N.leb_le. tauto.
Qed.

Lemma is_upper_spec (c : char16) : is_upper c = true <-> 65 <= c <= 90.
Proof.
  unfold is_upper. rewrite andb_true_iff, !N.leb_le. tauto.
Qed.

Lemma is_lower_spec (c : char16) : is_lower c = true <-> 97 <= c <= 122.
Proof.
  unfold is_lower. rewrite andb_true_iff, !N.leb_le. tauto.
Qed.

Lemma is_word_spec (c : char16) :
  is_word c = true <-> 65 <= c <= 90 \/ 97 <= c <= 122 \/ 48 <= c <= 57 \/ c = 95.
Proof.
  unfold is_word.
  rewrite !orb_true_iff, is_upper_spec, is_lower_spec, is_digit_spec, N.eqb_eq.
  tauto.
Qed.

Lemma digit_not_space (c : char16) : is_digit c = true -> is_space c = false.
Proof.
  rewrite is_digit_spec. intros Hc. unfold is_space. cmp_N.
Qed.

Lemma class_digit (ic : bool) (c : char16) :
  class_member ic [CDigit] c = is_digit c.
Proof.
  unfold class_member, existsb, atom_member. rewrite orb_false_r.
  destruct (is_digit c) eqn:D; [reflexivity | ].
  destruct ic; [ | reflexivity]. simpl.
  unfold canonicalize, to_lower. simpl.
  destruct (is_lower c) eqn:L; destruct (is_upper c) eqn:U; rewrite ?D; try reflexivity.
  - apply is_lower_spec in L. apply is_upper_spec in U. lia.
  - apply is_lower_spec in L. unfold is_digit. cmp_N.
  - apply is_upper_spec in U. unfold is_digit. cmp_N.
Qed.

(** ** [parseInt] on a run of decimal digits *)

Lemma digit_value_decimal (c : char16) :
  is_digit c = true -> digit_value 10 c = Some (c - 48).
Proof.
  intros D. unfold digit_value. rewrite D.
  apply is_digit_spec in D. cmp_N.
Qed.

Lemma digits_value_decimal (d : text) (a : N) :
  forallb is_digit d = true ->
  digits_value 10 (Some a) d = Some (fold_left (fun a c => a * 10 + (c - 48)) d a).
Proof.
  revert a. induction d as [ | c d IH]; intros a; simpl; [reflexivity | ].
  rewrite andb_true_iff. intros [Hc Hd].
  rewrite (digit_value_decimal _ Hc). apply IH, Hd.
Qed.

Lemma parseInt_digits (d : text) :
  d <> [] -> forallb is_digit d = true ->
  parseInt d = of_N false (decimal d).
Proof.
  destruct d as [ | c d]; [congruence | intros _].
  simpl. rewrite andb_true_iff. intros [Hc Hd].
  unfold parseInt. simpl. rewrite (digit_not_space _ Hc).
  pose proof (proj1 (is_digit_spec c) Hc) as Rc.
  rewrite (proj2 (N.eqb_neq c 45)) by lia.
  rewrite (proj2 (N.eqb_neq c 43)) by lia.
  assert (Hv : digits_value 10 None (c :: d) = Some (decimal (c :: d))).
  { simpl. rewrite (digit_value_decimal _ Hc).
    rewrite digits_value_decimal by exact Hd. reflexivity. }
  destruct d as [ | e d]; [rewrite Hv; reflexivity | ].
  simpl in Hd. apply andb_true_iff in Hd. destruct Hd as [He Hd].
  pose proof (proj1 (is_digit_spec e) He) as Re.
  rewrite (proj2 (N.eqb_neq e 120)) by lia.
  rewrite (proj2 (N.eqb_neq e 88)) by lia.
  rewrite andb_false_r. rewrite Hv. reflexivity.
Qed.

Lemma round_to_double_exact (n : N) :
  n <= 2 ^ 53 -> round_to_double n = Some n.
Proof.
  intros Hn. destruct (N.eq_dec n (2 ^ 53)) as [-> | Hne]; [reflexivity | ].
  unfold round_to_double.
  assert (Hs : N.size n <= 53).
  { destruct (N.eq_dec n 0) as [-> | Hz]; [simpl; lia | ].
    destruct (N.le_gt_cases (N.size n) 53) as [ | Hgt]; [assumption | exfalso].
    assert (N.log2 n < 53).
    { apply N.log2_lt_pow2; lia. }
    rewrite N.size_log2 in Hgt by assumption. lia. }
  rewrite (proj2 (N.leb_le _ _) Hs). reflexivity.
Qed.

Lemma of_N_exact (n : N) : n <= 2 ^ 53 -> of_N false n = Fin (Z.of_N n).
Proof.
  intros Hn. unfold of_N. rewrite (round_to_double_exact _ Hn). reflexivity.
Qed.

(** ** The matcher *)

(** Whatever the matcher returns, its continuation returned. *)
Lemma repeat_from_cont (ma : State -> Cont -> option State) :
  (forall s k x, ma s k = Some x -> exists s', k s' = Some x) ->
  forall n s k x, repeat ma n s k = Some x -> exists s', k s' = Some x.
Proof.
  intros Hma. induction n as [ | n IH]; intros s k x; simpl.
  - eauto.
  - destruct (ma s _) as [r | ] eqn:E.
    + intros [= ->]. apply Hma in E. destruct E as (s' & E).
      destruct (length (rest s') <? length (rest s))%nat; [eauto | discriminate].
    + eauto.
Qed.

Lemma step_from_cont (ok : char16 -> bool) (s : State) (k : Cont) (x : State) :
  step ok s k = Some x -> exists s', k s' = Some x.
Proof.
  unfold step. destruct (rest s) as [ | c t]; [discriminate | ].
  destruct (ok c); [eauto | discriminate].
Qed.

Lemma m_from_cont (ic : bool) (r : Regex) :
  forall s k x, m ic r s k = Some x -> exists s', k s' = Some x.
Proof.
  induction r as [ | p | | atoms | a IHa b IHb | a IHa b IHb | a IHa | a IHa
                   | a IHa | n a IHa | ]; intros s k x; simpl.
  - eauto.
  - apply step_from_cont.
  - apply step_from_cont.
  - apply step_from_cont.
  - intros E. apply IHa in E. destruct E as (s1 & E). eauto.
  - destruct (m ic a s k) eqn:E; [intros [= ->]; eauto | eauto].
  - apply repeat_from_cont, IHa.
  - intros E. apply IHa in E. destruct E as (s1 & E).
    eapply repeat_from_cont; eauto.
  - destruct (m ic a s _) eqn:E.
    + intros [= ->]. apply IHa in E. destruct E as (s' & E).
      destruct (length (rest s') <? length (rest s))%nat; [eauto | discriminate].
    + eauto.
  - intros E. apply IHa in E. destruct E as (s' & E). eauto.
  - destruct (xorb _ _); [eauto | discriminate].
Qed.

(** A repeated character class hands its continuation a state reached by
    consuming characters of the class only. *)
Lemma repeat_step_sound (ok : char16 -> bool) :
  forall n s k x,
    repeat (step ok) n s k = Some x ->
    exists d s', forallb ok d = true /\ rest s = d ++ rest s'
                 /\ caps s' = caps s /\ k s' = Some x.
Proof.
  induction n as [ | n IH]; intros s k x; simpl.
  - intros E. exists [], s. auto.
  - unfold step at 1. destruct (rest s) as [ | c t] eqn:R.
    + intros E. exists [], s. rewrite R. auto.
    + destruct (ok c) eqn:C.
      * simpl. rewrite (proj2 (Nat.ltb_lt _ _)) by lia.
        destruct (repeat (step ok) n _ k) as [r | ] eqn:E.
        -- intros [= ->]. apply IH in E. destruct E as (d & s' & Hd & Hr & Hc & Hk).
           simpl in Hr, Hc. exists (c :: d), s'. simpl. rewrite C, Hd, Hr. auto.
        -- intros E'. exists [], s. rewrite R. auto.
      * intros E. exists [], s. rewrite R. auto.
Qed.

Lemma consumed_app (s s' : State) (d : text) :
  rest s = d ++ rest s' -> consumed s s' = d.
Proof.
  intros R. unfold consumed. rewrite R, length_app.
  replace (length d + length (rest s') - length (rest s'))%nat with (length d) by lia.
  rewrite firstn_app, firstn_all, Nat.sub_diag. simpl. apply app_nil_r.
Qed.

(** The group [(\d+)]: the state handed on has a non-empty run of digits as
    capture 1. *)
Lemma digits1_capture (ic : bool) (s : State) (k : Cont) (x : State) :
  m ic digits1 s k = Some x ->
  exists d s', k s' = Some x /\ lookup 1 (caps s') = Some d
               /\ d <> [] /\ forallb is_digit d = true.
Proof.
  unfold digits1. simpl. unfold step at 1.
  destruct (rest s) as [ | c t] eqn:R; [discriminate | ].
  rewrite class_digit. destruct (is_digit c) eqn:C; [ | discriminate].
  intros E.
  assert (E' : repeat (step (class_member ic [CDigit])) (length t)
                 (mkState (Some c) t (caps s))
                 (fun s' => k (mkState (prev s') (rest s')
                                       ((1%nat, consumed s s') :: caps s'))) = Some x)
    by exact E.
  apply repeat_step_sound in E'. destruct E' as (d & s' & Hd & Hr & Hc & Hk).
  simpl in Hr, Hc.
  exists (c :: d), (mkState (prev s') (rest s') ((1%nat, consumed s s') :: caps s')).
  split; [exact Hk | ]. simpl.
  rewrite (consumed_app s s' (c :: d)) by (rewrite R, Hr; reflexivity).
  repeat split; [discriminate | ].
  rewrite C. simpl. rewrite <- Hd. clear.
  induction d as [ | a d IH]; [reflexivity | ].
  cbn [forallb]. rewrite IH, class_digit. reflexivity.
Qed.

Lemma ends_with_digits_capture (ic : bool) (r : Regex) :
  ends_with_digits r ->
  forall s k x, m ic r s k = Some x ->
    exists d s', k s' = Some x /\ lookup 1 (caps s') = Some d
                 /\ d <> [] /\ forallb is_digit d = true.
Proof.
  induction 1 as [ | a b Hb IH]; intros s k x.
  - apply digits1_capture.
  - simpl. intros E. apply m_from_cont in E. destruct E as (s1 & E). eauto.
Qed.

Lemma search_sound (re : RegExp) :
  forall t p i mt, search re p t i = Some mt ->
    exists p' t' s', match_here re p' t' = Some s' /\ groups mt = caps s'
                     /\ matched mt = consumed (mkState p' t' []) s'.
Proof.
  induction t as [ | c t IH]; intros p i mt; simpl.
  - destruct (match_here re p []) as [s' | ] eqn:E; [ | discriminate].
    intros [= <-]. exists p, [], s'. auto.
  - destruct (match_here re p (c :: t)) as [s' | ] eqn:E.
    + intros [= <-]. exists p, (c :: t), s'. auto.
    + apply IH.
Qed.

Lemma exit_pattern_capture (p : RegExp) (t : text) (mt : Match) :
  In p EXIT_CODE_PATTERNS -> exec p t = Some mt ->
  exists d, capture 1 mt = Some d /\ d <> [] /\ forallb is_digit d = true.
Proof.
  intros Hin He. unfold exec in He. apply search_sound in He.
  destruct He as (p' & t' & s' & Hm & Hg & _).
  assert (Hend : ends_with_digits (source p)).
  { simpl in Hin. destruct Hin as [<- | [<- | [<- | []]]]; simpl;
      repeat constructor. }
  unfold match_here in Hm.
  apply (ends_with_digits_capture _ _ Hend) in Hm.
  destruct Hm as (d & s'' & [= ->] & Hl & Hd). exists d.
  unfold capture. rewrite Hg. auto.
Qed.

Lemma exit_pattern_group1 (p : RegExp) (t : text) (mt : Match) :
  In p EXIT_CODE_PATTERNS -> exec p t = Some mt ->
  exists d, capture 1 mt = Some d /\ group1 mt = d /\ d <> []
            /\ forallb is_digit d = true
            /\ parseInt (group1 mt) = of_N false (decimal d).
Proof.
  intros Hin He. destruct (exit_pattern_capture p t mt Hin He) as (d & Hc & Hn & Hd).
  exists d. unfold group1. rewrite Hc. repeat split; auto.
  apply parseInt_digits; assumption.
Qed.

(** ** [JSON.stringify] *)

Section StringifyFacts.

Context {num : Type} `{NumberOps num}.

(** Without a BigInt inside, serialization returns. *)
Lemma serialize_no_bigint (v : JSValue num) :
  no_bigint v = true -> exists o, serialize v = Ok o.
Proof.
  induction v as [ | | b | x | s | z | | | items IH | fields IH]
    using JSValue_nested_ind; simpl; intros Hb; eauto; try discriminate.
  - assert (Hparts : exists parts,
      (fix elements (l : list (JSValue num)) : outcome (list text) :=
         match l with
         | [] => Ok []
         | x :: l' =>
             o <- serialize x ;;
             ps <- elements l' ;;
             Ok (match o with Some t => t | None => lit "null" end :: ps)
         end) items = Ok parts).
    { induction IH as [ | x items Hx _ IHitems]; [eauto | ].
      simpl in Hb. apply andb_true_iff in Hb. destruct Hb as [Hbx Hbi].
      destruct (Hx Hbx) as (o & ->). destruct (IHitems Hbi) as (ps & ->).
      simpl. eauto. }
    destruct Hparts as (parts & ->). simpl. eauto.
  - match goal with
    | |- context [bind (?f fields) _] =>
        assert (Hparts : exists parts, f fields = Ok parts)
    end.
    { induction IH as [ | [key x] fields Hx _ IHfields]; [eauto | ].
      simpl in Hx. apply andb_true_iff in Hb. destruct Hb as [Hbx Hbf].
      destruct (Hx Hbx) as (o & ->). destruct (IHfields Hbf) as (ps & ->).
      simpl. eauto. }
    destruct Hparts as (parts & ->). simpl. eauto.
Qed.

(** Without a BigInt inside, serialization gives the JSON text of the
    value, and nothing for a value without a JSON form. *)
Lemma serialize_json_text (v : JSValue num) :
  no_bigint v = true ->
  serialize v = Ok (if has_json_form v then Some (json_text v) else None).
Proof.
  induction v as [ | | b | x | s | z | | | items IH | fields IH]
    using JSValue_nested_ind; intros Hb; try reflexivity; try discriminate Hb.
  - cbn [serialize has_json_form json_text].
    match goal with
    | |- context [bind (?f items) _] =>
        assert (Hparts : f items
                         = Ok (map (fun x => if has_json_form x then json_text x
                                             else lit "null") items))
    end.
    { cbn [no_bigint] in Hb.
      induction IH as [ | x items Hx _ IHitems]; [reflexivity | ].
      cbn [forallb] in Hb. apply andb_true_iff in Hb. destruct Hb as [Hbx Hbi].
      rewrite (Hx Hbx), (IHitems Hbi). cbn [bind map].
      destruct (has_json_form x); reflexivity. }
    rewrite Hparts. reflexivity.
  - cbn [serialize has_json_form json_text].
    match goal with
    | |- context [bind (?f fields) _] =>
        assert (Hparts : f fields
                         = Ok (flat_map (fun kx : text * JSValue num =>
                                           let (key, x) := kx in
                                           if has_json_form x
                                           then [QuoteJSONString key ++ [58] ++ json_text x]
                                           else []) fields))
    end.
    { cbn [no_bigint] in Hb.
      induction IH as [ | [key x] fields Hx _ IHfields]; [reflexivity | ].
      cbn [snd] in Hx. apply andb_true_iff in Hb. destruct Hb as [Hbx Hbf].
      rewrite (Hx Hbx), (IHfields Hbf). cbn [bind flat_map].
      destruct (has_json_form x); reflexivity. }
    rewrite Hparts. reflexivity.
Qed.

(** Only [undefined], a symbol and a function have no JSON text. *)
Lemma serialize_none (v : JSValue num) :
  serialize v = Ok None -> v = JUndefined \/ v = JSymbol \/ v = JFunction.
Proof.
  destruct v; simpl; auto; try discriminate.
  - destruct ((fix elements (l : list (JSValue num)) : outcome (list text) := _) items);
      discriminate.
  - destruct ((fix members (l : list (text * JSValue num)) : outcome (list text) := _) fields);
      discriminate.
Qed.

Lemma response_text_total (v : JSValue num) :
  json_data v = true -> exists t, response_text v = Ok t.
Proof.
  intros Hj.
  destruct v; try discriminate; try (simpl; eauto; fail).
  - (* an array *)
    unfold response_text, stringify, nullish_default.
    destruct (serialize_no_bigint (JArray items) Hj) as ([t | ] & E); rewrite E; simpl; eauto.
    apply serialize_none in E. destruct E as [E | [E | E]]; discriminate.
  - unfold response_text, stringify, nullish_default.
    destruct (serialize_no_bigint (JObject fields) Hj) as ([t | ] & E); rewrite E; simpl; eauto.
    apply serialize_none in E. destruct E as [E | [E | E]]; discriminate.
Qed.

Lemma detect_total (tool_name : text) (v : JSValue num) :
  json_data v = true -> exists r, detectBashError tool_name v = Ok r.
Proof.
  intros Hj. unfold detectBashError.
  destruct (negb (Text.eqb tool_name (lit "Bash"))); [eauto | ].
  destruct (response_text_total v Hj) as (t & ->). simpl. eauto.
Qed.

End StringifyFacts.

Section StringifyFailure.

Context {num : Type} `{NumberOps num}.

(** A BigInt anywhere makes serialization throw. *)
Lemma serialize_bigint (v : JSValue num) :
  no_bigint v = false -> serialize v = Throw TypeError.
Proof.
  induction v as [ | | b | x | s | z | | | items IH | fields IH]
    using JSValue_nested_ind; simpl; intros Hb; try discriminate; try reflexivity.
  - match goal with
    | |- bind (?f items) _ = _ =>
        assert (Hparts : f items = Throw TypeError)
    end.
    { induction IH as [ | x items Hx _ IHitems]; [discriminate | ].
      simpl in Hb. apply andb_false_iff in Hb.
      destruct (no_bigint x) eqn:Bx.
      - destruct Hb as [Hb | Hb]; [discriminate | ].
        destruct (serialize_no_bigint x Bx) as (o & ->). simpl.
        rewrite (IHitems Hb). reflexivity.
      - rewrite (Hx eq_refl). reflexivity. }
    rewrite Hparts. reflexivity.
  - match goal with
    | |- bind (?f fields) _ = _ =>
        assert (Hparts : f fields = Throw TypeError)
    end.
    { induction IH as [ | [key x] fields Hx _ IHfields]; [discriminate | ].
      simpl in Hx. apply andb_false_iff in Hb.
      destruct (no_bigint x) eqn:Bx.
      - destruct Hb as [Hb | Hb]; [discriminate | ].
        destruct (serialize_no_bigint x Bx) as (o & ->). simpl.
        rewrite (IHfields Hb). reflexivity.
      - rewrite (Hx eq_refl). reflexivity. }
    rewrite Hparts. reflexivity.
Qed.

Lemma response_text_failure (v : JSValue num) :
  json_data v = false -> response_text v = Throw TypeError.
Proof.
  intros Hj. destruct v; try discriminate; try reflexivity.
  - unfold response_text, stringify, nullish_default.
    rewrite (serialize_bigint (JArray items) Hj). reflexivity.
  - unfold response_text, stringify, nullish_default.
    rewrite (serialize_bigint (JObject fields) Hj). reflexivity.
Qed.

End StringifyFailure.

(** * The claims *)

(** ** C4 *)

(** C4: whatever the tool response holds, a tool name other than "Bash"
    gives [isError = false] (with no message and no exit code); the
    response is not even looked at, so nothing can throw. *)
Theorem non_bash_never_flagged {num : Type} `{NumberOps num}
  (tool_name : text) (tool_response : JSValue num) :
  tool_name <> lit "Bash" ->
  detectBashError tool_name tool_response = Ok (mkResult false None None).
Proof.
  intros Hn. unfold detectBashError.
  destruct (Text.eqb tool_name (lit "Bash")) eqn:E; [ | reflexivity].
  apply text_eqb_eq in E. contradiction.
Qed.

Lemma non_bash_never_flagged_witness :
  lit "Read" <> lit "Bash"
  /\ detectBashError (num := Z) (lit "Read") (JString (lit "Error: file not found"))
     = Ok (mkResult false None None).
Proof.
  assert (Hn : lit "Read" <> lit "Bash") by (vm_compute; discriminate).
  split; [exact Hn | ].
  exact (non_bash_never_flagged (lit "Read") (JString (lit "Error: file not found")) Hn).
Defined.

(** ** C5 *)

(** C5: every result [detectBashError] returns is well formed: without an
    error there is neither message nor exit code, the message is there
    exactly when [isError] holds, and an exit code is never zero and comes
    with [isError].  On every value that has a JSON text the function does
    return a result. *)
Theorem classification_well_formed {num : Type} `{NumberOps num}
  (tool_name : text) (tool_response : JSValue num) :
  (json_data tool_response = true ->
   exists r, detectBashError tool_name tool_response = Ok r)
  /\ (forall r, detectBashError tool_name tool_response = Ok r ->
                well_formed_result r).
Proof.
  split; [apply detect_total | ].
  intros r. unfold detectBashError.
  destruct (negb (Text.eqb tool_name (lit "Bash"))).
  - intros [= <-]. unfold well_formed_result. simpl.
    repeat split; try discriminate; intros; congruence.
  - destruct (response_text tool_response) as [t | e]; simpl; [ | discriminate].
    intros [= <-]. apply well_formed_classify.
Qed.

Lemma classification_well_formed_witness :
  well_formed_result
    (mkResult true (Some (lit "Process exited with code 127")) (Some (Fin 127))).
Proof.
  apply (proj2 (classification_well_formed (num := Z) (lit "Bash")
                  (JString (lit "Process exited with code 127")))).
  vm_compute. reflexivity.
Defined.

(** ** C1 *)

Lemma of_N_zero (n : N) : strict_ne_zero (of_N false n) = true -> n <> 0.
Proof.
  intros Hz ->. discriminate Hz.
Qed.

(** C1, amended: when some pattern of the exit-code table captures a number
    other than zero, the result for tool "Bash" is an error whose message
    is the full text and whose exit code is what [parseInt] makes of the
    digits captured by the first pattern of the table, in its order, with a
    non-zero capture (the given pattern when it is the only such): the
    double nearest to the captured integer, which is the integer itself up
    to 2^53. *)
Theorem nonzero_exit_code_reported {num : Type} `{NumberOps num}
  (t : text) (p : RegExp) (mt : Match) :
  In p EXIT_CODE_PATTERNS ->
  exec p t = Some mt ->
  strict_ne_zero (parseInt (group1 mt)) = true ->
  exists pre q post mq d,
    EXIT_CODE_PATTERNS = pre ++ q :: post
    /\ (forall q', In q' pre -> silent q' t)
    /\ exec q t = Some mq /\ capture 1 mq = Some d
    /\ d <> [] /\ forallb is_digit d = true /\ decimal d <> 0
    /\ detectBashError (lit "Bash") (JString t)
       = Ok (mkResult true (Some t) (Some (of_N false (decimal d))))
    /\ (decimal d <= 2 ^ 53 -> of_N false (decimal d) = Fin (Z.of_N (decimal d)))
    /\ ((forall q', In q' EXIT_CODE_PATTERNS -> q' = p \/ silent q' t) ->
        q = p /\ mq = mt).
Proof.
  intros Hin He Hz.
  destruct (exit_code_scan_some t _ p mt Hin He Hz) as (r & Hr).
  destruct (exit_code_scan_split t _ r Hr)
    as (pre & q & post & mq & Htab & Hpre & Heq & Hzq & ->).
  assert (Hq : In q EXIT_CODE_PATTERNS).
  { rewrite Htab. apply in_or_app. right. left. reflexivity. }
  destruct (exit_pattern_group1 q t mq Hq Heq) as (d & Hc & Hg & Hd & Hdig & Hp).
  exists pre, q, post, mq, d. rewrite Hp in Hzq.
  split; [exact Htab | ]. split; [exact Hpre | ].
  split; [exact Heq | ]. split; [exact Hc | ].
  split; [exact Hd | ]. split; [exact Hdig | ].
  split; [now apply of_N_zero | ].
  split.
  { rewrite detect_bash_string. unfold classify_text. rewrite Hr, Hp. reflexivity. }
  split; [apply of_N_exact | ].
  intros Honly.
  assert (q = p) as ->.
  { destruct (Honly q Hq) as [-> | Hs]; [reflexivity | ].
    specialize (Hs mq Heq). rewrite Hp in Hs. congruence. }
  split; congruence.
Qed.

Lemma nonzero_exit_code_reported_witness :
  exists pre q post mq d,
    EXIT_CODE_PATTERNS = pre ++ q :: post
    /\ (forall q', In q' pre -> silent q' (lit "Process exited with code 127"))
    /\ exec q (lit "Process exited with code 127") = Some mq
    /\ capture 1 mq = Some d
    /\ d <> [] /\ forallb is_digit d = true /\ decimal d <> 0
    /\ detectBashError (num := Z) (lit "Bash") (JString (lit "Process exited with code 127"))
       = Ok (mkResult true (Some (lit "Process exited with code 127"))
                      (Some (of_N false (decimal d))))
    /\ (decimal d <= 2 ^ 53 -> of_N false (decimal d) = Fin (Z.of_N (decimal d)))
    /\ ((forall q', In q' EXIT_CODE_PATTERNS ->
                    q' = nth 1 EXIT_CODE_PATTERNS (insensitive REmpty)
                    \/ silent q' (lit "Process exited with code 127")) ->
        q = nth 1 EXIT_CODE_PATTERNS (insensitive REmpty)
        /\ mq = mkMatch 8 (lit "exited with code 127") [(1%nat, lit "127")]).
Proof.
  apply (nonzero_exit_code_reported (num := Z) (lit "Process exited with code 127")
           (nth 1 EXIT_CODE_PATTERNS (insensitive REmpty))
           (mkMatch 8 (lit "exited with code 127") [(1%nat, lit "127")])).
  - simpl. auto.
  - vm_compute. reflexivity.
  - vm_compute. reflexivity.
Defined.

(** C1 as stated fails on a captured integer above 2^53: the exit code is
    the nearest double, not the integer. *)
Lemma exit_code_not_exact :
  let t := lit "exit code: 9007199254740993" in
  exists mt,
    exec (nth 0 EXIT_CODE_PATTERNS (insensitive REmpty)) t = Some mt
    /\ capture 1 mt = Some (lit "9007199254740993")
    /\ decimal (lit "9007199254740993") = 9007199254740993
    /\ detectBashError (num := Z) (lit "Bash") (JString t)
       = Ok (mkResult true (Some t) (Some (Fin 9007199254740992)))
    /\ Fin 9007199254740992 <> Fin (Z.of_N (decimal (lit "9007199254740993"))).
Proof.
  eexists. split; [vm_compute; reflexivity | ].
  split; [vm_compute; reflexivity | ].
  split; [vm_compute; reflexivity | ].
  split; [vm_compute; reflexivity | ].
  vm_compute. discriminate.
Qed.

(** ** C2 *)

(** C2, amended: the exit-code verdict is decided by the first pattern, in
    table order, whose match captures a number other than zero, whatever
    the later patterns capture; a pattern that captures zero is passed over
    and the next one is tried.  When no pattern captures a non-zero number,
    no exit code is derived and the verdict is that of the keyword patterns
    on the same full text. *)
Theorem exit_code_scan_priority {num : Type} `{NumberOps num} (t : text) :
  (forall pre p post mt,
      EXIT_CODE_PATTERNS = pre ++ p :: post ->
      (forall q, In q pre -> silent q t) ->
      exec p t = Some mt ->
      strict_ne_zero (parseInt (group1 mt)) = true ->
      detectBashError (lit "Bash") (JString t)
      = Ok (mkResult true (Some t) (Some (parseInt (group1 mt)))))
  /\ ((forall q, In q EXIT_CODE_PATTERNS -> silent q t) ->
      exists r, detectBashError (lit "Bash") (JString t) = Ok r
                /\ exitCode r = None
                /\ (isError r = true <->
                    exists k, In k ERROR_KEYWORD_PATTERNS /\ test k t = true)
                /\ errorMessage r = if isError r then Some t else None).
Proof.
  split.
  - intros pre p post mt Htab Hpre He Hz.
    rewrite detect_bash_string. unfold classify_text. rewrite Htab.
    rewrite (exit_code_scan_first t pre post p mt Hpre He Hz). reflexivity.
  - intros Hs. rewrite detect_bash_string. unfold classify_text.
    rewrite (exit_code_scan_silent t _ Hs).
    destruct (keyword_scan ERROR_KEYWORD_PATTERNS t) as [k | ] eqn:K.
    + eexists. split; [reflexivity | ]. cbn [isError exitCode errorMessage].
      split; [reflexivity | ]. split; [ | reflexivity].
      split; [ | reflexivity].
      intros _. exists k. exact (keyword_scan_sound t _ k K).
    + eexists. split; [reflexivity | ]. cbn [isError exitCode errorMessage].
      split; [reflexivity | ]. split; [ | reflexivity].
      split; [discriminate | ].
      intros (k & Hin & Ht).
      destruct (keyword_scan_some t _ k Hin Ht) as (k' & E). congruence.
Qed.

Lemma exit_code_scan_priority_witness :
  detectBashError (num := Z) (lit "Bash") (JString (lit "exit code: 0, returned 3"))
  = Ok (mkResult true (Some (lit "exit code: 0, returned 3")) (Some (Fin 3))).
Proof.
  apply (proj1 (exit_code_scan_priority (num := Z) (lit "exit code: 0, returned 3"))
           (firstn 2 EXIT_CODE_PATTERNS) (nth 2 EXIT_CODE_PATTERNS (insensitive REmpty)) []
           (mkMatch 14 (lit "returned 3") [(1%nat, lit "3")])).
  - reflexivity.
  - intros q [<- | [<- | []]] mt.
    + vm_compute. intros [= <-]. reflexivity.
    + vm_compute. discriminate.
  - vm_compute. reflexivity.
  - vm_compute. reflexivity.
Defined.

(** C2 as stated fails: the first pattern that matches captures zero, no
    keyword is in the text, and still an error with the exit code of a
    later pattern is returned. *)
Lemma zero_exit_code_not_final :
  let t := lit "exit code: 0, returned 3" in
  exit_signal_scanner EXIT_CODE_PATTERNS t = Some (Fin 0)
  /\ keyword_scan ERROR_KEYWORD_PATTERNS t = None
  /\ detectBashError (num := Z) (lit "Bash") (JString t)
     = Ok (mkResult true (Some t) (Some (Fin 3))).
Proof.
  repeat split; vm_compute; reflexivity.
Qed.

(** ** C3 *)

(** C3: for tool "Bash", a text in which no exit-code pattern yields a
    non-zero number and in which one of the four keyword patterns is found
    is an error whose message is the full text, with no exit code. *)
Theorem keyword_error_reported {num : Type} `{NumberOps num} (t : text) (k : RegExp) :
  (forall q, In q EXIT_CODE_PATTERNS -> silent q t) ->
  In k ERROR_KEYWORD_PATTERNS ->
  test k t = true ->
  detectBashError (lit "Bash") (JString t) = Ok (mkResult true (Some t) None).
Proof.
  intros Hs Hin Ht. rewrite detect_bash_string. unfold classify_text.
  rewrite (exit_code_scan_silent t _ Hs).
  destruct (keyword_scan_some t _ k Hin Ht) as (k' & ->). reflexivity.
Qed.

Lemma keyword_error_reported_witness :
  detectBashError (num := Z) (lit "Bash") (JString (lit "Build failed"))
  = Ok (mkResult true (Some (lit "Build failed")) None).
Proof.
  apply (keyword_error_reported (num := Z) (lit "Build failed")
           (nth 2 ERROR_KEYWORD_PATTERNS (insensitive REmpty))).
  - intros q [<- | [<- | [<- | []]]] mt; vm_compute; discriminate.
  - simpl. auto.
  - vm_compute. reflexivity.
Defined.

(** ** C8 *)

Lemma error_type_scan_first (t : text) (dflt : text)
  (pre post : list (RegExp * text)) (p : RegExp) (tag : text) :
  (forall q, In q pre -> test (fst q) t = false) ->
  test p t = true ->
  error_type_scan (pre ++ (p, tag) :: post) dflt t = tag.
Proof.
  intros Hpre Hp. induction pre as [ | [q qt] pre IH]; simpl.
  - rewrite Hp. reflexivity.
  - pose proof (Hpre (q, qt) (or_introl eq_refl)) as Hq. simpl in Hq.
    rewrite Hq. apply IH. intros; apply Hpre; simpl; auto.
Qed.

Lemma error_type_scan_default (t : text) (dflt : text) (patterns : list (RegExp * text)) :
  (forall q, In q patterns -> test (fst q) t = false) ->
  error_type_scan patterns dflt t = dflt.
Proof.
  induction patterns as [ | [q qt] ps IH]; simpl; intros Hq; [reflexivity | ].
  pose proof (Hq (q, qt) (or_introl eq_refl)) as Hq1. simpl in Hq1.
  rewrite Hq1. apply IH. intros; apply Hq; auto.
Qed.

(** C8: the error type is the tag of the first pattern of the catalog, in
    its order, that is found in the text, and "unknown" when none is; for
    "npm ERR! code ENOENT" it is "npm". *)
Theorem error_type_first_match (t : text) :
  (forall pre p tag post,
      ERROR_TYPE_PATTERNS = pre ++ (p, tag) :: post ->
      (forall q, In q pre -> test (fst q) t = false) ->
      test p t = true ->
      errorType (extractErrorFeatures t) = tag)
  /\ ((forall q, In q ERROR_TYPE_PATTERNS -> test (fst q) t = false) ->
      errorType (extractErrorFeatures t) = lit "unknown")
  /\ errorType (extractErrorFeatures (lit "npm ERR! code ENOENT")) = lit "npm".
Proof.
  split; [ | split].
  - intros pre p tag post Htab Hpre Hp.
    unfold extractErrorFeatures. cbn [errorType]. rewrite Htab.
    apply error_type_scan_first; assumption.
  - intros Hq. unfold extractErrorFeatures. cbn [errorType].
    apply error_type_scan_default, Hq.
  - vm_compute. reflexivity.
Qed.

Lemma error_type_first_match_witness :
  errorType (extractErrorFeatures (lit "cargo build: TypeError in pip error")) = lit "TypeError"
  /\ errorType (extractErrorFeatures (lit "Some random error message")) = lit "unknown".
Proof.
  split.
  - apply (proj1 (error_type_first_match (lit "cargo build: TypeError in pip error"))
             [] (insensitive (RLit "TypeError")) (lit "TypeError")
             (tl ERROR_TYPE_PATTERNS)).
    + reflexivity.
    + intros q [].
    + vm_compute. reflexivity.
  - apply (proj1 (proj2 (error_type_first_match (lit "Some random error message")))).
    intros q Hq. simpl in Hq.
    repeat (destruct Hq as [<- | Hq]; [vm_compute; reflexivity | ]).
    destruct Hq.
Defined.

(** ** C6 *)

(** C6, amended: a tool response that is a string is scanned as it is.  Any
    other value, taken among plain data (the values of [JSValue]: no
    [toJSON] method, accessor or cycle), is replaced by the JSON text of
    [toolResponse ?? ''], and it is that text that is scanned.  This fails,
    with a TypeError, exactly when the value holds a BigInt or is itself a
    symbol or a function.  An [undefined] or [null] response becomes the
    two-character text made of two double quotes, in which no pattern is
    found, so the result is [isError = false]. *)
Theorem response_text_coercion {num : Type} `{NumberOps num} (v : JSValue num) :
  (forall s, v = JString s ->
             response_text v = Ok s
             /\ detectBashError (lit "Bash") v = Ok (classify_text s))
  /\ (json_data v = true -> (forall s, v <> JString s) ->
      stringify (nullish_default v) = Ok (Some (json_text (nullish_default v)))
      /\ response_text v = Ok (json_text (nullish_default v))
      /\ detectBashError (lit "Bash") v
         = Ok (classify_text (json_text (nullish_default v))))
  /\ (json_data v = true -> exists t, response_text v = Ok t)
  /\ (json_data v = false ->
      response_text v = Throw TypeError
      /\ detectBashError (lit "Bash") v = Throw TypeError)
  /\ (v = JUndefined \/ v = JNull ->
      response_text v = Ok [34; 34]
      /\ detectBashError (lit "Bash") v = Ok (mkResult false None None)).
Proof.
  split; [ | split; [ | split; [ | split]]].
  - intros s ->. split; reflexivity.
  - intros Hj Hs.
    assert (Hb : no_bigint (nullish_default v) = true).
    { destruct v; try reflexivity; try discriminate Hj; exact Hj. }
    assert (Hf : has_json_form (nullish_default v) = true).
    { destruct v; try reflexivity; discriminate Hj. }
    pose proof (serialize_json_text (nullish_default v) Hb) as Hser.
    rewrite Hf in Hser.
    assert (Ht : response_text v = Ok (json_text (nullish_default v))).
    { destruct v; try (exfalso; eapply Hs; reflexivity);
        unfold response_text, stringify; rewrite Hser; reflexivity. }
    split; [exact Hser | ]. split; [exact Ht | ].
    unfold detectBashError. cbn [Text.eqb negb]. rewrite Ht. reflexivity.
  - apply response_text_total.
  - intros Hj. pose proof (response_text_failure v Hj) as Ht.
    split; [exact Ht | ].
    unfold detectBashError. cbn [Text.eqb negb]. rewrite Ht. reflexivity.
  - intros [-> | ->]; split; vm_compute; reflexivity.
Qed.

Lemma response_text_coercion_witness :
  response_text (num := Z) (JObject [(lit "code", JNumber 2%Z); (lit "ok", JBool false)])
  = Ok ([123; 34] ++ lit "code" ++ [34; 58] ++ lit "2" ++ [44; 34] ++ lit "ok"
        ++ [34; 58] ++ lit "false" ++ [125])
  /\ response_text (num := Z) (JArray [JBigInt 1%Z]) = Throw TypeError
  /\ response_text (num := Z) JUndefined = Ok [34; 34].
Proof.
  split; [ | split].
  - destruct (proj1 (proj2 (response_text_coercion (num := Z)
                (JObject [(lit "code", JNumber 2%Z); (lit "ok", JBool false)])))
                eq_refl) as (_ & Ht & _).
    + intros s. discriminate.
    + rewrite Ht. vm_compute. reflexivity.
  - apply (proj1 (proj2 (proj2 (proj2 (response_text_coercion (num := Z)
                                         (JArray [JBigInt 1%Z])))))).
    reflexivity.
  - apply (proj2 (proj2 (proj2 (proj2 (response_text_coercion (num := Z) JUndefined))))).
    left. reflexivity.
Defined.

(** C6 as stated fails on both counts.  The text scanned for an [undefined]
    response is not empty: it is the JSON text of the empty string.  And
    serialization can fail: a BigInt response makes [detectBashError] throw
    a TypeError. *)
Lemma response_coercion_not_as_stated :
  (response_text (num := Z) JUndefined = Ok [34; 34]
   /\ response_text (num := Z) JUndefined <> Ok [])
  /\ (response_text (num := Z) (JBigInt 1%Z) = Throw TypeError
      /\ detectBashError (num := Z) (lit "Bash") (JBigInt 1%Z) = Throw TypeError).
Proof.
  split; split; try reflexivity. discriminate.
Qed.

(** ** C9 *)

(** C9: when the working directory is missing from the hook input, the
    handler ends by throwing, and its trace holds no request to the worker:
    neither the observation nor an error record is posted.  With the worker
    running and a tool name present, the error thrown is the one that names
    the missing [cwd]. *)
Theorem missing_cwd_fails {num : Type} `{NumberOps num}
  (w : World) (input : NormalizedHookInput) :
  missing (cwd input) = true ->
  (exists e, snd (execute w input) = Throw e)
  /\ (forall ev, In ev (fst (execute w input)) ->
                 match ev with
                 | PostObservation _ _ | PostError _ _ | GetSimilar _ _ => False
                 | _ => True
                 end)
  /\ (ensureWorkerRunning w = Ok tt ->
      missing (toolName input) = false ->
      snd (execute w input)
      = Throw (Error (lit "Missing cwd in PostToolUse hook input for session "
                      ++ show (sessionId input) ++ lit ", tool "
                      ++ show (toolName input)))).
Proof.
  intros Hcwd. unfold execute.
  destruct (ensureWorkerRunning w) as [[] | e] eqn:W;
    destruct (missing (toolName input)) eqn:T; rewrite ?Hcwd; simpl.
  - split; [eauto | ]. split; [ | discriminate].
    intros ev [<- | []]. exact I.
  - split; [eauto | ]. split; [ | reflexivity].
    intros ev [<- | [<- | []]]; exact I.
  - split; [eauto | ]. split; [ | discriminate].
    intros ev [<- | []]. exact I.
  - split; [eauto | ]. split; [ | discriminate].
    intros ev [<- | []]. exact I.
Qed.

Lemma missing_cwd_fails_witness :
  let w := mkWorld (num := Z) (Ok tt) 37777 (fun name _ => name)
             (fun _ => Ok (mkResponse true (lit "200")))
             (fun _ => Ok (mkResponse true (lit "200")))
             (fun _ => Ok (mkResponse true (lit "200"), Ok None)) in
  let input := mkInput (Some (lit "s1")) None (Some (lit "Bash"))
                 (JString (lit "ls")) (JString (lit "exit code: 2")) in
  execute w input
  = ([EnsureWorker; LogDataIn (lit "PostToolUse: Bash")],
     Throw (Error (lit "Missing cwd in PostToolUse hook input for session s1, tool Bash"))).
Proof.
  intros w input.
  pose proof (missing_cwd_fails w input eq_refl) as (_ & _ & He).
  specialize (He eq_refl eq_refl).
  destruct (execute w input) as [tr r] eqn:E. simpl in He. subst r.
  revert E. vm_compute. intros [= <-]. reflexivity.
Defined.

(** ** Literal patterns *)

(** A literal pattern consumes any text that equals it, letter case aside. *)
Lemma m_literal (p : text) :
  forall x s r k,
    map (canonicalize true) x = map (canonicalize true) p ->
    rest s = x ++ r ->
    exists s', rest s' = r /\ m true (RStr p) s k = k s'.
Proof.
  induction p as [ | c p IH]; intros x s r k Hx Hr.
  - destruct x; [ | discriminate]. exists s. auto.
  - destruct x as [ | y x]; [discriminate | ].
    simpl in Hx. injection Hx as Hy Hx.
    assert (Hstep : forall k', step (char_match true c) s k'
                               = k' (mkState (Some y) (x ++ r) (caps s))).
    { intros k'. unfold step. rewrite Hr. simpl.
      unfold char_match. rewrite Hy, N.eqb_refl. reflexivity. }
    destruct p as [ | c' p].
    + destruct x; [ | discriminate]. simpl. rewrite Hstep. eexists. split; [ | reflexivity].
      reflexivity.
    + change (RStr (c :: c' :: p)) with (RSeq (RChar c) (RStr (c' :: p))).
      cbn [m]. rewrite Hstep.
      apply (IH x (mkState (Some y) (x ++ r) (caps s)) r k Hx). reflexivity.
Qed.

(** The search succeeds as soon as some position ahead matches. *)
Lemma search_finds (re : RegExp) (x : text) :
  (forall p, match_here re p x <> None) ->
  forall a p i, search re p (a ++ x) i <> None.
Proof.
  intros Hx. induction a as [ | c a IH]; intros p i.
  - simpl. specialize (Hx p).
    destruct x; simpl; destruct (match_here re p _); congruence.
  - simpl. destruct (match_here re p (c :: a ++ x)); [discriminate | apply IH].
Qed.

Lemma test_literal (p t : text) :
  contains_ci p t -> test (insensitive (RStr p)) t = true.
Proof.
  intros (a & x & b & -> & Hx). unfold test, exec.
  destruct (search (insensitive (RStr p)) None (a ++ x ++ b) 0) eqn:E; [reflexivity | ].
  exfalso. revert E. apply search_finds. intros q. unfold match_here. simpl.
  destruct (m_literal p x (mkState q (x ++ b) []) b (fun s => Some s) Hx eq_refl)
    as (s' & _ & ->).
  discriminate.
Qed.

(** ** Quoting keeps unescaped text *)

Lemma is_plain_escape (c : char16) :
  is_plain c = true ->
  escape_unit c = [c] /\ is_high_surrogate c = false /\ is_low_surrogate c = false.
Proof.
  unfold is_plain. rewrite orb_true_iff, andb_true_iff, !N.leb_le, is_lower_spec.
  intros Hc. unfold escape_unit, is_high_surrogate, is_low_surrogate.
  repeat split; cmp_N.
Qed.

Lemma quote_body_pair (c d : char16) (t : text) :
  quote_body (c :: d :: t)
  = if is_high_surrogate c && is_low_surrogate d
    then c :: d :: quote_body t
    else escape_unit c ++ quote_body (d :: t).
Proof. reflexivity. Qed.

Lemma quote_body_not_high (c : char16) (t : text) :
  is_high_surrogate c = false ->
  quote_body (c :: t) = escape_unit c ++ quote_body t.
Proof.
  intros Hc. destruct t as [ | d t].
  - simpl. rewrite app_nil_r. reflexivity.
  - rewrite quote_body_pair, Hc. reflexivity.
Qed.

Lemma quote_body_plain (x b : text) :
  forallb is_plain x = true -> exists b', quote_body (x ++ b) = x ++ b'.
Proof.
  induction x as [ | c x IH]; intros Hx.
  - exists (quote_body b). reflexivity.
  - simpl in Hx. apply andb_true_iff in Hx. destruct Hx as [Hc Hx].
    destruct (is_plain_escape c Hc) as (He & Hh & _).
    destruct (IH Hx) as (b' & Hb).
    rewrite <- app_comm_cons, (quote_body_not_high c _ Hh), He, Hb.
    exists b'. reflexivity.
Qed.

Lemma quote_body_keeps (x b : text) :
  x <> [] -> forallb is_plain x = true ->
  forall n a, (length a <= n)%nat ->
              exists a' b', quote_body (a ++ x ++ b) = a' ++ x ++ b'.
Proof.
  intros Hne Hx. induction n as [ | n IH]; intros a Ha.
  - destruct a; [ | simpl in Ha; lia].
    destruct (quote_body_plain x b Hx) as (b' & Hb). exists [], b'. exact Hb.
  - destruct a as [ | c a].
    + destruct (quote_body_plain x b Hx) as (b' & Hb). exists [], b'. exact Hb.
    + simpl in Ha. destruct a as [ | d a].
      * destruct x as [ | y x]; [congruence | ].
        pose proof Hx as Hx0.
        simpl in Hx. apply andb_true_iff in Hx. destruct Hx as [Hy Hx'].
        destruct (is_plain_escape y Hy) as (_ & _ & Hl).
        destruct (quote_body_plain (y :: x) b Hx0) as (b' & Hq).
        change ([c] ++ (y :: x) ++ b) with (c :: y :: (x ++ b)).
        rewrite quote_body_pair, Hl, andb_false_r.
        change (y :: x ++ b) with ((y :: x) ++ b). rewrite Hq.
        exists (escape_unit c), b'. reflexivity.
      * simpl in Ha.
        change ((c :: d :: a) ++ x ++ b) with (c :: d :: (a ++ x ++ b)).
        rewrite quote_body_pair.
        destruct (is_high_surrogate c && is_low_surrogate d).
        -- destruct (IH a ltac:(lia)) as (a' & b' & Hq). rewrite Hq.
           exists (c :: d :: a'), b'. reflexivity.
        -- destruct (IH (d :: a) ltac:(simpl; lia)) as (a' & b' & Hq).
           change (d :: a ++ x ++ b) with ((d :: a) ++ x ++ b).
           rewrite Hq. exists (escape_unit c ++ a'), b'.
           rewrite <- app_assoc. reflexivity.
Qed.

Lemma canonical_plain (c : char16) :
  35 <= canonicalize true c <= 91 -> is_plain c = true.
Proof.
  unfold canonicalize, is_plain. simpl.
  destruct (is_lower c) eqn:L; [intros _; apply orb_true_r | ].
  intros Hc. rewrite orb_false_r. cmp_N.
Qed.

Lemma canonical_all_plain (p x : text) :
  Forall (fun e => 35 <= e <= 91) (map (canonicalize true) p) ->
  map (canonicalize true) x = map (canonicalize true) p ->
  forallb is_plain x = true.
Proof.
  intros Hp Hx. rewrite <- Hx in Hp. clear Hx.
  induction x as [ | c x IH]; [reflexivity | ].
  simpl in Hp. inversion Hp as [ | ? ? Hc Hrest]; subst.
  simpl. rewrite (canonical_plain c Hc). apply IH, Hrest.
Qed.

(** Quoting a string keeps a pattern of plain characters found in it. *)
Lemma quote_contains (p s : text) :
  p <> [] ->
  Forall (fun e => 35 <= e <= 91) (map (canonicalize true) p) ->
  contains_ci p s -> contains_ci p (QuoteJSONString s).
Proof.
  intros Hne Hp (a & x & b & -> & Hx).
  assert (Hxne : x <> []).
  { destruct x; [ | discriminate]. destruct p; [congruence | discriminate]. }
  destruct (quote_body_keeps x b Hxne (canonical_all_plain p x Hp Hx) (length a) a
              (Nat.le_refl _)) as (a' & b' & Hq).
  exists (34 :: a'), x, (b' ++ [34]). split; [ | exact Hx].
  unfold QuoteJSONString. rewrite Hq. simpl. rewrite <- !app_assoc. reflexivity.
Qed.

Lemma contains_ci_app (p a t b : text) :
  contains_ci p t -> contains_ci p (a ++ t ++ b).
Proof.
  intros (a0 & x & b0 & -> & Hx). exists (a ++ a0), x, (b0 ++ b).
  split; [ | exact Hx]. rewrite <- !app_assoc. reflexivity.
Qed.

Lemma join_contains (p sep : text) (parts : list text) (part : text) :
  In part parts -> contains_ci p part -> contains_ci p (join sep parts).
Proof.
  induction parts as [ | q parts IH]; [intros [] | ].
  intros Hin Hp. destruct parts as [ | q' parts].
  - destruct Hin as [-> | []]. exact Hp.
  - change (join sep (q :: q' :: parts)) with (q ++ sep ++ join sep (q' :: parts)).
    destruct Hin as [-> | Hin].
    + exact (contains_ci_app p [] part (sep ++ join sep (q' :: parts)) Hp).
    + specialize (IH Hin Hp).
      pose proof (contains_ci_app p (q ++ sep) _ [] IH) as Hc.
      rewrite app_nil_r, <- app_assoc in Hc. exact Hc.
Qed.

Section ObjectText.

Context {num : Type} `{NumberOps num}.

(** The JSON text of an object holds the quoted text of each of its string
    properties. *)
Lemma object_text_contains (p : text) (fields : list (text * JSValue num))
  (key s t : text) :
  In (key, JString s) fields ->
  contains_ci p (QuoteJSONString s) ->
  serialize (JObject fields) = Ok (Some t) ->
  contains_ci p t.
Proof.
  intros Hin Hp. simpl.
  match goal with
  | |- bind (?f fields) _ = _ -> _ =>
      assert (Hparts : forall l parts, f l = Ok parts -> In (key, JString s) l ->
                                       exists part, In part parts /\ contains_ci p part)
  end.
  { induction l as [ | [k x] l IH]; intros parts Hl Hk; [destruct Hk | ].
    destruct (serialize x) as [o | e] eqn:Sx; [ | discriminate Hl].
    simpl in Hl.
    match type of Hl with
    | bind (?g l) _ = _ => destruct (g l) as [ps | e] eqn:Sl; [ | discriminate Hl]
    end.
    simpl in Hl. destruct Hk as [Hk | Hk].
    - injection Hk as -> ->. simpl in Sx. injection Sx as <-.
      injection Hl as <-. eexists. split; [left; reflexivity | ].
      destruct Hp as (a & y & b & Heq & Hy).
      exists (QuoteJSONString key ++ 58 :: a), y, b. split; [ | exact Hy].
      rewrite Heq. unfold QuoteJSONString. simpl.
      rewrite <- !app_assoc. reflexivity.
    - destruct (IH ps eq_refl Hk) as (part & Hpart & Hc).
      exists part. split; [ | exact Hc].
      destruct o; injection Hl as <-; simpl; auto. }
  match goal with
  | |- bind (?f fields) _ = _ -> _ => destruct (f fields) as [parts | e] eqn:E
  end; [ | discriminate].
  simpl. intros [= <-].
  destruct (Hparts fields parts E Hin) as (part & Hpart & Hc).
  apply (contains_ci_app p [123] _ [125]).
  exact (join_contains p [44] parts part Hpart Hc).
Qed.

End ObjectText.

(** ** C10 *)

Lemma error_marker_flags (t : text) :
  contains_ci (lit "error:") t ->
  isError (classify_text t) = true /\ errorMessage (classify_text t) = Some t.
Proof.
  intros Hc. unfold classify_text.
  destruct (exit_code_scan EXIT_CODE_PATTERNS t) as [r | ] eqn:E.
  - destruct (exit_code_scan_sound t _ r E) as (q & mq & _ & _ & _ & ->). auto.
  - destruct (keyword_scan_some t ERROR_KEYWORD_PATTERNS (insensitive (RLit "error:")))
      as (k & ->); [left; reflexivity | apply test_literal, Hc | auto].
Qed.

(** C10: for tool "Bash" and a response that is not a string, what is
    scanned is the JSON text of the value, and an error result carries that
    JSON text as its message.  An object with a string property that holds
    "error:" (in any letter case) is therefore classified as an error, and
    the features are then extracted from JSON syntax: a line feed written
    as the escape [\n] glues an [n] to the code that follows it. *)
Theorem structured_response_scanned_as_json {num : Type} `{NumberOps num} :
  (forall (v : JSValue num) (t : text),
      (forall s, v <> JString s) ->
      stringify v = Ok (Some t) ->
      detectBashError (lit "Bash") v = Ok (classify_text t)
      /\ (isError (classify_text t) = true ->
          errorMessage (classify_text t) = Some t))
  /\ (forall (fields : list (text * JSValue num)) (key s t : text),
      In (key, JString s) fields ->
      contains_ci (lit "error:") s ->
      stringify (JObject fields) = Ok (Some t) ->
      exists r, detectBashError (lit "Bash") (JObject fields) = Ok r
                /\ isError r = true /\ errorMessage r = Some t)
  /\ (let s := lit "error: x" ++ [10] ++ lit "ENOENT" in
      let t := [123; 34] ++ lit "stderr" ++ [34; 58; 34] ++ lit "error: x"
               ++ [92; 110] ++ lit "ENOENT" ++ [34; 125] in
      detectBashError (lit "Bash") (JObject [(lit "stderr", JString (num := num) s)])
      = Ok (mkResult true (Some t) None)
      /\ keywords (extractErrorFeatures t) = []
      /\ keywords (extractErrorFeatures s) = [lit "ENOENT"]).
Proof.
  split; [ | split].
  - intros v t Hv Hs.
    split.
    + destruct v; try discriminate Hs;
        try (unfold detectBashError, response_text, nullish_default;
             simpl negb; cbv iota; rewrite Hs; reflexivity).
      * (* null: the text scanned is that of the empty string *)
        injection Hs as <-. vm_compute. reflexivity.
      * destruct (Hv s eq_refl).
    + destruct (classify_text_cases t) as [(n & _ & ->) | [-> | ->]];
        simpl; auto; discriminate.
  - intros fields key s t Hin Hc Hs.
    assert (Ht : contains_ci (lit "error:") t).
    { apply (object_text_contains _ fields key s t Hin); [ | exact Hs].
      apply quote_contains; [discriminate | | exact Hc].
      vm_compute. repeat constructor; discriminate. }
    exists (classify_text t).
    split; [ | apply error_marker_flags, Ht].
    unfold detectBashError, response_text, nullish_default. simpl negb. cbv iota.
    rewrite Hs. reflexivity.
  - split; [ | split]; vm_compute; reflexivity.
Qed.

Lemma structured_response_scanned_as_json_witness :
  exists r,
    detectBashError (num := Z) (lit "Bash")
      (JObject [(lit "code", JNumber 2%Z); (lit "stderr", JString (lit "fatal ERROR: boom"))])
    = Ok r
    /\ isError r = true
    /\ errorMessage r
       = Some ([123; 34] ++ lit "code" ++ [34; 58] ++ lit "2" ++ [44; 34] ++ lit "stderr"
               ++ [34; 58; 34] ++ lit "fatal ERROR: boom" ++ [34; 125]).
Proof.
  apply (proj1 (proj2 (structured_response_scanned_as_json (num := Z)))
           [(lit "code", JNumber 2%Z); (lit "stderr", JString (lit "fatal ERROR: boom"))]
           (lit "stderr") (lit "fatal ERROR: boom")).
  - right. left. reflexivity.
  - exists (lit "fatal "), (lit "ERROR:"), (lit " boom"). split; reflexivity.
  - vm_compute. reflexivity.
Defined.

(** ** The code pattern, [/\b([A-Z][A-Z0-9_]+)\b/g] *)

Lemma class_upper (c : char16) :
  class_member false [CRange (ch "A") (ch "Z")] c = is_upper c.
Proof.
  unfold class_member, existsb, atom_member. simpl.
  rewrite !orb_false_r. reflexivity.
Qed.

Lemma class_code (c : char16) :
  class_member false [CRange (ch "A") (ch "Z"); CRange (ch "0") (ch "9"); CChar (ch "_")] c
  = is_code_char c.
Proof.
  unfold class_member, existsb, atom_member, is_code_char. simpl.
  rewrite !orb_false_r, orb_assoc. reflexivity.
Qed.

Lemma code_char_word (c : char16) : is_code_char c = true -> is_word c = true.
Proof.
  unfold is_code_char, is_word. rewrite !orb_true_iff. tauto.
Qed.

Lemma upper_code_char (c : char16) : is_upper c = true -> is_code_char c = true.
Proof.
  unfold is_code_char. intros ->. reflexivity.
Qed.

(** A greedy repetition of a class runs to the end of the characters of
    the class when the continuation refuses every place in between. *)
Lemma repeat_run (ok : char16 -> bool) (k : Cont) (cs : list (nat * text)) :
  (forall a c t, ok a = true -> ok c = true ->
                 k (mkState (Some a) (c :: t) cs) = None) ->
  forall u z a n,
    ok a = true -> forallb ok u = true ->
    match z with [] => True | c :: _ => ok c = false end ->
    (length (u ++ z) <= n)%nat ->
    repeat (step ok) n (mkState (Some a) (u ++ z) cs) k
    = k (mkState (Some (last_of u a)) z cs).
Proof.
  unfold last_of.
  intros Hk. induction u as [ | c u IH]; intros z a n Ha Hu Hz Hn.
  - simpl. destruct n as [ | n]; [reflexivity | ].
    simpl. unfold step. simpl.
    destruct z as [ | d z]; [reflexivity | ]. rewrite Hz. reflexivity.
  - simpl in Hu. apply andb_true_iff in Hu. destruct Hu as [Hc Hu].
    destruct n as [ | n]; [simpl in Hn; lia | ].
    simpl in Hn. cbn [repeat]. unfold step at 1. cbn [rest caps app].
    rewrite Hc. cbn [rest length].
    rewrite (proj2 (Nat.ltb_lt _ _)) by lia.
    rewrite (IH z c n Hc Hu Hz) by lia.
    cbn [fold_left].
    destruct (k (mkState (Some (fold_left (fun _ c0 => c0) u c)) z cs)) eqn:E;
      [reflexivity | ].
    apply Hk; assumption.
Qed.

Lemma split_run (ok : char16 -> bool) (l : text) :
  exists u v, l = u ++ v /\ forallb ok u = true
              /\ match v with [] => True | c :: _ => ok c = false end.
Proof.
  induction l as [ | c l (u & v & -> & Hu & Hv)].
  - exists [], []. auto.
  - destruct (ok c) eqn:C.
    + exists (c :: u), v. simpl. rewrite C. auto.
    + exists [], (c :: u ++ v). simpl. auto.
Qed.

Lemma last_of_ok (ok : char16 -> bool) (u : text) (a : char16) :
  ok a = true -> forallb ok u = true -> ok (last_of u a) = true.
Proof.
  unfold last_of. revert a. induction u as [ | c u IH]; intros a Ha Hu; [exact Ha | ].
  simpl in Hu. apply andb_true_iff in Hu. destruct Hu as [Hc Hu].
  simpl. apply IH; assumption.
Qed.

Lemma code_match_here_unfold (p : option char16) (t : text) :
  match_here CODE_PATTERN p t
  = if xorb (is_word_at p) (is_word_at (hd_error t))
    then step (class_member false [CRange (ch "A") (ch "Z")]) (mkState p t [])
           (fun s1 =>
              step (class_member false [CRange (ch "A") (ch "Z");
                                        CRange (ch "0") (ch "9"); CChar (ch "_")]) s1
                (fun s0 =>
                   repeat (step (class_member false [CRange (ch "A") (ch "Z");
                                                     CRange (ch "0") (ch "9");
                                                     CChar (ch "_")]))
                     (length (rest s0)) s0 (code_cont p t)))
    else None.
Proof. reflexivity. Qed.

Lemma code_cont_inside (p : option char16) (t : text) (a c : char16) (r : text) :
  is_code_char a = true -> is_code_char c = true ->
  code_cont p t (mkState (Some a) (c :: r) []) = None.
Proof.
  intros Ha Hc. unfold code_cont. simpl.
  rewrite (code_char_word a Ha), (code_char_word c Hc). reflexivity.
Qed.

(** The code pattern at the start of a word: it matches the whole word when
    the word has the shape of a code, and fails otherwise. *)
Lemma code_match_here (p : option char16) (w z : text) :
  is_word_at p = false -> w <> [] -> forallb is_word w = true -> word_end z ->
  match_here CODE_PATTERN p (w ++ z)
  = if is_code w then Some (mkState (Some (last_of w 0)) z [(1%nat, w)]) else None.
Proof.
  intros Hp Hne Hw Hz. rewrite code_match_here_unfold, Hp.
  destruct w as [ | c w]; [congruence | clear Hne].
  simpl in Hw. apply andb_true_iff in Hw. destruct Hw as [Hc Hw].
  cbn [app hd_error is_word_at]. rewrite Hc. cbn [xorb].
  unfold step at 1. cbn [rest caps]. rewrite class_upper.
  destruct (is_upper c) eqn:U.
  2:{ cbn [is_code]. destruct w; [reflexivity | rewrite U; reflexivity]. }
  destruct w as [ | d w].
  - (* a word of one letter *)
    unfold step. cbn [rest app]. destruct z as [ | e z]; [reflexivity | ].
    rewrite class_code. simpl in Hz.
    destruct (is_code_char e) eqn:E; [ | reflexivity].
    apply code_char_word in E. congruence.
  - simpl in Hw. apply andb_true_iff in Hw. destruct Hw as [Hd Hw].
    unfold step at 1. cbn [rest app caps]. rewrite class_code.
    cbn [is_code]. rewrite U. cbn [andb forallb].
    destruct (is_code_char d) eqn:D; [ | reflexivity].
    cbn [andb rest].
    destruct (split_run is_code_char w) as (u & v & -> & Hu & Hv).
    rewrite <- app_assoc.
    rewrite (repeat_run _ (code_cont p (c :: d :: u ++ v ++ z)) []).
    + (* the continuation at the end of the run *)
      unfold code_cont. cbn [prev rest caps is_word_at].
      rewrite (code_char_word _ (last_of_ok is_code_char u d D Hu)).
      rewrite forallb_app, Hu. cbn [andb].
      destruct v as [ | e v].
      * cbn [app forallb].
        assert (Hz' : is_word_at (hd_error z) = false).
        { destruct z; [reflexivity | exact Hz]. }
        rewrite Hz'. cbn [xorb].
        rewrite (consumed_app _ _ (c :: d :: u)) by reflexivity.
        rewrite !app_nil_r. reflexivity.
      * cbn [app hd_error is_word_at forallb]. rewrite Hv. cbn [andb].
        rewrite forallb_app in Hw. apply andb_true_iff in Hw.
        destruct Hw as [_ Hw]. simpl in Hw. apply andb_true_iff in Hw.
        destruct Hw as [He _]. rewrite He. reflexivity.
    + intros a e r Ha He. rewrite class_code in Ha, He.
      apply code_cont_inside; assumption.
    + rewrite class_code. exact D.
    + transitivity (forallb is_code_char u); [ | exact Hu].
      clear. induction u as [ | a u IH]; [reflexivity | ].
      cbn [forallb]. rewrite IH, class_code. reflexivity.
    + destruct v as [ | e v].
      * destruct z as [ | e z]; [exact I | ]. simpl in Hz. cbn [app].
        rewrite class_code.
        destruct (is_code_char e) eqn:E; [ | reflexivity].
        apply code_char_word in E. congruence.
      * cbn [app]. rewrite class_code. exact Hv.
    + cbn [length]. lia.
Qed.

Lemma code_match_here_gap (p : option char16) (t : text) :
  is_word_at (hd_error t) = false -> match_here CODE_PATTERN p t = None.
Proof.
  intros Ht. rewrite code_match_here_unfold.
  destruct (xorb _ _); [ | reflexivity].
  unfold step at 1. cbn [rest]. destruct t as [ | c t]; [reflexivity | ].
  rewrite class_upper. simpl in Ht.
  destruct (is_upper c) eqn:U; [ | reflexivity].
  apply upper_code_char, code_char_word in U. congruence.
Qed.

Lemma code_match_here_inside (p : option char16) (t : text) :
  is_word_at p = true -> match_here CODE_PATTERN p t = None.
Proof.
  intros Hp. destruct (is_word_at (hd_error t)) eqn:Ht.
  - rewrite code_match_here_unfold, Hp, Ht. reflexivity.
  - apply code_match_here_gap, Ht.
Qed.

(** Inside a word the search moves on to the end of the word. *)
Lemma code_skip_word (z : text) (f : nat) :
  forall w a, is_word a = true -> forallb is_word w = true ->
    match_all_from (length w + f) CODE_PATTERN (Some a) (w ++ z)
    = match_all_from f CODE_PATTERN (Some (last_of w a)) z.
Proof.
  induction w as [ | c w IH]; intros a Ha Hw; [reflexivity | ].
  simpl in Hw. apply andb_true_iff in Hw. destruct Hw as [Hc Hw].
  cbn [length app Nat.add match_all_from].
  rewrite code_match_here_inside by exact Ha.
  apply IH; assumption.
Qed.

Lemma words_from_run (z : text) :
  forall w cur, forallb is_word w = true ->
                words_from cur (w ++ z) = words_from (rev w ++ cur) z.
Proof.
  induction w as [ | c w IH]; intros cur Hw; [reflexivity | ].
  simpl in Hw. apply andb_true_iff in Hw. destruct Hw as [Hc Hw].
  simpl. rewrite Hc, (IH _ Hw), <- app_assoc. reflexivity.
Qed.

Lemma words_gap (c : char16) (t : text) :
  is_word c = false -> words (c :: t) = words t.
Proof.
  intros Hc. unfold words. simpl. rewrite Hc. reflexivity.
Qed.

Lemma words_word (w z : text) :
  w <> [] -> forallb is_word w = true -> word_end z ->
  words (w ++ z) = w :: words z.
Proof.
  intros Hne Hw Hz. unfold words. rewrite (words_from_run z w [] Hw), app_nil_r.
  assert (Hf : flush (rev w) = [w]).
  { unfold flush. destruct (rev w) eqn:R.
    - apply (f_equal (@rev _)) in R. rewrite rev_involutive in R. contradiction.
    - rewrite <- R, rev_involutive. reflexivity. }
  destruct z as [ | d z]; simpl.
  - exact Hf.
  - simpl in Hz. rewrite Hz, Hf. reflexivity.
Qed.

(** The matches of the code pattern are the words that have the shape of a
    code, in their order. *)
Lemma code_match_all (n : nat) :
  forall t, (length t < n)%nat ->
  forall f p, (length t < f)%nat ->
              is_word_at p = false \/ word_end t ->
              match_all_from f CODE_PATTERN p t = filter is_code (words t).
Proof.
  induction n as [ | n IH]; intros t Hn f p Hf Hpre; [lia | ].
  destruct f as [ | f]; [lia | ].
  destruct t as [ | c t].
  - cbn [match_all_from]. rewrite code_match_here_gap by reflexivity. reflexivity.
  - simpl in Hn, Hf. destruct (is_word c) eqn:C.
    + (* the start of a word *)
      assert (Hp : is_word_at p = false).
      { destruct Hpre as [Hp | Hend]; [exact Hp | ]. simpl in Hend. congruence. }
      destruct (split_run is_word (c :: t)) as (w & z & Ht & Hw & Hz).
      assert (Hne : w <> []).
      { intros ->. simpl in Ht. subst z. simpl in Hz. congruence. }
      assert (Hend : word_end z) by (destruct z; assumption).
      assert (Hlen : length (c :: t) = (length w + length z)%nat)
        by (rewrite Ht; apply length_app).
      simpl in Hlen.
      rewrite Ht, (words_word w z Hne Hw Hend).
      cbn [match_all_from].
      rewrite (code_match_here p w z Hp Hne Hw Hend).
      cbn [filter].
      destruct (is_code w) eqn:K.
      * rewrite (consumed_app _ _ w) by reflexivity.
        destruct w as [ | c' w']; [congruence | ].
        cbn [prev rest]. f_equal.
        apply IH; [simpl in Hlen; lia | simpl in Hlen; lia | right; exact Hend].
      * destruct w as [ | c' w']; [congruence | ].
        cbn [app]. simpl in Hw. apply andb_true_iff in Hw. destruct Hw as [Hc' Hw'].
        simpl in Hlen.
        replace f with (length w' + (f - length w'))%nat by lia.
        rewrite (code_skip_word z _ w' c' Hc' Hw').
        apply IH; [lia | lia | right; exact Hend].
    + cbn [match_all_from]. rewrite code_match_here_gap by (simpl; exact C).
      rewrite (words_gap c t C).
      apply IH; [lia | lia | left; exact C].
Qed.

(** ** C7 *)

(** C7: the keywords are exactly the words of the text (its maximal runs of
    letters, digits and underscores) that are one upper-case letter
    followed by one or more upper-case letters, digits or underscores, and
    that are at least four characters long; they come in their order in the
    text, a word as many times as it occurs, with no change of letter
    case. *)
Theorem keywords_are_long_codes (t : text) :
  keywords (extractErrorFeatures t)
  = filter (fun k => (3 <? length k)%nat) (filter is_code (words t)).
Proof.
  unfold extractErrorFeatures. cbn [keywords]. unfold match_global.
  rewrite (code_match_all (S (length t)) t (Nat.lt_succ_diag_r _)
             (S (length t)) None (Nat.lt_succ_diag_r _) (or_introl eq_refl)).
  destruct (filter is_code (words t)); reflexivity.
Qed.

(** * The scenarios of the test suite, run on the model *)

Example detects_non_zero_exit_code :
  detectBashError (num := Z) (lit "Bash")
    (JString (lit "Error: command not found" ++ [10] ++ lit "Exit code: 1"))
  = Ok (mkResult true
          (Some (lit "Error: command not found" ++ [10] ++ lit "Exit code: 1"))
          (Some (Fin 1))).
Proof. vm_compute. reflexivity. Qed.

Example detects_exited_with_code :
  detectBashError (num := Z) (lit "Bash") (JString (lit "Process exited with code 127"))
  = Ok (mkResult true (Some (lit "Process exited with code 127")) (Some (Fin 127))).
Proof. vm_compute. reflexivity. Qed.

Example does_not_flag_exit_code_zero :
  detectBashError (num := Z) (lit "Bash")
    (JString (lit "Success" ++ [10] ++ lit "Exit code: 0"))
  = Ok (mkResult false None None).
Proof. vm_compute. reflexivity. Qed.

Example does_not_flag_success :
  detectBashError (num := Z) (lit "Bash") (JString (lit "Success output"))
  = Ok (mkResult false None None).
Proof. vm_compute. reflexivity. Qed.

Example ignores_other_tools :
  detectBashError (num := Z) (lit "Read") (JString (lit "Error: file not found"))
  = Ok (mkResult false None None).
Proof. vm_compute. reflexivity. Qed.

Example detects_keywords :
  map (fun t => isError (classify_text t))
    [lit "error: something went wrong"; lit "npm ERR! code ENOENT"; lit "Build failed"]
  = [true; true; true].
Proof. vm_compute. reflexivity. Qed.

Example extracts_error_types :
  map (fun t => errorType (extractErrorFeatures t))
    [lit "TypeError: Cannot read property"; lit "SyntaxError: Unexpected token";
     lit "npm ERR! code ENOENT"; lit "Some random error message"]
  = [lit "TypeError"; lit "SyntaxError"; lit "npm"; lit "unknown"].
Proof. vm_compute. reflexivity. Qed.

Example extracts_file_path :
  filePath (extractErrorFeatures (lit "Error: Cannot find /usr/local/bin/node"))
  = Some (lit "/usr/local/bin/node").
Proof. vm_compute. reflexivity. Qed.

Example extracts_keywords :
  keywords (extractErrorFeatures (lit "EACCES: permission denied EPERM"))
  = [lit "EACCES"; lit "EPERM"]
  /\ keywords (extractErrorFeatures (lit "npm ERR! code ENOENT")) = [lit "ENOENT"]
  /\ keywords (extractErrorFeatures (lit "ERR ABC LONGCODE")) = [lit "LONGCODE"].
Proof. repeat split; vm_compute; reflexivity. Qed.

Example keeps_repeated_codes :
  keywords (extractErrorFeatures (lit "ERR ABC LONGCODE abcd E2BIG_ xENOENT EPERM: EPERM"))
  = [lit "LONGCODE"; lit "E2BIG_"; lit "EPERM"; lit "EPERM"]
  /\ words (lit "ERR ABC LONGCODE abcd E2BIG_ xENOENT EPERM: EPERM")
     = [lit "ERR"; lit "ABC"; lit "LONGCODE"; lit "abcd"; lit "E2BIG_"; lit "xENOENT";
        lit "EPERM"; lit "EPERM"].
Proof. split; vm_compute; reflexivity. Qed.

Example parseInt_rounds :
  parseInt (lit "9007199254740995") = Fin 9007199254740996
  /\ parseInt (lit "  -42px") = Fin (-42)
  /\ parseInt (lit "0x1f") = Fin 31
  /\ parseInt (lit "undefined") = NaN
  /\ parseInt (lit "007") = Fin 7.
Proof. repeat split; vm_compute; reflexivity. Qed.

(** * Further properties of the handler *)

Section HandlerFacts.

Context {num : Type} `{NumberOps num}.

Lemma serialize_some (v : JSValue num) :
  no_bigint v = true -> v <> JUndefined -> v <> JSymbol -> v <> JFunction ->
  exists t, stringify_body v = Ok t.
Proof.
  intros Hb Hu Hs Hf. unfold stringify_body, stringify.
  destruct (serialize_no_bigint v Hb) as ([t | ] & E); rewrite E; simpl; eauto.
  apply serialize_none in E. destruct E as [E | [E | E]]; contradiction.
Qed.

Lemma js_string_no_bigint (s : option text) : no_bigint (js_string (num := num) s) = true.
Proof. destruct s; reflexivity. Qed.

Lemma strings_no_bigint (ks : list text) :
  forallb no_bigint (map (fun k => JString (num := num) k) ks) = true.
Proof. induction ks as [ | k ks IH]; simpl; auto. Qed.

Lemma or_empty_json_data (v : JSValue num) :
  json_data v = true -> json_data (or_empty v) = true.
Proof.
  intros Hj. unfold or_empty. destruct (truthy v); [exact Hj | reflexivity].
Qed.

(** The learning block sends at most an error record and a query, and only
    the serialization of the record can make it throw. *)
Lemma learn_from_error_outcome (w : World) (input : NormalizedHookInput)
  (port : N) (r : ErrorDetectionResult) :
  no_bigint (toolInput input) = true ->
  exists tr, learn_from_error w input port r = (tr, Ok tt).
Proof.
  intros Hb. unfold learn_from_error.
  match goal with
  | |- context [stringify_body ?v] =>
      destruct (serialize_some v) as (body & ->); try discriminate
  end.
  { cbn [no_bigint]. rewrite !js_string_no_bigint, strings_no_bigint, Hb. reflexivity. }
  simpl.
  destruct (fetch_error w body) as [resp | e]; simpl.
  - destruct (well_formed _); simpl; [ | eauto].
    destruct (fetch_similar w _) as [[resp' json] | e]; simpl; [ | eauto].
    destruct (ok resp'); simpl; [ | eauto].
    destruct json as [[[ | e es] | ] | e]; simpl; eauto.
  - destruct (well_formed _); simpl; [ | eauto].
    destruct (fetch_similar w _) as [[resp' json] | e']; simpl; [ | eauto].
    destruct (ok resp'); simpl; [ | eauto].
    destruct json as [[[ | e' es] | ] | e']; simpl; eauto.
Qed.

Lemma learn_from_error_events (w : World) (input : NormalizedHookInput)
  (port : N) (r : ErrorDetectionResult) (ev : Event) :
  In ev (fst (learn_from_error w input port r)) ->
  match ev with
  | PostError p _ | GetSimilar p _ => p = port
  | LogDebug _ | ConsoleLog _ => True
  | _ => False
  end.
Proof.
  unfold learn_from_error.
  match goal with
  | |- context [stringify_body ?v] => destruct (stringify_body v) as [body | e]
  end; simpl; [ | tauto].
  destruct (fetch_error w body) as [resp | e]; simpl;
    (destruct (well_formed _); simpl;
     [ destruct (fetch_similar w _) as [[resp' json] | e']; simpl;
       [ destruct (ok resp'); simpl;
         [ destruct json as [[[ | e' es] | ] | e']; simpl | ] | ] | ]);
    intros Hin;
    repeat (destruct Hin as [<- | Hin]; [try reflexivity; exact I | ]);
    destruct Hin.
Qed.

Lemma keyword_log_events (name : text) (v : JSValue num) (ev : Event) :
  In ev (fst (keyword_log name v)) -> exists msg, ev = LogDebug msg.
Proof.
  unfold keyword_log.
  destruct (Text.eqb name (lit "Bash")); [ | intros []].
  destruct (response_text v) as [t | e]; [ | intros []].
  destruct (exit_code_scan EXIT_CODE_PATTERNS t); [intros [] | ].
  destruct (keyword_scan ERROR_KEYWORD_PATTERNS t); [ | intros []].
  intros [<- | []]. eauto.
Qed.

Lemma keyword_log_ok (name : text) (v : JSValue num) :
  snd (keyword_log name v) = Ok tt.
Proof.
  unfold keyword_log.
  destruct (Text.eqb name (lit "Bash")); [ | reflexivity].
  destruct (response_text v) as [t | e]; [ | reflexivity].
  destruct (exit_code_scan EXIT_CODE_PATTERNS t); [reflexivity | ].
  destruct (keyword_scan ERROR_KEYWORD_PATTERNS t); reflexivity.
Qed.

(** A response that is falsy in JavaScript is scanned as the empty text and
    is never an error. *)
Lemma falsy_response_not_flagged (name : text) (v : JSValue num) :
  truthy v = false ->
  detectBashError name (or_empty v) = Ok (mkResult false None None).
Proof.
  intros Hv. unfold or_empty. rewrite Hv. unfold detectBashError.
  destruct (negb (Text.eqb name (lit "Bash"))); reflexivity.
Qed.

Lemma json_data_no_bigint (v : JSValue num) : json_data v = true -> no_bigint v = true.
Proof. destruct v; simpl; auto; discriminate. Qed.

(** The body of the observation request is there whenever neither the tool
    input nor the tool response holds a BigInt. *)
Lemma observation_body_exists (input : NormalizedHookInput) (name : text) :
  no_bigint (toolInput input) = true ->
  no_bigint (toolResponse input) = true ->
  exists body,
    stringify_body (JObject
      [ (lit "contentSessionId", js_string (sessionId input));
        (lit "tool_name", JString name);
        (lit "tool_input", toolInput input);
        (lit "tool_response", toolResponse input);
        (lit "cwd", js_string (cwd input)) ]) = Ok body.
Proof.
  intros Hi Hr. apply serialize_some; try discriminate.
  cbn [no_bigint]. rewrite !js_string_no_bigint, Hi, Hr. reflexivity.
Qed.

(** X1: once the observation is stored, nothing that goes wrong while the error
    is recorded or similar errors are looked up makes the handler fail: it
    returns [{continue: true, suppressOutput: true}] whatever the worker answers
    to these two requests. *)
Theorem learning_failures_do_not_fail_hook
  (w : World) (input : NormalizedHookInput) :
  ensureWorkerRunning w = Ok tt ->
  missing (toolName input) = false ->
  missing (cwd input) = false ->
  no_bigint (toolInput input) = true ->
  json_data (toolResponse input) = true ->
  (forall body, exists resp, fetch_observation w body = Ok resp /\ ok resp = true) ->
  snd (execute w input) = Ok (mkHookResult true true).
Proof.
  intros Hw Hn Hc Hi Hr Hf. unfold execute. rewrite Hw, Hn, Hc.
  destruct (observation_body_exists input (show (toolName input)) Hi
              (json_data_no_bigint _ Hr)) as (body & Hb).
  rewrite Hb. destruct (Hf body) as (resp & Hresp & Hok).
  cbn [emit lift seq throw ret app fst snd]. rewrite Hresp.
  cbn [seq app]. rewrite Hok. cbn [negb seq app].
  pose proof (keyword_log_ok (show (toolName input)) (or_empty (toolResponse input))) as Hk.
  destruct (keyword_log _ _) as [trk ok]. simpl in Hk. subst ok.
  destruct (detect_total (show (toolName input)) (or_empty (toolResponse input))
              (or_empty_json_data _ Hr)) as (r & Hd).
  rewrite Hd. cbn [lift seq app].
  destruct (isError r).
  - destruct (learn_from_error_outcome w input (getWorkerPort w) r Hi) as (tr & ->).
    reflexivity.
  - reflexivity.
Qed.

(** Where the events of the learning block can come from: the tool is
    "Bash", its response was classified as an error, and the observation
    was posted, and stored, earlier in the same run. *)
Lemma learning_event_origin (w : World) (input : NormalizedHookInput) (ev : Event) :
  In ev (fst (execute w input)) ->
  match ev with PostError _ _ | GetSimilar _ _ | ConsoleLog _ => True | _ => False end ->
  toolName input = Some (lit "Bash")
  /\ missing (cwd input) = false
  /\ (exists r, detectBashError (lit "Bash") (or_empty (toolResponse input)) = Ok r
                /\ isError r = true)
  /\ (exists pre body mid post resp,
        fst (execute w input)
        = pre ++ PostObservation (getWorkerPort w) body :: mid ++ ev :: post
        /\ fetch_observation w body = Ok resp /\ ok resp = true).
Proof.
  unfold execute.
  destruct (ensureWorkerRunning w) as [[] | e]; cbn [emit lift seq app fst].
  2:{ intros [<- | []] []. }
  destruct (missing (toolName input)) eqn:Hn; cbn [throw seq app fst].
  { intros [<- | []] []. }
  destruct (missing (cwd input)) eqn:Hc; cbn [emit throw seq app fst].
  { intros [<- | [<- | []]] []. }
  match goal with
  | |- context [stringify_body ?v] => destruct (stringify_body v) as [body | e]
  end; cbn [lift seq app fst].
  2:{ intros [<- | [<- | []]] []. }
  destruct (fetch_observation w body) as [resp | e] eqn:Hf; cbn [emit lift seq app fst].
  2:{ intros [<- | [<- | [<- | []]]] []. }
  destruct (ok resp) eqn:Hok; cbn [negb throw emit seq app fst].
  2:{ intros [<- | [<- | [<- | []]]] []. }
  pose proof (keyword_log_events (show (toolName input)) (or_empty (toolResponse input)))
    as Hk.
  destruct (keyword_log _ _) as [trk [[] | e]]; cbn [seq app fst snd] in *.
  2:{ intros [<- | [<- | [<- | [<- | Hin]]]] Hev; try destruct Hev.
      destruct (Hk ev Hin) as (msg & ->). destruct Hev. }
  destruct (detectBashError (show (toolName input)) (or_empty (toolResponse input)))
    as [r | e] eqn:Hd; cbn [lift seq app fst].
  2:{ rewrite app_nil_r. intros [<- | [<- | [<- | [<- | Hin]]]] Hev; try destruct Hev.
      destruct (Hk ev Hin) as (msg & ->). destruct Hev. }
  destruct (isError r) eqn:Hr.
  2:{ cbn [ret seq app fst]. rewrite app_nil_r.
      intros [<- | [<- | [<- | [<- | Hin]]]] Hev; try destruct Hev.
      destruct (Hk ev Hin) as (msg & ->). destruct Hev. }
  intros Hin Hev.
  assert (Hname : show (toolName input) = lit "Bash").
  { unfold detectBashError in Hd.
    destruct (Text.eqb (show (toolName input)) (lit "Bash")) eqn:E.
    - apply text_eqb_eq in E. exact E.
    - simpl in Hd. injection Hd as <-. discriminate Hr. }
  assert (Htool : toolName input = Some (lit "Bash")).
  { destruct (toolName input) as [[ | c n] | ]; try discriminate Hn.
    simpl in Hname. rewrite Hname. reflexivity. }
  split; [exact Htool | ]. split; [reflexivity | ].
  split.
  { exists r. rewrite <- Hname. auto. }
  destruct (learn_from_error w input (getWorkerPort w) r) as [trl [[] | e]];
    cbn [ret seq app fst] in *; repeat rewrite app_nil_r in *;
    (destruct Hin as [<- | [<- | [<- | [<- | Hin]]]]; try contradiction);
    (apply in_app_or in Hin; destruct Hin as [Hin | Hin];
     [destruct (Hk ev Hin) as (msg & ->); contradiction | ]);
    apply in_split in Hin; destruct Hin as (l1 & l2 & ->);
    exists [EnsureWorker;
            LogDataIn (lit "PostToolUse: "
                       ++ formatTool w (show (toolName input)) (toolInput input))],
           body, (LogDebug (lit "Observation sent successfully") :: trk ++ l1), l2, resp;
    (split; [ | auto]); cbn [app]; rewrite <- app_assoc; reflexivity.
Qed.

End HandlerFacts.

Lemma learning_failures_do_not_fail_hook_witness :
  let w := mkWorld (num := Z) (Ok tt) 37777 (fun name _ => name)
             (fun _ => Ok (mkResponse true (lit "200")))
             (fun _ => Throw (Error (lit "fetch failed")))
             (fun _ => Throw (Error (lit "fetch failed"))) in
  let input := mkInput (Some (lit "s1")) (Some (lit "/repo")) (Some (lit "Bash"))
                 (JString (lit "make")) (JString (lit "make: exit code: 2")) in
  snd (execute w input) = Ok (mkHookResult true true)
  /\ In (LogDebug (lit "Error storage failed")) (fst (execute w input))
  /\ In (LogDebug (lit "Similar error query failed")) (fst (execute w input)).
Proof.
  intros w input. split.
  - apply (learning_failures_do_not_fail_hook w input); try reflexivity.
    intros body. exists (mkResponse true (lit "200")). split; reflexivity.
  - split; vm_compute; tauto.
Defined.

(** X2: an error record, a similar-error query or a hint on the console
    can only follow a "Bash" response classified as an error, and it comes
    later in the run than the post of the observation, which the worker
    answered with a success. *)
Theorem error_learning_requires_stored_bash_error {num : Type} `{NumberOps num}
  (w : World) (input : NormalizedHookInput) (ev : Event) :
  In ev (fst (execute w input)) ->
  match ev with PostError _ _ | GetSimilar _ _ | ConsoleLog _ => True | _ => False end ->
  toolName input = Some (lit "Bash")
  /\ missing (cwd input) = false
  /\ (exists r, detectBashError (lit "Bash") (or_empty (toolResponse input)) = Ok r
                /\ isError r = true)
  /\ (exists pre body mid post resp,
        fst (execute w input)
        = pre ++ PostObservation (getWorkerPort w) body :: mid ++ ev :: post
        /\ fetch_observation w body = Ok resp /\ ok resp = true).
Proof. apply learning_event_origin. Qed.

Lemma error_learning_requires_stored_bash_error_witness :
  let w := mkWorld (num := Z) (Ok tt) 37777 (fun name _ => name)
             (fun _ => Ok (mkResponse true (lit "200")))
             (fun _ => Ok (mkResponse true (lit "200")))
             (fun _ => Ok (mkResponse true (lit "200"), Ok (Some [Some (lit "Old failure")]))) in
  let input := mkInput (Some (lit "s1")) (Some (lit "/repo")) (Some (lit "Bash"))
                 (JString (lit "make")) (JString (lit "make: exit code: 2")) in
  let ev := GetSimilar 37777 (lit "make: exit code: 2") in
  In ev (fst (execute w input))
  /\ toolName input = Some (lit "Bash")
  /\ missing (cwd input) = false
  /\ (exists r, detectBashError (lit "Bash") (or_empty (toolResponse input)) = Ok r
                /\ isError r = true)
  /\ (exists pre body mid post resp,
        fst (execute w input)
        = pre ++ PostObservation (getWorkerPort w) body :: mid ++ ev :: post
        /\ fetch_observation w body = Ok resp /\ ok resp = true).
Proof.
  intros w input ev.
  assert (Hin : In ev (fst (execute w input))).
  { vm_compute. tauto. }
  split; [exact Hin | ].
  exact (error_learning_requires_stored_bash_error w input ev Hin I).
Defined.

(** X3: a tool response that is falsy in JavaScript (absent, [null], [false], a
    zero, the empty string) reaches the classifier as the empty string: it is
    never an error, and the handler then sends no error record and no
    similar-error query. *)
Theorem falsy_response_never_learned {num : Type} `{NumberOps num}
  (w : World) (input : NormalizedHookInput) :
  truthy (toolResponse input) = false ->
  (forall name, detectBashError name (or_empty (toolResponse input))
                = Ok (mkResult false None None))
  /\ (forall ev, In ev (fst (execute w input)) ->
                 match ev with
                 | PostError _ _ | GetSimilar _ _ | ConsoleLog _ => False
                 | _ => True
                 end).
Proof.
  intros Hv. split.
  - intros name. apply falsy_response_not_flagged, Hv.
  - intros ev Hin.
    assert (Hno : match ev with
                  | PostError _ _ | GetSimilar _ _ | ConsoleLog _ => True
                  | _ => False
                  end -> False).
    { intros Hev.
      destruct (learning_event_origin w input ev Hin Hev) as (_ & _ & (r & Hd & Hr) & _).
      rewrite (falsy_response_not_flagged _ _ Hv) in Hd. injection Hd as <-.
      discriminate Hr. }
    destruct ev; try exact I; apply Hno; exact I.
Qed.

Lemma falsy_response_never_learned_witness :
  let w := mkWorld (num := Z) (Ok tt) 37777 (fun name _ => name)
             (fun _ => Ok (mkResponse true (lit "200")))
             (fun _ => Ok (mkResponse true (lit "200")))
             (fun _ => Ok (mkResponse true (lit "200"), Ok None)) in
  let input := mkInput (Some (lit "s1")) (Some (lit "/repo")) (Some (lit "Bash"))
                 (JString (lit "true")) (JNumber 0%Z) in
  detectBashError (lit "Bash") (or_empty (toolResponse input))
  = Ok (mkResult false None None)
  /\ forall ev, In ev (fst (execute w input)) ->
                match ev with
                | PostError _ _ | GetSimilar _ _ | ConsoleLog _ => False
                | _ => True
                end.
Proof.
  intros w input.
  assert (Hv : truthy (toolResponse input) = false) by reflexivity.
  destruct (falsy_response_never_learned w input Hv) as (Hd & Hev).
  split; [apply Hd | exact Hev].
Defined.

(** X4: when the worker answers the observation request with a status that is
    not a success, the handler throws the storage error right after that
    request: the response is not classified and nothing is learned from it. *)
Theorem storage_failure_stops_handler {num : Type} `{NumberOps num}
  (w : World) (input : NormalizedHookInput) (body : text) (resp : Response) :
  ensureWorkerRunning w = Ok tt ->
  missing (toolName input) = false ->
  missing (cwd input) = false ->
  stringify (JObject
    [ (lit "contentSessionId", js_string (sessionId input));
      (lit "tool_name", JString (show (toolName input)));
      (lit "tool_input", toolInput input);
      (lit "tool_response", toolResponse input);
      (lit "cwd", js_string (cwd input)) ]) = Ok (Some body) ->
  fetch_observation w body = Ok resp ->
  ok resp = false ->
  execute w input
  = ([EnsureWorker;
      LogDataIn (lit "PostToolUse: "
                 ++ formatTool w (show (toolName input)) (toolInput input));
      PostObservation (getWorkerPort w) body],
     Throw (Error (lit "Observation storage failed: " ++ status resp))).
Proof.
  intros Hw Hn Hc Hb Hf Hok. unfold execute, stringify_body.
  rewrite Hw, Hn, Hc, Hb. cbn [emit lift seq throw app bind]. rewrite Hf.
  cbn [seq app]. rewrite Hok. reflexivity.
Qed.

Lemma storage_failure_stops_handler_witness :
  let w := mkWorld (num := Z) (Ok tt) 37777 (fun name _ => name)
             (fun _ => Ok (mkResponse false (lit "500")))
             (fun _ => Ok (mkResponse true (lit "200")))
             (fun _ => Ok (mkResponse true (lit "200"), Ok None)) in
  let input := mkInput None (Some (lit "/repo")) (Some (lit "Bash"))
                 (JString (lit "ls")) (JString (lit "exit code: 2")) in
  snd (execute w input) = Throw (Error (lit "Observation storage failed: 500"))
  /\ length (fst (execute w input)) = 3%nat.
Proof.
  intros w input.
  destruct (stringify (JObject
    [ (lit "contentSessionId", js_string (sessionId input));
      (lit "tool_name", JString (show (toolName input)));
      (lit "tool_input", toolInput input);
      (lit "tool_response", toolResponse input);
      (lit "cwd", js_string (cwd input)) ])) as [[body | ] | e] eqn:Hb;
    try (vm_compute in Hb; discriminate Hb).
  rewrite (storage_failure_stops_handler w input body (mkResponse false (lit "500"))
             eq_refl eq_refl eq_refl Hb eq_refl eq_refl).
  split; reflexivity.
Defined.

(** X5: whatever the handler logs or sends besides the call of
    [ensureWorkerRunning] comes after that call succeeded and the tool name was
    found; every request goes to the worker's port and is sent only when the
    working directory is known, the first log line alone coming before that
    check. *)
Theorem nothing_sent_before_checks {num : Type} `{NumberOps num}
  (w : World) (input : NormalizedHookInput) (ev : Event) :
  In ev (fst (execute w input)) ->
  ev <> EnsureWorker ->
  ensureWorkerRunning w = Ok tt
  /\ missing (toolName input) = false
  /\ match ev with
     | LogDataIn _ => True
     | PostObservation p _ | PostError p _ | GetSimilar p _ =>
         p = getWorkerPort w /\ missing (cwd input) = false
     | _ => missing (cwd input) = false
     end.
Proof.
  unfold execute.
  destruct (ensureWorkerRunning w) as [[] | e]; cbn [emit lift seq app fst].
  2:{ intros [<- | []] Hne. contradiction. }
  destruct (missing (toolName input)) eqn:Hn; cbn [throw seq app fst].
  { intros [<- | []] Hne. contradiction. }
  destruct (missing (cwd input)) eqn:Hc; cbn [emit throw seq app fst].
  { intros [<- | [<- | []]] Hne; [contradiction | auto]. }
  match goal with
  | |- context [stringify_body ?v] => destruct (stringify_body v) as [body | e]
  end; cbn [lift seq app fst].
  2:{ intros [<- | [<- | []]] Hne; [contradiction | auto]. }
  destruct (fetch_observation w body) as [resp | e]; cbn [emit lift seq app fst].
  2:{ intros [<- | [<- | [<- | []]]] Hne; [contradiction | auto | auto]. }
  destruct (ok resp); cbn [negb throw emit seq app fst].
  2:{ intros [<- | [<- | [<- | []]]] Hne; [contradiction | auto | auto]. }
  pose proof (keyword_log_events (show (toolName input)) (or_empty (toolResponse input)))
    as Hk.
  assert (Hlearn : forall r x,
             In x (fst (learn_from_error w input (getWorkerPort w) r)) ->
             match x with
             | LogDataIn _ => True
             | PostObservation p _ | PostError p _ | GetSimilar p _ =>
                 p = getWorkerPort w /\ false = false
             | _ => false = false
             end).
  { intros r x Hx. apply learn_from_error_events in Hx.
    destruct x; try contradiction; auto. }
  destruct (keyword_log _ _) as [trk [[] | e]]; cbn [seq app fst snd] in *.
  2:{ intros [<- | [<- | [<- | [<- | Hin]]]] Hne; [contradiction | auto .. | ].
      destruct (Hk ev Hin) as (msg & ->). auto. }
  destruct (detectBashError (show (toolName input)) (or_empty (toolResponse input)))
    as [r | e]; cbn [lift seq app fst].
  2:{ rewrite app_nil_r. intros [<- | [<- | [<- | [<- | Hin]]]] Hne;
        [contradiction | auto .. | ].
      destruct (Hk ev Hin) as (msg & ->). auto. }
  destruct (isError r).
  2:{ cbn [ret seq app fst]. rewrite app_nil_r.
      intros [<- | [<- | [<- | [<- | Hin]]]] Hne; [contradiction | auto .. | ].
      destruct (Hk ev Hin) as (msg & ->). auto. }
  pose proof (Hlearn r) as Hl.
  destruct (learn_from_error w input (getWorkerPort w) r) as [trl [[] | e]];
    cbn [ret seq app fst] in *; try rewrite app_nil_r;
    intros [<- | [<- | [<- | [<- | Hin]]]] Hne; try contradiction; auto;
    (apply in_app_or in Hin; destruct Hin as [Hin | Hin];
     [destruct (Hk ev Hin) as (msg & ->); auto | ]);
    (split; [reflexivity | split; [reflexivity | exact (Hl ev Hin)]]).
Qed.

Lemma nothing_sent_before_checks_witness :
  let w := mkWorld (num := Z) (Ok tt) 37777 (fun name _ => name)
             (fun _ => Ok (mkResponse true (lit "200")))
             (fun _ => Ok (mkResponse true (lit "200")))
             (fun _ => Ok (mkResponse true (lit "200"), Ok None)) in
  let input := mkInput (Some (lit "s1")) (Some (lit "/tmp")) (Some (lit "Bash"))
                 (JString (lit "make")) (JString (lit "make: exit code: 2")) in
  In (GetSimilar 37777 (lit "make: exit code: 2")) (fst (execute w input))
  /\ ensureWorkerRunning w = Ok tt
  /\ missing (toolName input) = false
  /\ 37777 = getWorkerPort w /\ missing (cwd input) = false.
Proof.
  intros w input.
  assert (Hin : In (GetSimilar 37777 (lit "make: exit code: 2")) (fst (execute w input))).
  { vm_compute. tauto. }
  split; [exact Hin | ].
  apply (nothing_sent_before_checks w input _ Hin). discriminate.
Defined.

(** * The matcher and the patterns it accepts *)

Section Adequacy.

Variable ic : bool.

Lemma repeat_sound (a : Regex) :
  (forall s k x, m ic a s k = Some x ->
                 exists s', matches ic a s s' /\ k s' = Some x) ->
  forall n s k x, repeat (m ic a) n s k = Some x ->
                  exists s', matches ic (RStar a) s s' /\ k s' = Some x.
Proof.
  intros Ha. induction n as [ | n IH]; intros s k x; simpl.
  - intros E. exists s. split; [constructor | exact E].
  - destruct (m ic a s _) as [r | ] eqn:E.
    + intros [= ->]. apply Ha in E. destruct E as (s1 & H1 & E).
      destruct (Nat.ltb_spec (length (rest s1)) (length (rest s))) as [Hlt | ];
        [ | discriminate].
      apply IH in E. destruct E as (s2 & H2 & E).
      exists s2. split; [ | exact E]. eapply M_star_more; eauto.
    + intros E'. exists s. split; [constructor | exact E'].
Qed.

Lemma step_sound (ok : char16 -> bool) (s : State) (k : Cont) (x : State) :
  step ok s k = Some x ->
  exists c t, rest s = c :: t /\ ok c = true /\ k (mkState (Some c) t (caps s)) = Some x.
Proof.
  unfold step. destruct (rest s) as [ | c t]; [discriminate | ].
  destruct (ok c) eqn:C; [ | discriminate]. intros E. exists c, t. auto.
Qed.

(** What the matcher returns comes from a match of the pattern. *)
Theorem m_sound (r : Regex) :
  forall s k x, m ic r s k = Some x ->
                exists s', matches ic r s s' /\ k s' = Some x.
Proof.
  induction r as [ | p | | atoms | a IHa b IHb | a IHa b IHb | a IHa | a IHa
                   | a IHa | n a IHa | ]; intros s k x; simpl.
  - intros E. exists s. split; [constructor | exact E].
  - intros E. apply step_sound in E. destruct E as (c & t & R & C & E).
    eexists. split; [eapply M_char; eassumption | exact E].
  - intros E. apply step_sound in E. destruct E as (c & t & R & C & E).
    apply negb_true_iff in C.
    eexists. split; [eapply M_dot; eassumption | exact E].
  - intros E. apply step_sound in E. destruct E as (c & t & R & C & E).
    eexists. split; [eapply M_class; eassumption | exact E].
  - intros E. apply IHa in E. destruct E as (s1 & H1 & E).
    apply IHb in E. destruct E as (s2 & H2 & E).
    exists s2. split; [econstructor; eauto | exact E].
  - destruct (m ic a s k) eqn:E.
    + intros [= ->]. apply IHa in E. destruct E as (s' & H1 & E).
      exists s'. split; [apply M_alt_left, H1 | exact E].
    + intros E'. apply IHb in E'. destruct E' as (s' & H1 & E').
      exists s'. split; [apply M_alt_right, H1 | exact E'].
  - apply repeat_sound, IHa.
  - intros E. apply IHa in E. destruct E as (s1 & H1 & E).
    apply (repeat_sound a IHa) in E. destruct E as (s2 & H2 & E).
    exists s2. split; [econstructor; eauto | exact E].
  - destruct (m ic a s _) eqn:E.
    + intros [= ->]. apply IHa in E. destruct E as (s' & H1 & E).
      destruct (Nat.ltb_spec (length (rest s')) (length (rest s))) as [Hlt | ];
        [ | discriminate].
      exists s'. split; [apply M_opt_take; assumption | exact E].
    + intros E'. exists s. split; [constructor | exact E'].
  - intros E. apply IHa in E. destruct E as (s' & H1 & E).
    eexists. split; [apply M_group, H1 | exact E].
  - destruct (xorb _ _) eqn:B; [ | discriminate].
    intros E. exists s. split; [constructor; exact B | exact E].
Qed.

Lemma matches_shrinks (r : Regex) (s s' : State) :
  matches ic r s s' -> (length (rest s') <= length (rest s))%nat.
Proof.
  induction 1; simpl; try lia.
  - rewrite H. simpl. lia.
  - rewrite H. simpl. lia.
  - rewrite H. simpl. lia.
Qed.

Lemma repeat_complete (a : Regex) :
  (forall s s', matches ic a s s' -> forall k, k s' <> None -> m ic a s k <> None) ->
  forall s s', matches ic (RStar a) s s' ->
  forall n k, (length (rest s) <= n)%nat -> k s' <> None ->
              repeat (m ic a) n s k <> None.
Proof.
  intros Ha s s' Hm. remember (RStar a) as r eqn:Hr.
  induction Hm as [ | | | | | | | a' s | a' s s1 s2 H1 _ Hlt H2 IH2 | | | | | ];
    try discriminate Hr; injection Hr as ->; intros n k Hn Hk.
  - destruct n as [ | n]; simpl; [exact Hk | ].
    destruct (m ic a s _); [discriminate | exact Hk].
  - destruct n as [ | n]; [lia | ]. simpl.
    destruct (m ic a s _) eqn:E; [discriminate | ].
    exfalso. revert E. apply (Ha s s1 H1).
    rewrite (proj2 (Nat.ltb_lt _ _) Hlt).
    apply (IH2 eq_refl); [lia | exact Hk].
Qed.

(** Whenever the pattern has a match that the continuation accepts, the
    matcher returns something. *)
Theorem m_complete (r : Regex) :
  forall s s', matches ic r s s' -> forall k, k s' <> None -> m ic r s k <> None.
Proof.
  induction r as [ | p | | atoms | a IHa b IHb | a IHa b IHb | a IHa | a IHa
                   | a IHa | n a IHa | ]; intros s s' Hm k Hk;
    inversion Hm; subst; simpl;
    try (unfold step;
         match goal with R : rest _ = _ :: _ |- _ => rewrite R end;
         match goal with C : _ = _ :> bool |- _ => rewrite C end;
         exact Hk).
  - exact Hk.
  - match goal with
    | H1 : matches _ a _ ?s1, H2 : matches _ b ?s1 _ |- _ =>
        apply (IHa _ _ H1); apply (IHb _ _ H2), Hk
    end.
  - match goal with |- match ?e with _ => _ end <> None => destruct e eqn:E end; [discriminate | ].
    exfalso. revert E.
    match goal with H1 : matches _ a _ _ |- _ => apply (IHa _ _ H1), Hk end.
  - match goal with |- match ?e with _ => _ end <> None => destruct e end; [discriminate | ].
    match goal with H1 : matches _ b _ _ |- _ => apply (IHb _ _ H1), Hk end.
  - apply (repeat_complete a IHa _ _ Hm); [lia | exact Hk].
  - apply (repeat_complete a IHa _ _ Hm); [lia | exact Hk].
  - match goal with
    | H1 : matches _ a _ ?s1, H2 : matches _ (RStar a) ?s1 _ |- _ =>
        apply (IHa _ _ H1); apply (repeat_complete a IHa _ _ H2); [lia | exact Hk]
    end.
  - match goal with |- match ?e with _ => _ end <> None => destruct e end; [discriminate | exact Hk].
  - match goal with |- match ?e with _ => _ end <> None => destruct e eqn:E end; [discriminate | ].
    exfalso. revert E.
    match goal with
    | H1 : matches _ a _ _, H2 : (_ < _)%nat |- _ =>
        apply (IHa _ _ H1); rewrite (proj2 (Nat.ltb_lt _ _) H2); exact Hk
    end.
  - match goal with H1 : matches _ a _ _ |- _ => apply (IHa _ _ H1); exact Hk end.
  - match goal with B : xorb _ _ = true |- _ => rewrite B end. exact Hk.
Qed.

End Adequacy.

(** ** Searching *)

Lemma before_app (p : option char16) (a : text) (c : char16) :
  before p (a ++ [c]) = Some c.
Proof. unfold before. rewrite fold_left_app. reflexivity. Qed.

Lemma search_match (re : RegExp) :
  forall t p i mt, search re p t i = Some mt ->
    exists a b s', t = a ++ b
                   /\ match_here re (before p a) b = Some s'
                   /\ groups mt = caps s'.
Proof.
  induction t as [ | c t IH]; intros p i mt; simpl.
  - destruct (match_here re p []) as [s' | ] eqn:E; [ | discriminate].
    intros [= <-]. exists [], [], s'. auto.
  - destruct (match_here re p (c :: t)) as [s' | ] eqn:E.
    + intros [= <-]. exists [], (c :: t), s'. auto.
    + intros Hs. apply IH in Hs. destruct Hs as (a & b & s' & -> & Hm & Hg).
      exists (c :: a), b, s'. auto.
Qed.

Lemma search_complete (re : RegExp) (b : text) :
  forall a p i, match_here re (before p a) b <> None ->
                search re p (a ++ b) i <> None.
Proof.
  induction a as [ | c a IH]; intros p i Hm.
  - simpl in *. destruct b; simpl; destruct (match_here re p _); congruence.
  - simpl. destruct (match_here re p (c :: a ++ b)); [discriminate | ].
    apply IH. exact Hm.
Qed.

(** [test] says whether the pattern is found in the text. *)
Theorem test_found (re : RegExp) (t : text) : test re t = true <-> found re t.
Proof.
  unfold test, exec, found. split.
  - destruct (search re None t 0) as [mt | ] eqn:E; [intros _ | discriminate].
    apply search_match in E. destruct E as (a & b & s' & -> & Hm & _).
    unfold match_here in Hm. apply m_sound in Hm.
    destruct Hm as (s'' & Hm & _). exists a, b, s''. auto.
  - intros (a & b & s' & -> & Hm).
    destruct (search re None (a ++ b) 0) eqn:E; [reflexivity | exfalso].
    revert E. apply search_complete. unfold match_here.
    apply (m_complete _ _ _ _ Hm). discriminate.
Qed.

(** ** Literals, classes and alternatives *)

Lemma matches_str_inv (p : text) :
  forall s s', matches true (RStr p) s s' ->
               exists x, rest s = x ++ rest s' /\ same_ci x p /\ caps s' = caps s.
Proof.
  induction p as [ | c p IH]; intros s s' Hm.
  - inversion Hm; subst. exists []. repeat split.
  - assert (Hc : forall s1, matches true (RChar c) s s1 ->
                 exists y, rest s = y :: rest s1 /\ caps s1 = caps s
                           /\ canonicalize true y = canonicalize true c).
    { intros s1 H1. inversion H1 as [ | ? ? y ? R C | | | | | | | | | | | | ]; subst.
      exists y. simpl. split; [exact R | ]. split; [reflexivity | ].
      unfold char_match in C. apply N.eqb_eq in C. congruence. }
    destruct p as [ | c' p].
    + destruct (Hc s' Hm) as (y & R & C & E). exists [y]. unfold same_ci. simpl.
      rewrite E. auto.
    + change (RStr (c :: c' :: p)) with (RSeq (RChar c) (RStr (c' :: p))) in Hm.
      inversion Hm as [ | | | | a0 b0 s0 s1 s2 H1 H2 | | | | | | | | | ]; subst.
      destruct (Hc _ H1) as (y & R & C & E).
      destruct (IH _ _ H2) as (x & R' & X & C').
      exists (y :: x). unfold same_ci in *. simpl. rewrite R, R', E, X.
      repeat split; congruence.
Qed.

Lemma matches_str_intro (p : text) :
  forall x s r, rest s = x ++ r -> same_ci x p ->
                exists s', matches true (RStr p) s s' /\ rest s' = r /\ caps s' = caps s.
Proof.
  induction p as [ | c p IH]; intros x s r R X.
  - destruct x; [ | discriminate]. exists s. repeat split; [constructor | exact R].
  - destruct x as [ | y x]; [discriminate | ].
    unfold same_ci in X. simpl in X. injection X as Y X.
    assert (H1 : matches true (RChar c) s (mkState (Some y) (x ++ r) (caps s))).
    { eapply M_char; [exact R | ]. unfold char_match. rewrite Y. apply N.eqb_refl. }
    destruct p as [ | c' p].
    + destruct x; [ | discriminate]. eexists. split; [exact H1 | ]. auto.
    + destruct (IH x (mkState (Some y) (x ++ r) (caps s)) r eq_refl X)
        as (s' & H2 & R' & C').
      exists s'. split; [ | auto].
      change (RStr (c :: c' :: p)) with (RSeq (RChar c) (RStr (c' :: p))).
      econstructor; eassumption.
Qed.

Lemma found_literal (p t : text) :
  found (insensitive (RStr p)) t <-> contains_ci p t.
Proof.
  unfold found, contains_ci. simpl. split.
  - intros (a & b & s' & -> & Hm). apply matches_str_inv in Hm.
    destruct Hm as (x & R & X & _). simpl in R.
    exists a, x, (rest s'). rewrite R. auto.
  - intros (a & x & b & -> & X).
    destruct (matches_str_intro p x (mkState (before None a) (x ++ b) []) b eq_refl X)
      as (s' & Hm & _).
    exists a, (x ++ b), s'. auto.
Qed.

(** A literal pattern with the [i] flag is found exactly in the texts that
    hold it in some letter case. *)
Lemma test_literal_iff (p t : text) :
  test (insensitive (RStr p)) t = true <-> contains_ci p t.
Proof. rewrite test_found. apply found_literal. Qed.

Section Units.

Variable ic : bool.
Variable a : Regex.
Variable ok : char16 -> bool.

Hypothesis unit_inv :
  forall s s1, matches ic a s s1 ->
               exists c, ok c = true /\ rest s = c :: rest s1 /\ caps s1 = caps s.
Hypothesis unit_intro :
  forall s c t, rest s = c :: t -> ok c = true ->
                matches ic a s (mkState (Some c) t (caps s)).

Lemma star_unit_inv (s s' : State) :
  matches ic (RStar a) s s' ->
  exists x, forallb ok x = true /\ rest s = x ++ rest s' /\ caps s' = caps s.
Proof.
  intros Hm. remember (RStar a) as r eqn:Hr.
  induction Hm as [ | | | | | | | a' s | a' s s1 s2 H1 _ Hlt H2 IH2 | | | | | ];
    try discriminate Hr; injection Hr as ->.
  - exists []. auto.
  - destruct (unit_inv _ _ H1) as (c & C & R & K).
    destruct (IH2 eq_refl) as (x & X & R' & K').
    exists (c :: x). simpl. rewrite C, X, R, R'. repeat split; congruence.
Qed.

Lemma star_unit_intro :
  forall x s r, rest s = x ++ r -> forallb ok x = true ->
                exists s', matches ic (RStar a) s s' /\ rest s' = r /\ caps s' = caps s.
Proof.
  induction x as [ | c x IH]; intros s r R X.
  - exists s. split; [constructor | auto].
  - simpl in X. apply andb_true_iff in X. destruct X as [C X].
    destruct (IH (mkState (Some c) (x ++ r) (caps s)) r eq_refl X) as (s' & Hm & R' & K').
    exists s'. split; [ | auto].
    eapply M_star_more; [apply (unit_intro s c (x ++ r) R C) | | exact Hm].
    rewrite R. simpl. lia.
Qed.

Lemma plus_unit_inv (s s' : State) :
  matches ic (RPlus a) s s' ->
  exists x, x <> [] /\ forallb ok x = true /\ rest s = x ++ rest s' /\ caps s' = caps s.
Proof.
  intros Hm. inversion Hm as [ | | | | | | | | | a' s0 s1 s2 H1 H2 | | | | ]; subst.
  destruct (unit_inv _ _ H1) as (c & C & R & K).
  destruct (star_unit_inv _ _ H2) as (x & X & R' & K').
  exists (c :: x). simpl. rewrite C, X, R, R'.
  repeat split; congruence || discriminate.
Qed.

Lemma plus_unit_intro :
  forall x s r, x <> [] -> rest s = x ++ r -> forallb ok x = true ->
                exists s', matches ic (RPlus a) s s' /\ rest s' = r /\ caps s' = caps s.
Proof.
  intros [ | c x] s r Hne R X; [congruence | ].
  simpl in X. apply andb_true_iff in X. destruct X as [C X].
  destruct (star_unit_intro x (mkState (Some c) (x ++ r) (caps s)) r eq_refl X)
    as (s' & Hm & R' & K').
  exists s'. split; [ | auto].
  eapply M_plus; [apply (unit_intro s c (x ++ r) R C) | exact Hm].
Qed.

End Units.

Lemma class_unit_inv (ic : bool) (atoms : list ClassAtom) (s s1 : State) :
  matches ic (RClass atoms) s s1 ->
  exists c, class_member ic atoms c = true /\ rest s = c :: rest s1 /\ caps s1 = caps s.
Proof.
  intros Hm. inversion Hm as [ | | | ? ? c ? R C | | | | | | | | | | ]; subst.
  exists c. auto.
Qed.

Lemma class_unit_intro (ic : bool) (atoms : list ClassAtom) (s : State)
  (c : char16) (t : text) :
  rest s = c :: t -> class_member ic atoms c = true ->
  matches ic (RClass atoms) s (mkState (Some c) t (caps s)).
Proof. intros R C. eapply M_class; eassumption. Qed.

Lemma dot_unit_inv (ic : bool) (s s1 : State) :
  matches ic RDot s s1 ->
  exists c, negb (is_line_terminator c) = true /\ rest s = c :: rest s1
            /\ caps s1 = caps s.
Proof.
  intros Hm. inversion Hm as [ | | ? c ? R C | | | | | | | | | | | ]; subst.
  exists c. rewrite C. auto.
Qed.

Lemma dot_unit_intro (ic : bool) (s : State) (c : char16) (t : text) :
  rest s = c :: t -> negb (is_line_terminator c) = true ->
  matches ic RDot s (mkState (Some c) t (caps s)).
Proof.
  intros R C. apply negb_true_iff in C. eapply M_dot; eassumption.
Qed.

Lemma matches_any (ic : bool) (alts : list Regex) (s s' : State) :
  alts <> [] ->
  (matches ic (RAny alts) s s' <-> exists r, In r alts /\ matches ic r s s').
Proof.
  induction alts as [ | r alts IH]; [congruence | intros _].
  destruct alts as [ | r' alts].
  - simpl. split; [eauto | intros (r0 & [<- | []] & H0); exact H0].
  - change (RAny (r :: r' :: alts)) with (RAlt r (RAny (r' :: alts))). split.
    + intros Hm.
      inversion Hm as [ | | | | | ? ? ? ? H1 | ? ? ? ? H1 | | | | | | | ]; subst.
      * exists r. split; [left; reflexivity | assumption].
      * change (matches ic (RAny (r' :: alts)) s s') in H1.
        apply IH in H1; [ | discriminate]. destruct H1 as (r0 & Hin & H0).
        exists r0. split; [right; exact Hin | exact H0].
    + intros (r0 & [<- | Hin] & H0).
      * apply M_alt_left, H0.
      * apply M_alt_right. apply IH; [discriminate | eauto].
Qed.

Lemma class_space (c : char16) : class_member true [CSpace] c = is_space c.
Proof.
  unfold class_member, existsb, atom_member. rewrite orb_false_r.
  destruct (is_space c) eqn:S; [reflexivity | ]. simpl.
  unfold canonicalize, to_lower. simpl.
  destruct (is_lower c) eqn:L; destruct (is_upper c) eqn:U; rewrite ?S; try reflexivity.
  - apply is_lower_spec in L. apply is_upper_spec in U. lia.
  - apply is_lower_spec in L. unfold is_space. cmp_N.
  - apply is_upper_spec in U. unfold is_space. cmp_N.
Qed.

Lemma class_colon_space (c : char16) :
  class_member true [CChar (ch ":"); CSpace] c = (c =? 58) || is_space c.
Proof.
  pose proof (class_space c) as Hs.
  unfold class_member, existsb, atom_member in *. rewrite orb_false_r in *.
  change (ch ":") with 58.
  destruct (N.eqb_spec c 58) as [-> | Hc]; [reflexivity | ].
  rewrite Hs. simpl.
  assert (Hcan : (canonicalize true c =? 58) = false).
  { unfold canonicalize. simpl. destruct (is_lower c) eqn:L.
    - apply is_lower_spec in L. apply N.eqb_neq. lia.
    - apply N.eqb_neq, Hc. }
  assert (Hlow : (to_lower c =? 58) = false).
  { unfold to_lower. destruct (is_upper c) eqn:U.
    - apply is_upper_spec in U. apply N.eqb_neq. lia.
    - apply N.eqb_neq, Hc. }
  rewrite Hcan, Hlow. reflexivity.
Qed.

Lemma matches_seq_inv (ic : bool) (a b : Regex) (s s' : State) :
  matches ic (RSeq a b) s s' -> exists s1, matches ic a s s1 /\ matches ic b s1 s'.
Proof.
  intros Hm. inversion Hm; subst. eauto.
Qed.

Lemma matches_group_inv (ic : bool) (n : nat) (a : Regex) (s s' : State) :
  matches ic (RGroup n a) s s' ->
  exists s1, matches ic a s s1
             /\ s' = mkState (prev s1) (rest s1) ((n, consumed s s1) :: caps s1).
Proof.
  intros Hm. inversion Hm; subst. eauto.
Qed.

Lemma forallb_eq (f g : char16 -> bool) (x : text) :
  (forall c, f c = g c) -> forallb f x = forallb g x.
Proof.
  intros Hfg. induction x as [ | c x IH]; simpl; [reflexivity | ].
  rewrite Hfg, IH. reflexivity.
Qed.

(** ** The keyword patterns *)

Lemma found_failed_phrase (t : text) :
  found (nth 2 ERROR_KEYWORD_PATTERNS (insensitive REmpty)) t <-> failed_phrase t.
Proof.
  unfold found, failed_phrase.
  change (source (nth 2 ERROR_KEYWORD_PATTERNS (insensitive REmpty)))
    with (RSeq (RAny (map RStr task_nouns))
               (RSeq (RPlus (RClass [CSpace])) (RStr (lit "failed")))).
  change (ignoreCase (nth 2 ERROR_KEYWORD_PATTERNS (insensitive REmpty))) with true.
  split.
  - intros (a & b & s' & -> & Hm).
    apply (matches_seq_inv true (RAny (map RStr task_nouns))) in Hm.
    destruct Hm as (s1 & H1 & H23).
    apply (matches_seq_inv true (RPlus (RClass [CSpace])) (RStr (lit "failed"))) in H23.
    destruct H23 as (s2 & H2 & H3).
    apply matches_any in H1; [ | discriminate].
    destruct H1 as (r & Hin & H1). apply in_map_iff in Hin.
    destruct Hin as (noun & <- & Hnoun).
    apply matches_str_inv in H1. destruct H1 as (x & R1 & X & _).
    apply (plus_unit_inv true _ _ (class_unit_inv true [CSpace])) in H2.
    destruct H2 as (ws & Hne & W & R2 & _).
    apply matches_str_inv in H3. destruct H3 as (y & R3 & Y & _).
    simpl in R1. exists a, noun, x, ws, y, (rest s').
    rewrite R1, R2, R3. repeat split; auto.
    rewrite (forallb_eq _ is_space ws class_space) in W. exact W.
  - intros (a & noun & x & ws & y & b & -> & Hnoun & X & Hne & W & Y).
    set (s0 := mkState (before None a) (x ++ ws ++ y ++ b) []).
    destruct (matches_str_intro noun x s0 (ws ++ y ++ b) eq_refl X) as (s1 & H1 & R1 & _).
    destruct (plus_unit_intro true _ _ (class_unit_intro true [CSpace]) ws s1 (y ++ b)
                Hne R1) as (s2 & H2 & R2 & _).
    { rewrite (forallb_eq _ is_space ws class_space). exact W. }
    destruct (matches_str_intro (lit "failed") y s2 b R2 Y) as (s3 & H3 & _).
    exists a, (x ++ ws ++ y ++ b), s3. split; [reflexivity | ].
    eapply M_seq; [ | eapply M_seq; eassumption].
    apply matches_any; [discriminate | ].
    exists (RStr noun). split; [apply in_map, Hnoun | exact H1].
Qed.

Lemma keyword_scan_phrases (t : text) :
  (exists k, keyword_scan ERROR_KEYWORD_PATTERNS t = Some k)
  <-> contains_ci (lit "error:") t \/ contains_ci (lit "ERR!") t
      \/ failed_phrase t \/ contains_ci (lit "exception") t.
Proof.
  rewrite <- (test_literal_iff (lit "error:")), <- (test_literal_iff (lit "ERR!")),
    <- (test_literal_iff (lit "exception")), <- found_failed_phrase, <- test_found.
  split.
  - intros (k & Hk). apply keyword_scan_sound in Hk. destruct Hk as (Hin & Ht).
    simpl in Hin. destruct Hin as [<- | [<- | [<- | [<- | []]]]]; auto.
  - intros Hany.
    assert (Hk : exists k, In k ERROR_KEYWORD_PATTERNS /\ test k t = true).
    { destruct Hany as [Ht | [Ht | [Ht | Ht]]]; eexists; (split; [ | exact Ht]);
        simpl; auto. }
    destruct Hk as (k & Hin & Ht). exact (keyword_scan_some t _ k Hin Ht).
Qed.

(** X6: for tool "Bash", a text is an error exactly when an exit code is
    reported for it or it holds, in any letter case, "error:", "ERR!",
    "exception" or a task noun followed by white space and "failed". *)
Theorem error_verdict_characterized {num : Type} `{NumberOps num}
  (t : text) (r : ErrorDetectionResult) :
  detectBashError (lit "Bash") (JString t) = Ok r ->
  (isError r = true <->
   exitCode r <> None
   \/ contains_ci (lit "error:") t \/ contains_ci (lit "ERR!") t
   \/ failed_phrase t \/ contains_ci (lit "exception") t).
Proof.
  rewrite detect_bash_string. intros [= <-].
  rewrite <- keyword_scan_phrases. unfold classify_text.
  destruct (exit_code_scan EXIT_CODE_PATTERNS t) as [r | ] eqn:E.
  - destruct (exit_code_scan_sound t _ r E) as (q & mq & _ & _ & _ & ->). simpl.
    split; [intros _; left; discriminate | reflexivity].
  - destruct (keyword_scan ERROR_KEYWORD_PATTERNS t) as [k | ]; simpl.
    + split; [intros _; right; eauto | reflexivity].
    + split; [discriminate | ]. intros [Hx | (k & Hk)]; [congruence | discriminate].
Qed.

Lemma error_verdict_characterized_witness :
  isError (mkResult true (Some (lit "The BUILD   Failed today")) None) = true <->
  exitCode (mkResult true (Some (lit "The BUILD   Failed today")) None) <> None
  \/ contains_ci (lit "error:") (lit "The BUILD   Failed today")
  \/ contains_ci (lit "ERR!") (lit "The BUILD   Failed today")
  \/ failed_phrase (lit "The BUILD   Failed today")
  \/ contains_ci (lit "exception") (lit "The BUILD   Failed today").
Proof.
  apply (error_verdict_characterized (num := Z) (lit "The BUILD   Failed today")).
  vm_compute. reflexivity.
Defined.

(** ** The exit-code patterns *)

Lemma digits1_inv (s s' : State) :
  matches true digits1 s s' ->
  exists d, d <> [] /\ forallb is_digit d = true /\ rest s = d ++ rest s'
            /\ caps s' = (1%nat, d) :: caps s.
Proof.
  intros Hm. apply matches_group_inv in Hm. destruct Hm as (s1 & H1 & ->).
  apply (plus_unit_inv true _ _ (class_unit_inv true [CDigit])) in H1.
  destruct H1 as (d & Hne & D & R & K).
  exists d. simpl. rewrite (consumed_app s s1 d R), K.
  rewrite (forallb_eq _ is_digit d (class_digit true)) in D. auto.
Qed.

Lemma exit_pattern_phrase (q : RegExp) (t : text) (mq : Match) :
  In q EXIT_CODE_PATTERNS -> exec q t = Some mq ->
  exists d, group1 mq = d /\ d <> [] /\ forallb is_digit d = true /\ exit_phrase t d.
Proof.
  intros Hin He. unfold exec in He. apply search_match in He.
  destruct He as (a & b & s' & -> & Hm & Hg).
  unfold match_here in Hm. apply m_sound in Hm.
  destruct Hm as (s'' & Hm & [= ->]).
  unfold group1, capture. rewrite Hg. unfold exit_phrase.
  simpl in Hin. destruct Hin as [<- | [<- | [<- | []]]].
  - change (matches true
              (RSeq (RStr (lit "exit code"))
                    (RSeq (RPlus (RClass [CChar (ch ":"); CSpace])) digits1))
              (mkState (before None a) b []) s') in Hm.
    apply matches_seq_inv in Hm. destruct Hm as (s1 & H1 & Hm).
    apply matches_seq_inv in Hm. destruct Hm as (s2 & H2 & H3).
    apply matches_str_inv in H1. destruct H1 as (x & R1 & X & K1).
    apply (plus_unit_inv true _ _ (class_unit_inv true [CChar (ch ":"); CSpace])) in H2.
    destruct H2 as (sep & Hne & S & R2 & K2).
    apply digits1_inv in H3. destruct H3 as (d & Hd & D & R3 & K3).
    rewrite (forallb_eq _ _ sep class_colon_space) in S.
    exists d. rewrite K3. simpl. repeat split; auto.
    exists a, x, sep, (rest s'). simpl in R1. rewrite R1, R2, R3. auto.
  - change (matches true (RSeq (RStr (lit "exited with code ")) digits1)
              (mkState (before None a) b []) s') in Hm.
    apply matches_seq_inv in Hm. destruct Hm as (s1 & H1 & H3).
    apply matches_str_inv in H1. destruct H1 as (x & R1 & X & K1).
    apply digits1_inv in H3. destruct H3 as (d & Hd & D & R3 & K3).
    exists d. rewrite K3. simpl. repeat split; auto.
    exists a, x, [], (rest s'). simpl in R1. rewrite R1, R3. auto.
  - change (matches true (RSeq (RStr (lit "returned ")) digits1)
              (mkState (before None a) b []) s') in Hm.
    apply matches_seq_inv in Hm. destruct Hm as (s1 & H1 & H3).
    apply matches_str_inv in H1. destruct H1 as (x & R1 & X & K1).
    apply digits1_inv in H3. destruct H3 as (d & Hd & D & R3 & K3).
    exists d. rewrite K3. simpl. repeat split; auto.
    exists a, x, [], (rest s'). simpl in R1. rewrite R1, R3. auto.
Qed.

(** X7: an exit code is never made up: it is the value of a non-zero run of
    digits that stands in the text right after "exit code" and a colon or white
    space, after "exited with code " or after "returned ". *)
Theorem exit_code_has_evidence {num : Type} `{NumberOps num}
  (t : text) (r : ErrorDetectionResult) (n : Number) :
  detectBashError (lit "Bash") (JString t) = Ok r ->
  exitCode r = Some n ->
  exists d, d <> [] /\ forallb is_digit d = true /\ exit_phrase t d
            /\ decimal d <> 0 /\ n = of_N false (decimal d).
Proof.
  rewrite detect_bash_string. intros [= <-]. unfold classify_text.
  destruct (exit_code_scan EXIT_CODE_PATTERNS t) as [r | ] eqn:E.
  - destruct (exit_code_scan_sound t _ r E) as (q & mq & Hq & He & Hz & ->).
    simpl. intros [= <-].
    destruct (exit_pattern_phrase q t mq Hq He) as (d & Hg & Hd & D & P).
    exists d. rewrite Hg in *. rewrite (parseInt_digits d Hd D) in *.
    repeat split; auto. now apply of_N_zero.
  - destruct (keyword_scan ERROR_KEYWORD_PATTERNS t); discriminate.
Qed.

Lemma exit_code_has_evidence_witness :
  exists d, d <> [] /\ forallb is_digit d = true
            /\ exit_phrase (lit "make: *** [all] Error; EXIT CODE:   2") d
            /\ decimal d <> 0 /\ Fin 2 = of_N false (decimal d).
Proof.
  apply (exit_code_has_evidence (num := Z)
           (lit "make: *** [all] Error; EXIT CODE:   2")
           (mkResult true (Some (lit "make: *** [all] Error; EXIT CODE:   2"))
                     (Some (Fin 2)))).
  - vm_compute. reflexivity.
  - reflexivity.
Defined.

(** ** The catalog of error types *)

Lemma found_tool_error (name t : text) :
  found (insensitive (RCat [RStr name; RStar RDot; RLit "error"])) t
  <-> tool_error name t.
Proof.
  unfold found, tool_error.
  change (source (insensitive (RCat [RStr name; RStar RDot; RLit "error"])))
    with (RSeq (RStr name) (RSeq (RStar RDot) (RStr (lit "error")))).
  change (ignoreCase (insensitive (RCat [RStr name; RStar RDot; RLit "error"])))
    with true.
  split.
  - intros (a & b & s' & -> & Hm).
    apply matches_seq_inv in Hm. destruct Hm as (s1 & H1 & Hm).
    apply matches_seq_inv in Hm. destruct Hm as (s2 & H2 & H3).
    apply matches_str_inv in H1. destruct H1 as (x & R1 & X & _).
    apply (star_unit_inv true _ _ (dot_unit_inv true)) in H2.
    destruct H2 as (mid & M & R2 & _).
    apply matches_str_inv in H3. destruct H3 as (y & R3 & Y & _).
    simpl in R1. exists a, x, mid, y, (rest s'). rewrite R1, R2, R3. auto.
  - intros (a & x & mid & y & b & -> & X & M & Y).
    set (s0 := mkState (before None a) (x ++ mid ++ y ++ b) []).
    destruct (matches_str_intro name x s0 (mid ++ y ++ b) eq_refl X) as (s1 & H1 & R1 & _).
    destruct (star_unit_intro true _ _ (dot_unit_intro true) mid s1 (y ++ b) R1 M)
      as (s2 & H2 & R2 & _).
    destruct (matches_str_intro (lit "error") y s2 b R2 Y) as (s3 & H3 & _).
    exists a, (x ++ mid ++ y ++ b), s3. split; [reflexivity | ].
    eapply M_seq; [eassumption | eapply M_seq; eassumption].
Qed.

Section Catalog.

Variable t : text.

Lemma scan_catalog (dflt : text) :
  forall pats cat, Forall2 (entry_for t) pats cat ->
    (error_type_scan pats dflt t = dflt /\ forall q, In q cat -> ~ snd q t)
    \/ (exists pre tag P post,
          cat = pre ++ (tag, P) :: post /\ P t
          /\ (forall q, In q pre -> ~ snd q t)
          /\ error_type_scan pats dflt t = tag).
Proof.
  induction 1 as [ | [re tag] [tag' P] pats cat He _ IH]; simpl.
  - left. split; [reflexivity | intros q []].
  - inversion He as [? ? ? Ht]; subst.
    destruct (test re t) eqn:T.
    + right. exists [], tag', P, cat. repeat split; [apply Ht; reflexivity | intros q []].
    + assert (HnP : ~ P t) by (intros HP; apply Ht in HP; discriminate).
      destruct IH as [(E & Hno) | (pre & tg & Q & post & -> & HQ & Hpre & E)].
      * left. split; [exact E | ]. intros q [<- | Hin]; [exact HnP | auto].
      * right. exists ((tag', P) :: pre), tg, Q, post. repeat split; auto.
        intros q [<- | Hin]; [exact HnP | auto].
Qed.

End Catalog.

Lemma catalog_entries (t : text) :
  Forall2 (entry_for t) ERROR_TYPE_PATTERNS type_catalog.
Proof.
  unfold ERROR_TYPE_PATTERNS, type_catalog.
  repeat (apply Forall2_cons; [constructor | ]); try apply Forall2_nil;
    try apply test_literal_iff;
    rewrite test_found; apply found_tool_error.
Qed.

Lemma split_unique (A B : Type) (l : list (A * B)) :
  NoDup (map fst l) ->
  forall pre pre' post post' a b b',
    l = pre ++ (a, b) :: post -> l = pre' ++ (a, b') :: post' ->
    pre = pre' /\ b = b'.
Proof.
  intros Hnd pre. revert l Hnd.
  induction pre as [ | x pre IH]; intros l Hnd pre' post post' a b b' E E'.
  - destruct pre' as [ | x' pre'].
    + rewrite E in E'. simpl in E'. injection E' as <- _. auto.
    + exfalso. rewrite E in E'. simpl in E'. injection E' as <- Hpost.
      rewrite E, Hpost in Hnd. simpl in Hnd. inversion Hnd as [ | ? ? Hnin _]; subst.
      apply Hnin. rewrite map_app. apply in_or_app. right. left. reflexivity.
  - destruct pre' as [ | x' pre'].
    + exfalso. rewrite E' in E. simpl in E. injection E as <- Hpost.
      rewrite E', Hpost in Hnd. simpl in Hnd. inversion Hnd as [ | ? ? Hnin _]; subst.
      apply Hnin. rewrite map_app. apply in_or_app. right. left. reflexivity.
    + rewrite E in E'. simpl in E'. injection E' as <- E'.
      rewrite E in Hnd. simpl in Hnd. inversion Hnd as [ | ? ? _ Hnd']; subst.
      destruct (IH _ Hnd' pre' post post' a b b' eq_refl E') as (-> & ->). auto.
Qed.

Lemma type_catalog_tags :
  NoDup (map fst type_catalog) /\ ~ In (lit "unknown") (map fst type_catalog).
Proof.
  split.
  - vm_compute.
    repeat (constructor; [intros Hin; repeat (destruct Hin as [Hin | Hin];
                                              [discriminate Hin | ]); exact Hin | ]).
    constructor.
  - vm_compute. intros Hin.
    repeat (destruct Hin as [Hin | Hin]; [discriminate Hin | ]). exact Hin.
Qed.

(** X8: the error type read off the message: a tag of the catalog is returned
    exactly when what its pattern looks for is in the message and nothing an
    earlier entry looks for is; "unknown" is returned exactly when nothing the
    catalog looks for is in the message. *)
Theorem error_type_characterized (t : text) :
  (forall pre tag P post,
      type_catalog = pre ++ (tag, P) :: post ->
      (errorType (extractErrorFeatures t) = tag
       <-> P t /\ forall q, In q pre -> ~ snd q t))
  /\ (errorType (extractErrorFeatures t) = lit "unknown"
      <-> forall q, In q type_catalog -> ~ snd q t).
Proof.
  destruct type_catalog_tags as (Hnd & Hunk).
  assert (Hscan := scan_catalog t (lit "unknown") _ _ (catalog_entries t)).
  change (error_type_scan ERROR_TYPE_PATTERNS (lit "unknown") t)
    with (errorType (extractErrorFeatures t)) in Hscan.
  split.
  - intros pre tag P post Hcat. split.
    + intros Htag.
      destruct Hscan as [(E & _) | (pre' & tg & Q & post' & Hcat' & HQ & Hpre & E)].
      * exfalso. apply Hunk. rewrite <- E, Htag, Hcat, map_app.
        apply in_or_app. right. left. reflexivity.
      * rewrite Htag in E. subst tg.
        destruct (split_unique _ _ _ Hnd _ _ _ _ _ _ _ Hcat Hcat') as (-> & ->). auto.
    + intros (HP & Hpre).
      destruct Hscan as [(_ & Hno) | (pre' & tg & Q & post' & Hcat' & HQ & Hpre' & E)].
      * exfalso. apply (Hno (tag, P)); [ | exact HP].
        rewrite Hcat. apply in_or_app. right. left. reflexivity.
      * rewrite E. clear E.
        (* both splits single out the first entry that holds *)
        revert pre' Hcat' Hpre'. rewrite Hcat. clear Hcat Hnd Hunk.
        induction pre as [ | x pre IH]; intros pre' Hcat' Hpre'.
        -- destruct pre' as [ | x' pre']; simpl in Hcat'.
           ++ injection Hcat' as -> _. reflexivity.
           ++ injection Hcat' as <- _. exfalso.
              apply (Hpre' (tag, P)); [left; reflexivity | exact HP].
        -- destruct pre' as [ | x' pre']; simpl in Hcat'.
           ++ injection Hcat' as -> _. exfalso.
              apply (Hpre (tg, Q)); [left; reflexivity | exact HQ].
           ++ injection Hcat' as <- Hcat'.
              apply (IH (fun q Hq => Hpre q (or_intror Hq)) pre' Hcat'
                        (fun q Hq => Hpre' q (or_intror Hq))).
  - split.
    + intros Hu.
      destruct Hscan as [(_ & Hno) | (pre' & tg & Q & post' & Hcat' & HQ & Hpre' & E)];
        [exact Hno | ].
      exfalso. apply Hunk. rewrite <- Hu, E, Hcat', map_app.
      apply in_or_app. right. left. reflexivity.
    + intros Hno.
      destruct Hscan as [(E & _) | (pre' & tg & Q & post' & Hcat' & HQ & Hpre' & E)];
        [exact E | ].
      exfalso. apply (Hno (tg, Q)); [ | exact HQ].
      rewrite Hcat'. apply in_or_app. right. left. reflexivity.
Qed.

Lemma error_type_characterized_witness :
  tool_error (lit "cargo") (lit "Cargo build: compile ERROR in main.rs")
  /\ forall q, In q (firstn 6 type_catalog) ->
               ~ snd q (lit "Cargo build: compile ERROR in main.rs").
Proof.
  apply (proj1 (proj1 (error_type_characterized
                         (lit "Cargo build: compile ERROR in main.rs"))
                  (firstn 6 type_catalog) (lit "cargo") (tool_error (lit "cargo"))
                  (skipn 7 type_catalog) eq_refl)).
  vm_compute. reflexivity.
Defined.

(** ** Keywords of a message made of parts *)

Lemma keywords_of_words (t : text) :
  keywords (extractErrorFeatures t)
  = filter (fun k => (3 <? length k)%nat) (filter is_code (words t)).
Proof.
  unfold extractErrorFeatures. cbn [keywords]. unfold match_global.
  rewrite (code_match_all (S (length t)) t (Nat.lt_succ_diag_r _)
             (S (length t)) None (Nat.lt_succ_diag_r _) (or_introl eq_refl)).
  destruct (filter is_code (words t)); reflexivity.
Qed.

Lemma words_from_split (sep : char16) (b : text) :
  is_word sep = false ->
  forall a cur, words_from cur (a ++ sep :: b) = words_from cur a ++ words b.
Proof.
  intros Hs. induction a as [ | c a IH]; intros cur; simpl.
  - rewrite Hs. reflexivity.
  - destruct (is_word c); [apply IH | ].
    rewrite IH, app_assoc. reflexivity.
Qed.

(** X9: keywords are found word by word: around a character that is not a word
    character (a blank, a colon, a line feed), the keywords of the whole message
    are those of the part before followed by those of the part after. *)
Theorem keywords_of_parts (a b : text) (sep : char16) :
  is_word sep = false ->
  keywords (extractErrorFeatures (a ++ sep :: b))
  = keywords (extractErrorFeatures a) ++ keywords (extractErrorFeatures b).
Proof.
  intros Hs. rewrite !keywords_of_words. unfold words.
  rewrite (words_from_split sep b Hs a []), !filter_app. reflexivity.
Qed.

Lemma keywords_of_parts_witness :
  keywords (extractErrorFeatures (lit "EACCES: permission denied" ++ 10 :: lit "errno EPERM"))
  = [lit "EACCES"] ++ [lit "EPERM"].
Proof.
  etransitivity.
  - apply (keywords_of_parts (lit "EACCES: permission denied") (lit "errno EPERM") 10).
    reflexivity.
  - vm_compute. reflexivity.
Defined.

(** ** The path pattern, [/(?:\/[\w.-]+)+(?:\.\w+)?/] *)

Lemma class_path (c : char16) :
  class_member false [CWord; CChar (ch "."); CChar (ch "-")] c = is_path_char c.
Proof.
  unfold class_member, existsb, atom_member, is_path_char. simpl.
  rewrite !orb_false_r, orb_assoc. reflexivity.
Qed.

Lemma class_word (c : char16) : class_member false [CWord] c = is_word c.
Proof.
  unfold class_member, existsb, atom_member. simpl. rewrite !orb_false_r. reflexivity.
Qed.

Lemma slash_not_path_char : is_path_char 47 = false.
Proof. reflexivity. Qed.

(** A greedy repetition of a class stops at the end of the run when the
    continuation accepts that place. *)
Lemma repeat_run_first (ok : char16 -> bool) (k : Cont) (cs : list (nat * text)) :
  forall u z a n,
    forallb ok u = true ->
    match z with [] => True | c :: _ => ok c = false end ->
    (length (u ++ z) <= n)%nat ->
    k (mkState (Some (last_of u a)) z cs) <> None ->
    repeat (step ok) n (mkState (Some a) (u ++ z) cs) k
    = k (mkState (Some (last_of u a)) z cs).
Proof.
  unfold last_of.
  induction u as [ | c u IH]; intros z a n Hu Hz Hn Hk.
  - simpl. destruct n as [ | n]; [reflexivity | ].
    simpl. unfold step. simpl.
    destruct z as [ | d z]; [reflexivity | ]. rewrite Hz. reflexivity.
  - simpl in Hu. apply andb_true_iff in Hu. destruct Hu as [Hc Hu].
    destruct n as [ | n]; [simpl in Hn; lia | ].
    simpl in Hn. cbn [repeat]. unfold step at 1. cbn [rest caps app].
    rewrite Hc. cbn [rest length].
    rewrite (proj2 (Nat.ltb_lt _ _)) by lia.
    rewrite (IH z c n Hu Hz) by (try lia; exact Hk).
    cbn [fold_left] in *.
    destruct (k (mkState (Some (fold_left (fun _ c0 => c0) u c)) z cs)) eqn:E;
      [reflexivity | congruence].
Qed.

Lemma path_tail_run (z : text) :
  forall u, forallb is_path_char u = true -> path_tail (u ++ z) = u ++ path_tail z.
Proof.
  induction u as [ | c u IH]; intros Hu; [reflexivity | ].
  simpl in Hu. apply andb_true_iff in Hu. destruct Hu as [Hc Hu].
  simpl. rewrite Hc, (IH Hu). reflexivity.
Qed.

Lemma path_group_match (p : option char16) (d : char16) (u z : text)
  (cs : list (nat * text)) (k : Cont) :
  is_path_char d = true -> forallb is_path_char u = true ->
  match z with [] => True | c :: _ => is_path_char c = false end ->
  k (mkState (Some (last_of u d)) z cs) <> None ->
  m false path_group (mkState p (47 :: d :: u ++ z) cs) k
  = k (mkState (Some (last_of u d)) z cs).
Proof.
  intros Hd Hu Hz Hk. unfold path_group, path_class. cbn [m].
  unfold step at 1. cbn [rest caps].
  change (char_match false (ch "/") 47) with true. cbv iota.
  unfold step at 1. cbn [rest caps]. rewrite class_path, Hd.
  apply (repeat_run_first _ k cs u z d).
  - rewrite (forallb_eq _ is_path_char u class_path). exact Hu.
  - destruct z as [ | c z]; [exact I | ]. rewrite class_path. exact Hz.
  - cbn [rest]. lia.
  - exact Hk.
Qed.

Lemma path_group_fail (p : option char16) (t : text) (cs : list (nat * text)) (k : Cont) :
  match t with
  | c :: d :: _ => (c =? 47) && is_path_char d
  | _ => false
  end = false ->
  m false path_group (mkState p t cs) k = None.
Proof.
  intros Ht. unfold path_group, path_class. cbn [m]. unfold step at 1. cbn [rest caps].
  destruct t as [ | c t]; [reflexivity | ].
  unfold char_match. cbn [canonicalize andb]. change (ch "/") with 47.
  rewrite N.eqb_sym. destruct (c =? 47) eqn:C; [ | reflexivity].
  unfold step. cbn [rest caps]. destruct t as [ | d t]; [reflexivity | ].
  rewrite class_path. simpl in Ht. rewrite Ht. reflexivity.
Qed.

Lemma path_ext_skip (s : State) :
  match rest s with [] => True | c :: _ => is_path_char c = false end ->
  m false path_ext s (fun s' => Some s') = Some s.
Proof.
  intros Hz. unfold path_ext. cbn [m]. unfold step at 1.
  destruct (rest s) as [ | c z]; [reflexivity | ].
  unfold char_match. cbn [canonicalize andb]. change (ch ".") with 46.
  destruct (N.eqb_spec 46 c) as [<- | _]; [discriminate Hz | reflexivity].
Qed.

Section PathGroups.

(** What follows the groups: the option of the pattern, or nothing.  All
    that matters is that it stops where no segment character follows. *)
Variable kf : Cont.
Hypothesis kf_stop :
  forall s, match rest s with [] => True | c :: _ => is_path_char c = false end ->
            kf s = Some s.

(** After a segment, the groups that follow are taken as far as they go. *)
Lemma path_groups (cs : list (nat * text)) :
  forall n z pr,
    match z with [] => True | c :: _ => is_path_char c = false end ->
    (length z <= n)%nat ->
    exists pr' z',
      repeat (m false path_group) n (mkState pr z cs) kf = Some (mkState pr' z' cs)
      /\ z = path_tail z ++ z'.
Proof.
  induction n as [ | n IH]; intros z pr Hz Hn.
  - destruct z; [ | simpl in Hn; lia]. exists pr, [].
    split; [apply kf_stop; exact I | reflexivity].
  - cbn [repeat].
    destruct (match z with
              | c :: d :: _ => (c =? 47) && is_path_char d
              | _ => false
              end) eqn:G.
    + destruct z as [ | c [ | d t]]; try discriminate G.
      apply andb_true_iff in G. destruct G as [C D]. apply N.eqb_eq in C. subst c.
      destruct (split_run is_path_char t) as (u & z2 & -> & Hu & Hz2).
      simpl in Hn.
      assert (Hlen : (length z2 <= n)%nat) by (rewrite length_app in Hn; lia).
      destruct (IH z2 (Some (last_of u d)) Hz2 Hlen) as (pr' & z' & E & Hz').
      rewrite path_group_match; try assumption.
      * cbn [rest length]. rewrite (proj2 (Nat.ltb_lt _ _)) by (rewrite length_app; lia).
        rewrite E. exists pr', z'. split; [reflexivity | ].
        cbn [path_tail]. rewrite slash_not_path_char, N.eqb_refl, D.
        rewrite (path_tail_run z2 u Hu). simpl.
        rewrite <- app_assoc, <- Hz'. reflexivity.
      * cbn [rest length]. rewrite (proj2 (Nat.ltb_lt _ _)) by (rewrite length_app; lia).
        rewrite E. discriminate.
    + rewrite path_group_fail by exact G.
      rewrite kf_stop by exact Hz.
      exists pr, z. split; [reflexivity | ].
      destruct z as [ | c z]; [reflexivity | ].
      cbn [path_tail]. rewrite Hz.
      destruct (c =? 47) eqn:C; [ | reflexivity].
      destruct z as [ | d z]; [reflexivity | ].
      cbn [andb] in G. rewrite G. reflexivity.
Qed.

(** A pattern made of the groups and of what follows them. *)
Variable re : RegExp.
Hypothesis re_unfold :
  forall p t,
    match_here re p t
    = m false path_group (mkState p t [])
        (fun s1 => repeat (m false path_group) (length (rest s1)) s1 kf).

Lemma path_match_here_some (p : option char16) (d : char16) (t : text) :
  is_path_char d = true ->
  exists pr z, match_here re p (47 :: d :: t) = Some (mkState pr z [])
               /\ 47 :: d :: t = (47 :: path_tail (d :: t)) ++ z.
Proof.
  intros D. rewrite re_unfold.
  destruct (split_run is_path_char t) as (u & z2 & -> & Hu & Hz2).
  destruct (path_groups [] (length z2) z2 (Some (last_of u d)) Hz2 (Nat.le_refl _))
    as (pr & z & E & Hz).
  exists pr, z. rewrite path_group_match; try assumption.
  - cbn [rest]. split; [exact E | ].
    change (d :: u ++ z2) with ((d :: u) ++ z2).
    rewrite path_tail_run by (simpl; rewrite D; exact Hu).
    simpl. rewrite <- app_assoc, <- Hz. reflexivity.
  - cbn [rest]. rewrite E. discriminate.
Qed.

Lemma path_match_here_none (p : option char16) (t : text) :
  match t with
  | c :: d :: _ => (c =? 47) && is_path_char d
  | _ => false
  end = false ->
  match_here re p t = None.
Proof.
  intros Ht. rewrite re_unfold. apply path_group_fail, Ht.
Qed.

Lemma path_search (t : text) :
  forall p i, option_map matched (search re p t i) = first_path t.
Proof.
  induction t as [ | c t IH]; intros p i.
  - cbn [search first_path]. rewrite path_match_here_none by reflexivity. reflexivity.
  - cbn [search first_path].
    destruct ((c =? 47) && match t with d :: _ => is_path_char d | [] => false end) eqn:G.
    + apply andb_true_iff in G. destruct G as [C D]. apply N.eqb_eq in C. subst c.
      destruct t as [ | d t]; [discriminate D | ].
      destruct (path_match_here_some p d t D) as (pr & z & E & Hz).
      destruct (match_here re p _) as [s' | ]; [ | discriminate E].
      injection E as ->.
      cbn [option_map matched]. f_equal.
      apply consumed_app. cbn [rest]. exact Hz.
    + rewrite path_match_here_none; [apply IH | ].
      destruct t as [ | d t]; [reflexivity | exact G].
Qed.

End PathGroups.

Lemma path_pattern_search (t : text) :
  option_map matched (exec PATH_PATTERN t) = first_path t.
Proof.
  apply (path_search (fun s2 => m false path_ext s2 (fun s' => Some s'))).
  - intros s Hs. apply path_ext_skip, Hs.
  - reflexivity.
Qed.

Lemma bare_pattern_search (t : text) :
  option_map matched (exec PATH_PATTERN_BARE t) = first_path t.
Proof.
  apply (path_search (fun s' => Some s')).
  - reflexivity.
  - reflexivity.
Qed.

(** ** The file path of a message *)

(** X10: the file path is the text from the first slash that is followed by a
    letter, digit, underscore, dot or hyphen: these characters are taken as long
    as they come, a further slash with them when such a character follows it.
    Without such a slash there is no file path. *)
Theorem file_path_is_first_path (t : text) :
  filePath (extractErrorFeatures t) = first_path t.
Proof.
  unfold extractErrorFeatures. cbn [filePath].
  rewrite <- (path_pattern_search t).
  destruct (exec PATH_PATTERN t); reflexivity.
Qed.

(** X11: the last part of the path pattern, [(?:\.\w+)?], never adds anything:
    for every message the file path is what the pattern without it finds,
    because a dot already belongs to the segment before. *)
Theorem path_extension_never_used (t : text) :
  filePath (extractErrorFeatures t) = option_map matched (exec PATH_PATTERN_BARE t).
Proof.
  rewrite bare_pattern_search, <- (path_pattern_search t).
  unfold extractErrorFeatures. cbn [filePath].
  destruct (exec PATH_PATTERN t); reflexivity.
Qed.

Lemma path_tail_prefix (t : text) : exists z, t = path_tail t ++ z.
Proof.
  induction t as [ | c t (z & IH)]; [exists []; reflexivity | ].
  cbn [path_tail]. destruct (is_path_char c).
  - exists z. cbn [app]. f_equal. exact IH.
  - destruct (c =? 47); [ | exists (c :: t); reflexivity].
    destruct t as [ | d t]; [exists [c]; reflexivity | ].
    destruct (is_path_char d) eqn:D; [ | exists (c :: d :: t); reflexivity].
    exists z. cbn [app]. f_equal. exact IH.
Qed.

Lemma path_tail_chars (t : text) :
  forallb (fun c => is_path_char c || (c =? 47)) (path_tail t) = true.
Proof.
  induction t as [ | c t IH]; [reflexivity | ].
  cbn [path_tail]. destruct (is_path_char c) eqn:C.
  - cbn [forallb]. rewrite C, IH. reflexivity.
  - destruct (c =? 47) eqn:S; [ | reflexivity].
    destruct t as [ | d t]; [reflexivity | ].
    destruct (is_path_char d); [ | reflexivity].
    cbn [forallb]. rewrite S, IH, orb_true_r. reflexivity.
Qed.

Lemma path_tail_last (t : text) :
  forall d, is_path_char d = true -> is_path_char (last_of (path_tail t) d) = true.
Proof.
  unfold last_of. induction t as [ | c t IH]; intros d D; [exact D | ].
  cbn [path_tail]. destruct (is_path_char c) eqn:C.
  - cbn [fold_left]. apply IH, C.
  - destruct (c =? 47); [ | exact D].
    destruct t as [ | e t]; [exact D | ].
    destruct (is_path_char e) eqn:E; [ | exact D].
    cbn [fold_left]. specialize (IH e E). cbn [path_tail] in IH. rewrite E in IH.
    cbn [fold_left] in IH. cbn [path_tail]. rewrite E. cbn [fold_left]. exact IH.
Qed.

Lemma first_path_shape (t f : text) :
  first_path t = Some f ->
  exists a d f' b,
    t = a ++ f ++ b /\ f = 47 :: d :: f' /\ is_path_char d = true
    /\ first_path a = None.
Proof.
  induction t as [ | c t IH]; [discriminate | ].
  cbn [first_path].
  destruct ((c =? 47) && match t with d :: _ => is_path_char d | [] => false end) eqn:G.
  - intros [= <-]. apply andb_true_iff in G. destruct G as [C D].
    apply N.eqb_eq in C. subst c. destruct t as [ | d t]; [discriminate D | ].
    destruct (path_tail_prefix (d :: t)) as (z & Hz).
    cbn [path_tail] in *. rewrite D in *.
    exists [], d, (path_tail t), z. repeat split; auto.
    simpl. simpl in Hz. congruence.
  - intros Hf. destruct (IH Hf) as (a & d & f' & b & -> & -> & D & Ha).
    exists (c :: a), d, f', b. repeat split; auto.
    cbn [first_path].
    destruct a as [ | e a].
    + rewrite andb_false_r. reflexivity.
    + cbn [app] in G. cbn [app]. rewrite G. exact Ha.
Qed.

Lemma first_path_tail (t f : text) :
  first_path t = Some f ->
  exists e t', f = 47 :: path_tail (e :: t') /\ is_path_char e = true.
Proof.
  induction t as [ | c t IH]; [discriminate | ].
  cbn [first_path].
  destruct ((c =? 47) && match t with d :: _ => is_path_char d | [] => false end) eqn:G;
    [ | exact IH].
  intros [= <-]. apply andb_true_iff in G. destruct G as [C G].
  apply N.eqb_eq in C. subst c.
  destruct t as [ | e t]; [discriminate G | ]. exists e, t. auto.
Qed.

(** X12: a file path, when there is one, is a piece of the message that starts
    at its first slash followed by a segment character; it is a slash and at
    least one more character, it holds only slashes, letters, digits,
    underscores, dots and hyphens (so no white space), and it never ends with a
    slash. *)
Theorem file_path_shape (t f : text) :
  filePath (extractErrorFeatures t) = Some f ->
  exists a d f' b,
    t = a ++ f ++ b /\ f = 47 :: d :: f' /\ is_path_char d = true
    /\ first_path a = None
    /\ forallb (fun c => is_path_char c || (c =? 47)) f = true
    /\ is_path_char (last_of f 47) = true.
Proof.
  unfold extractErrorFeatures. cbn [filePath].
  pose proof (path_pattern_search t) as Hs.
  destruct (exec PATH_PATTERN t) as [pm | ]; [ | discriminate].
  intros [= <-]. simpl in Hs. symmetry in Hs.
  destruct (first_path_shape _ _ Hs) as (a & d & f' & b & Ht & Hm & D & Ha).
  destruct (first_path_tail _ _ Hs) as (e & t' & Hp & E).
  exists a, d, f', b.
  split; [exact Ht | ]. split; [exact Hm | ]. split; [exact D | ].
  split; [exact Ha | ]. rewrite Hp. split.
  - cbn [forallb]. rewrite path_tail_chars. reflexivity.
  - change (last_of (47 :: path_tail (e :: t')) 47) with (last_of (path_tail (e :: t')) 47).
    cbn [path_tail]. rewrite E.
    change (last_of (e :: path_tail t') 47) with (last_of (path_tail t') e).
    apply path_tail_last, E.
Qed.

Lemma file_path_shape_witness :
  exists a d f' b,
    lit "cat: /var/log/app.log/: Not a directory" = a ++ lit "/var/log/app.log" ++ b
    /\ lit "/var/log/app.log" = 47 :: d :: f' /\ is_path_char d = true
    /\ first_path a = None
    /\ forallb (fun c => is_path_char c || (c =? 47)) (lit "/var/log/app.log") = true
    /\ is_path_char (last_of (lit "/var/log/app.log") 47) = true.
Proof.
  apply (file_path_shape (lit "cat: /var/log/app.log/: Not a directory")).
  vm_compute. reflexivity.
Defined.

(** * Letter case *)

Lemma upper_cases (c : char16) :
  (is_lower c = true /\ upper c = c - 32 /\ is_upper (c - 32) = true
   /\ to_lower (c - 32) = c /\ to_lower c = c /\ is_lower (c - 32) = false)
  \/ (is_lower c = false /\ upper c = c).
Proof.
  unfold upper, canonicalize. simpl. destruct (is_lower c) eqn:L; [left | right; auto].
  pose proof (proj1 (is_lower_spec c) L) as R.
  assert (U : is_upper (c - 32) = true) by (apply is_upper_spec; lia).
  assert (U' : is_upper c = false).
  { destruct (is_upper c) eqn:E; [apply is_upper_spec in E; lia | reflexivity]. }
  assert (L' : is_lower (c - 32) = false).
  { destruct (is_lower (c - 32)) eqn:E; [apply is_lower_spec in E; lia | reflexivity]. }
  repeat split; auto.
  - unfold to_lower. rewrite U. lia.
  - unfold to_lower. rewrite U'. reflexivity.
Qed.

Lemma upper_idem (c : char16) : upper (upper c) = upper c.
Proof.
  destruct (upper_cases c) as [(L & E & U & _ & _ & L') | (L & E)]; rewrite E.
  - unfold upper, canonicalize. simpl. rewrite L'. reflexivity.
  - exact E.
Qed.

Lemma char_match_upper (p c : char16) :
  char_match true p (upper c) = char_match true p c.
Proof.
  unfold char_match. change (canonicalize true (upper c)) with (upper (upper c)).
  rewrite upper_idem. reflexivity.
Qed.

Lemma class_member_upper (atoms : list ClassAtom) (c : char16) :
  class_member true atoms (upper c) = class_member true atoms c.
Proof.
  unfold class_member. induction atoms as [ | a atoms IH]; [reflexivity | ].
  cbn [existsb]. rewrite IH. f_equal. cbn [andb].
  change (canonicalize true (upper c)) with (upper (upper c)).
  change (canonicalize true c) with (upper c).
  rewrite upper_idem.
  destruct (upper_cases c) as [(L & E & U & T & T' & _) | (L & E)]; rewrite E.
  - rewrite T, T'.
    destruct (atom_member a (c - 32)); destruct (atom_member a c); reflexivity.
  - reflexivity.
Qed.

Lemma upper_keeps (f : char16 -> bool) (c : char16) :
  (forall x, is_lower x = true -> f x = f (x - 32)) -> f (upper c) = f c.
Proof.
  intros Hf. destruct (upper_cases c) as [(L & E & _) | (L & E)]; rewrite E;
    [symmetry; apply Hf, L | reflexivity].
Qed.

Lemma line_terminator_upper (c : char16) :
  is_line_terminator (upper c) = is_line_terminator c.
Proof.
  apply upper_keeps. intros x L. apply is_lower_spec in L.
  unfold is_line_terminator. cmp_N.
Qed.

Lemma word_upper (c : char16) : is_word (upper c) = is_word c.
Proof.
  apply upper_keeps. intros x L. pose proof (proj1 (is_lower_spec x) L) as R.
  unfold is_word. rewrite L.
  assert (U : is_upper (x - 32) = true) by (apply is_upper_spec; lia).
  rewrite U. rewrite orb_true_r. reflexivity.
Qed.

Lemma digits_upper (d : text) : forallb is_digit d = true -> upper_text d = d.
Proof.
  induction d as [ | c d IH]; [reflexivity | ].
  simpl. rewrite andb_true_iff. intros [C D]. rewrite (IH D). f_equal.
  destruct (upper_cases c) as [(L & _) | (_ & E)]; [ | exact E].
  apply is_lower_spec in L. apply is_digit_spec in C. lia.
Qed.

Lemma step_upper (ok : char16 -> bool) (s : State) (k k' : Cont) :
  (forall c, ok (upper c) = ok c) -> follows k k' ->
  step ok (upper_state s) k' = option_map upper_state (step ok s k).
Proof.
  intros Hok Hk. unfold step. destruct s as [p t cs]. simpl.
  destruct t as [ | c t]; [reflexivity | ]. simpl.
  rewrite Hok. destruct (ok c); [ | reflexivity].
  exact (Hk (mkState (Some c) t cs)).
Qed.

Lemma upper_state_length (s : State) :
  length (rest (upper_state s)) = length (rest s).
Proof. apply length_map. Qed.

Lemma repeat_upper (ma : State -> Cont -> option State) :
  (forall s k k', follows k k' ->
                  ma (upper_state s) k' = option_map upper_state (ma s k)) ->
  forall n s k k', follows k k' ->
    repeat ma n (upper_state s) k' = option_map upper_state (repeat ma n s k).
Proof.
  intros Hma. induction n as [ | n IH]; intros s k k' Hk; [apply Hk | ].
  cbn [repeat].
  rewrite (Hma s (fun s' => if (length (rest s') <? length (rest s))%nat
                            then repeat ma n s' k else None)).
  - destruct (ma s _); [reflexivity | apply Hk].
  - intros s1. rewrite !upper_state_length.
    destruct (length (rest s1) <? length (rest s))%nat; [apply IH, Hk | reflexivity].
Qed.

Lemma consumed_upper (s s' : State) :
  consumed (upper_state s) (upper_state s') = upper_text (consumed s s').
Proof.
  unfold consumed. rewrite !upper_state_length. unfold upper_state, upper_text.
  cbn [rest]. apply firstn_map.
Qed.

Lemma word_at_upper (o : option char16) :
  is_word_at (option_map upper o) = is_word_at o.
Proof. destruct o; [apply word_upper | reflexivity]. Qed.

(** Matching with the [i] flag on the folded text goes as on the text. *)
Lemma m_upper (r : Regex) :
  forall s k k', follows k k' ->
    m true r (upper_state s) k' = option_map upper_state (m true r s k).
Proof.
  induction r as [ | p | | atoms | a IHa b IHb | a IHa b IHb | a IHa | a IHa
                   | a IHa | n a IHa | ]; intros s k k' Hk; cbn [m].
  - apply Hk.
  - apply step_upper; [apply char_match_upper | exact Hk].
  - apply step_upper; [ | exact Hk]. intros c. rewrite line_terminator_upper. reflexivity.
  - apply step_upper; [apply class_member_upper | exact Hk].
  - apply IHa. intros s1. apply IHb, Hk.
  - rewrite (IHa s k k' Hk). destruct (m true a s k); [reflexivity | apply IHb, Hk].
  - rewrite upper_state_length. apply (repeat_upper _ IHa), Hk.
  - apply IHa. intros s1. rewrite upper_state_length. apply (repeat_upper _ IHa), Hk.
  - rewrite (IHa s (fun s' => if (length (rest s') <? length (rest s))%nat
                              then k s' else None)).
    + destruct (m true a s _); [reflexivity | apply Hk].
    + intros s1. rewrite !upper_state_length.
      destruct (length (rest s1) <? length (rest s))%nat; [apply Hk | reflexivity].
  - apply IHa. intros s1.
    rewrite <- (Hk (mkState (prev s1) (rest s1) ((n, consumed s s1) :: caps s1))).
    f_equal. change (mkState (option_map upper (prev s)) (upper_text (rest s))
                             (upper_caps (caps s))) with (upper_state s).
    rewrite consumed_upper. reflexivity.
  - destruct s as [p t cs]. cbn [upper_state prev rest caps].
    rewrite word_at_upper.
    assert (Hh : is_word_at (hd_error (upper_text t)) = is_word_at (hd_error t)).
    { destruct t; [reflexivity | apply word_upper]. }
    rewrite Hh. destruct (xorb _ _); [apply (Hk (mkState p t cs)) | reflexivity].
Qed.

Lemma match_here_upper (re : RegExp) (p : option char16) (t : text) :
  ignoreCase re = true ->
  match_here re (option_map upper p) (upper_text t)
  = option_map upper_state (match_here re p t).
Proof.
  intros Hic. unfold match_here. rewrite Hic.
  change (mkState (option_map upper p) (upper_text t) [])
    with (upper_state (mkState p t [])).
  apply m_upper. intros s. reflexivity.
Qed.

Lemma search_upper (re : RegExp) :
  ignoreCase re = true ->
  forall t p i,
    search re (option_map upper p) (upper_text t) i
    = option_map upper_match (search re p t i).
Proof.
  intros Hic. induction t as [ | c t IH]; intros p i; cbn [search upper_text map].
  - change (@nil char16) with (upper_text []) at 1.
    rewrite (match_here_upper re p [] Hic).
    destruct (match_here re p []) as [s' | ]; [ | reflexivity].
    cbn [option_map]. unfold upper_match. cbn [index matched groups].
    rewrite <- (consumed_upper (mkState p [] []) s'). reflexivity.
  - change (upper c :: map upper t) with (upper_text (c :: t)).
    rewrite (match_here_upper re p (c :: t) Hic).
    destruct (match_here re p (c :: t)) as [s' | ].
    + cbn [option_map]. unfold upper_match. cbn [index matched groups].
      rewrite <- (consumed_upper (mkState p (c :: t) []) s'). reflexivity.
    + cbn [option_map]. exact (IH (Some c) (S i)).
Qed.

(** Under the [i] flag the match in the folded text is the folded match. *)
Lemma exec_upper (re : RegExp) (t : text) :
  ignoreCase re = true ->
  exec re (upper_text t) = option_map upper_match (exec re t).
Proof. intros Hic. exact (search_upper re Hic t None 0%nat). Qed.

Lemma test_upper (re : RegExp) (t : text) :
  ignoreCase re = true -> test re (upper_text t) = test re t.
Proof.
  intros Hic. unfold test. rewrite (exec_upper re t Hic).
  destruct (exec re t); reflexivity.
Qed.

Lemma lookup_upper (n : nat) (cs : list (nat * text)) :
  lookup n (upper_caps cs) = option_map upper_text (lookup n cs).
Proof.
  induction cs as [ | [i x] cs IH]; [reflexivity | ].
  cbn [upper_caps map lookup fst snd]. destruct (Nat.eqb i n); [reflexivity | exact IH].
Qed.

Lemma exit_patterns_insensitive (p : RegExp) :
  In p EXIT_CODE_PATTERNS -> ignoreCase p = true.
Proof. intros [<- | [<- | [<- | []]]]; reflexivity. Qed.

Lemma keyword_patterns_insensitive (p : RegExp) :
  In p ERROR_KEYWORD_PATTERNS -> ignoreCase p = true.
Proof. intros [<- | [<- | [<- | [<- | []]]]]; reflexivity. Qed.

Lemma type_patterns_insensitive (p : RegExp) (tag : text) :
  In (p, tag) ERROR_TYPE_PATTERNS -> ignoreCase p = true.
Proof.
  intros Hin. cbn [In ERROR_TYPE_PATTERNS] in Hin.
  repeat (destruct Hin as [[= <- _] | Hin]; [reflexivity | ]). destruct Hin.
Qed.

(** The number an exit code pattern captures is the same in the folded
    text. *)
Lemma exit_group_upper (p : RegExp) (t : text) (mt : Match) :
  In p EXIT_CODE_PATTERNS -> exec p t = Some mt ->
  group1 (upper_match mt) = group1 mt.
Proof.
  intros Hin He. destruct (exit_pattern_capture p t mt Hin He) as (d & Hc & _ & Hd).
  unfold group1, capture in *. unfold upper_match. cbn [groups].
  rewrite lookup_upper, Hc. cbn [option_map]. apply digits_upper, Hd.
Qed.

Lemma exit_code_scan_upper (t : text) (patterns : list RegExp) :
  (forall p, In p patterns -> In p EXIT_CODE_PATTERNS) ->
  option_map exitCode (exit_code_scan patterns (upper_text t))
  = option_map exitCode (exit_code_scan patterns t).
Proof.
  induction patterns as [ | p ps IH]; intros Hall; [reflexivity | ].
  cbn [exit_code_scan].
  assert (Hp : In p EXIT_CODE_PATTERNS) by (apply Hall; left; reflexivity).
  assert (Hps : forall q, In q ps -> In q EXIT_CODE_PATTERNS)
    by (intros q Hq; apply Hall; right; exact Hq).
  rewrite (exec_upper p t (exit_patterns_insensitive p Hp)).
  destruct (exec p t) as [mt | ] eqn:E; cbn [option_map]; [ | exact (IH Hps)].
  rewrite (exit_group_upper p t mt Hp E).
  destruct (strict_ne_zero (parseInt (group1 mt))); [reflexivity | exact (IH Hps)].
Qed.

Lemma keyword_scan_upper (t : text) (patterns : list RegExp) :
  (forall p, In p patterns -> ignoreCase p = true) ->
  keyword_scan patterns (upper_text t) = keyword_scan patterns t.
Proof.
  induction patterns as [ | p ps IH]; intros Hall; [reflexivity | ].
  cbn [keyword_scan]. rewrite (test_upper p t) by (apply Hall; left; reflexivity).
  destruct (test p t); [reflexivity | ].
  apply IH. intros q Hq. apply Hall. right. exact Hq.
Qed.

Lemma error_type_scan_upper (t dflt : text) (patterns : list (RegExp * text)) :
  (forall p tag, In (p, tag) patterns -> ignoreCase p = true) ->
  error_type_scan patterns dflt (upper_text t) = error_type_scan patterns dflt t.
Proof.
  induction patterns as [ | [p tag] ps IH]; intros Hall; [reflexivity | ].
  cbn [error_type_scan].
  rewrite (test_upper p t) by (apply (Hall p tag); left; reflexivity).
  destruct (test p t); [reflexivity | ].
  apply IH. intros q tq Hq. apply (Hall q tq). right. exact Hq.
Qed.

Lemma exit_code_scan_result (patterns : list RegExp) (t : text) (r : ErrorDetectionResult) :
  exit_code_scan patterns t = Some r -> isError r = true /\ exitCode r <> None.
Proof.
  intros Hs. apply exit_code_scan_sound in Hs.
  destruct Hs as (p & mt & _ & _ & _ & ->). split; [reflexivity | discriminate].
Qed.

Lemma classify_upper (t : text) :
  isError (classify_text (upper_text t)) = isError (classify_text t)
  /\ exitCode (classify_text (upper_text t)) = exitCode (classify_text t).
Proof.
  unfold classify_text.
  pose proof (exit_code_scan_upper t EXIT_CODE_PATTERNS (fun p Hp => Hp)) as Hx.
  rewrite (keyword_scan_upper t ERROR_KEYWORD_PATTERNS keyword_patterns_insensitive).
  destruct (exit_code_scan EXIT_CODE_PATTERNS (upper_text t)) as [r' | ] eqn:E';
    destruct (exit_code_scan EXIT_CODE_PATTERNS t) as [r | ] eqn:E;
    cbn [option_map] in Hx; try discriminate Hx.
  - injection Hx as Hx. split; [ | exact Hx].
    destruct (exit_code_scan_result _ _ _ E') as [-> _].
    destruct (exit_code_scan_result _ _ _ E) as [-> _]. reflexivity.
  - destruct (keyword_scan ERROR_KEYWORD_PATTERNS t); split; reflexivity.
Qed.

(** X13: [detectBashError] does not look at letter case: two text responses that
    differ only in the case of ASCII letters get the same verdict and the same
    exit code, whatever the tool. *)
Theorem verdict_ignores_case {num : Type} `{NumberOps num}
  (name t t' : text) (r r' : ErrorDetectionResult) :
  same_ci t t' ->
  detectBashError name (JString t) = Ok r ->
  detectBashError name (JString t') = Ok r' ->
  isError r = isError r' /\ exitCode r = exitCode r'.
Proof.
  intros Hci. unfold detectBashError.
  destruct (negb (Text.eqb name (lit "Bash"))).
  - intros [= <-] [= <-]. split; reflexivity.
  - cbn [response_text bind]. intros [= <-] [= <-].
    destruct (classify_upper t) as [E1 E2].
    destruct (classify_upper t') as [E1' E2'].
    change (upper_text t = upper_text t') in Hci. rewrite Hci in E1, E2.
    split; congruence.
Qed.

Lemma verdict_ignores_case_witness :
  let t := lit "make: *** [all] Error 2; Exited With Code 2" in
  let t' := lit "MAKE: *** [ALL] ERROR 2; exited with code 2" in
  same_ci t t'
  /\ isError (classify_text t) = isError (classify_text t')
  /\ exitCode (classify_text t) = exitCode (classify_text t').
Proof.
  intros t t'. split; [reflexivity | ].
  apply (verdict_ignores_case (num := Z) (lit "Bash") t t'); reflexivity.
Defined.

(** X14: the error type of [extractErrorFeatures] does not depend on letter
    case: messages that differ only in the case of ASCII letters get the same
    type. *)
Theorem error_type_ignores_case (t t' : text) :
  same_ci t t' ->
  errorType (extractErrorFeatures t) = errorType (extractErrorFeatures t').
Proof.
  intros Hci. change (upper_text t = upper_text t') in Hci.
  unfold extractErrorFeatures. cbn [errorType].
  rewrite <- (error_type_scan_upper t _ ERROR_TYPE_PATTERNS type_patterns_insensitive).
  rewrite <- (error_type_scan_upper t' _ ERROR_TYPE_PATTERNS type_patterns_insensitive).
  rewrite Hci. reflexivity.
Qed.

Lemma error_type_ignores_case_witness :
  errorType (extractErrorFeatures (lit "TYPEERROR: x is not a function"))
  = errorType (extractErrorFeatures (lit "typeerror: X is not a function")).
Proof.
  apply (error_type_ignores_case (lit "TYPEERROR: x is not a function")
                                 (lit "typeerror: X is not a function")).
  reflexivity.
Defined.
